(** * Admin-interface patch scripts: a shallow embedding

    The repository holds four browser scripts:

    - [store_employee_autocomplete_by_service.js]  (module [StoreEmployeeAutocompleteByService])
    - [store_changelist_filters.js]                (module [StoreChangelistFilters])
    - [store_changelist_header_filters.js]         (module [StoreChangelistHeaderFilters])
    - an unnamed script mounting a datalist          (module [SourceSuggestions])

    Each script reads and mutates the live page.  The page is modelled as an
    explicit [world]: the document tree, the current URL, jQuery's per-element
    data store (where select2 keeps its instance), a heap of parameter objects
    (JavaScript objects are passed by reference and the scripts mutate them in
    place), the console, and the listeners and timers the scripts register.
    Functions of the scripts become state-passing functions on [world] that
    either return normally or throw. *)

From Stdlib Require Import ZArith Ascii.
From stdpp Require Import gmap strings list fin_maps.

Set Warnings "-register-all".

(* ===================================================================== *)
(** * Strings *)
(* ===================================================================== *)

Module Str.

(** [s.startsWith(pre)]. *)
Fixpoint starts_with (pre s : string) : bool :=
  match pre, s with
  | EmptyString, _ => true
  | String a pre', String b s' => if decide (a = b) then starts_with pre' s' else false
  | String _ _, EmptyString => false
  end.

(** [hay.includes(needle)]. *)
Fixpoint includes (needle hay : string) : bool :=
  starts_with needle hay ||
  match hay with
  | EmptyString => false
  | String _ hay' => includes needle hay'
  end.

(** [s.endsWith(suf)]. *)
Definition ends_with (suf s : string) : bool :=
  starts_with (String.rev suf) (String.rev s).

(** [parts.join(sep)]. *)
Fixpoint join (sep : string) (parts : list string) : string :=
  match parts with
  | [] => ""
  | [x] => x
  | x :: rest => x +:+ sep +:+ join sep rest
  end.

Definition eqb (a b : string) : bool := bool_decide (a = b).

Definition is_empty (s : string) : bool :=
  match s with EmptyString => true | String _ _ => false end.

(** [\d] of a JavaScript regular expression without the [u] flag. *)
Definition is_digit (c : ascii) : bool :=
  match Ascii.is_nat c with Some _ => true | None => false end.

(** The longest prefix of [s] made of digits, and what follows it. *)
Fixpoint span_digits (s : string) : string * string :=
  match s with
  | EmptyString => ("", "")
  | String c s' =>
      if is_digit c
      then let '(ds, rest) := span_digits s' in (String c ds, rest)
      else ("", s)
  end.

(** [s] without the prefix [pre], when it has it. *)
Fixpoint strip_prefix (pre s : string) : option string :=
  match pre, s with
  | EmptyString, _ => Some s
  | String a pre', String b s' => if decide (a = b) then strip_prefix pre' s' else None
  | String _ _, EmptyString => None
  end.

(** ASCII lower case, as HTML folds the values it compares without
    regard to case. *)
Definition lower_ascii (c : ascii) : ascii :=
  let n := N_of_ascii c in
  if (65 <=? n)%N && (n <=? 90)%N then ascii_of_N (n + 32) else c.

Fixpoint lower (s : string) : string :=
  match s with
  | EmptyString => EmptyString
  | String c s' => String (lower_ascii c) (lower s')
  end.

(** [s.replace(/\r/g, "")]. *)
Fixpoint strip_cr (s : string) : string :=
  match s with
  | EmptyString => EmptyString
  | String c s' => if decide (c = "013"%char) then strip_cr s' else String c (strip_cr s')
  end.

(** ** Splitting on white space

    Strings hold the UTF-8 encoding of the text, so a white-space
    character is given by the bytes of its encoding. *)

(** The number of bytes of the separator [s] starts with; 0 when it
    starts with none. *)
Definition sep_len (seps : list string) (s : string) : nat :=
  match find (fun c => starts_with c s) seps with
  | Some c => String.length c
  | None => 0
  end.

(** The word being read, once it has ended. *)
Definition flush (cur : string) : list string :=
  if is_empty cur then [] else [cur].

(** The words of [s]: the maximal runs of bytes between separators.
    [skip] counts the bytes of a separator still to pass over, [cur] is
    the word read so far. *)
Fixpoint split_go (seps : list string) (skip : nat) (cur : string) (s : string) : list string :=
  match s with
  | EmptyString => flush cur
  | String a s' =>
      match skip with
      | S k => split_go seps k cur s'
      | 0 =>
          match sep_len seps s with
          | 0 => split_go seps 0 (cur +:+ String a "") s'
          | S k => flush cur ++ split_go seps k "" s'
          end
      end
  end.

Definition split (seps : list string) (s : string) : list string := split_go seps 0 "" s.

(** ASCII white space of HTML: tab, line feed, form feed, carriage return
    and space. *)
Definition html_space : list string :=
  [ String "009" ""; String "010" ""; String "012" ""; String "013" ""; String "032" "" ].

(** The characters that [\s] of a regular expression and [trim] take for
    white space (WhiteSpace and LineTerminator of ECMAScript), in UTF-8:
    U+0009 to U+000D, U+0020, U+00A0, U+1680, U+2000 to U+200A, U+2028,
    U+2029, U+202F, U+205F, U+3000 and U+FEFF. *)
Definition js_space : list string :=
  [ String "009" ""; String "010" ""; String "011" ""; String "012" ""; String "013" "";
    String "032" "";
    String "194" (String "160" "");
    String "225" (String "154" (String "128" ""));
    String "226" (String "128" (String "128" ""));
    String "226" (String "128" (String "129" ""));
    String "226" (String "128" (String "130" ""));
    String "226" (String "128" (String "131" ""));
    String "226" (String "128" (String "132" ""));
    String "226" (String "128" (String "133" ""));
    String "226" (String "128" (String "134" ""));
    String "226" (String "128" (String "135" ""));
    String "226" (String "128" (String "136" ""));
    String "226" (String "128" (String "137" ""));
    String "226" (String "128" (String "138" ""));
    String "226" (String "128" (String "168" ""));
    String "226" (String "128" (String "169" ""));
    String "226" (String "128" (String "175" ""));
    String "226" (String "129" (String "159" ""));
    String "227" (String "128" (String "128" ""));
    String "239" (String "187" (String "191" "")) ].

End Str.

(* ===================================================================== *)
(** * JavaScript values, exceptions, parameter objects *)
(* ===================================================================== *)

Module Js.

(** Primitive values stored in a parameter object. *)
Inductive pval :=
| PUndefined
| PNull
| PBool (b : bool)
| PNum (z : Z)
| PStr (s : string).

Global Instance pval_eq_dec : EqDecision pval.
Proof. solve_decision. Defined.

(** A parameter object such as [{term: "ann", page: 1}]: own enumerable
    properties, by name. *)
Abbreviation jsobj := (gmap string pval).

(** ToBoolean on primitives. *)
Definition truthy (v : pval) : bool :=
  match v with
  | PUndefined | PNull => false
  | PBool b => b
  | PNum z => negb (Z.eqb z 0)
  | PStr s => negb (Str.is_empty s)
  end.

(** The exceptions the scripts can raise. *)
Inductive exn :=
| TypeError
| ReferenceError
| SyntaxError
| HierarchyRequestError.

Global Instance exn_eq_dec : EqDecision exn.
Proof. solve_decision. Defined.

(** Result of a pure computation that may throw. *)
Inductive res (A : Type) :=
| Val (a : A)
| Err (e : exn).
Global Arguments Val {A} a.
Global Arguments Err {A} e.

End Js.
Export Js.

(* ===================================================================== *)
(** * The document tree *)
(* ===================================================================== *)

Module Dom.

(** The listeners the scripts attach to elements they create.  A listener
    is recorded on the node by the name of the function it runs. *)
Inductive listener :=
| OnChangeUpdateQuery      (* select "change": updateQuery("service", this.value) *)
| OnClickToggleMenu        (* button "click": menu.hidden = !menu.hidden *)
.

(** A node is a text node or an element with its tag (lower case, as in an
    HTML document), its attributes in source order, the listeners attached
    by [addEventListener] and its child nodes.  The IDL property [selected]
    of an option, which has no reflecting attribute, is kept in [props]. *)
Inductive node :=
| Text (data : string)
| Elem (tag : string) (attrs : list (string * string)) (props : list string)
       (listeners : list (string * listener)) (children : list node).

(** An element is identified by the child indices leading to it from the
    root element. *)
Abbreviation path := (list nat).

Definition children_of (n : node) : list node :=
  match n with
  | Text _ => []
  | Elem _ _ _ _ ks => ks
  end.

Definition is_elem (n : node) : bool :=
  match n with Text _ => false | Elem _ _ _ _ _ => true end.

Definition tag_of (n : node) : option string :=
  match n with Text _ => None | Elem t _ _ _ _ => Some t end.

Fixpoint get (n : node) (p : path) : option node :=
  match p with
  | [] => Some n
  | i :: p' =>
      match children_of n !! i with
      | Some k => get k p'
      | None => None
      end
  end.

(** ** Attributes *)

Fixpoint assoc (name : string) (l : list (string * string)) : option string :=
  match l with
  | [] => None
  | (k, v) :: l' => if decide (k = name) then Some v else assoc name l'
  end.

Fixpoint assoc_set (name v : string) (l : list (string * string)) : list (string * string) :=
  match l with
  | [] => [(name, v)]
  | (k, w) :: l' => if decide (k = name) then (k, v) :: l' else (k, w) :: assoc_set name v l'
  end.

(** [el.getAttribute(name)]: [None] is JavaScript's [null]. *)
Definition getAttribute (name : string) (n : node) : option string :=
  match n with
  | Text _ => None
  | Elem _ a _ _ _ => assoc name a
  end.

Definition setAttribute (name v : string) (n : node) : node :=
  match n with
  | Text _ => n
  | Elem t a ps ls ks => Elem t (assoc_set name v a) ps ls ks
  end.

(** An ordered set of tokens: each token once, where it occurs first.
    [seen] holds the tokens met so far. *)
Fixpoint ordered_set (seen : list string) (l : list string) : list string :=
  match l with
  | [] => []
  | x :: l' =>
      if bool_decide (x ∈ seen) then ordered_set seen l'
      else x :: ordered_set (x :: seen) l'
  end.

(** The class tokens of an element: its class attribute split on ASCII
    white space, as an ordered set. *)
Definition classList (n : node) : list string :=
  match getAttribute "class" n with
  | Some c => ordered_set [] (Str.split Str.html_space c)
  | None => []
  end.

Definition has_class (c : string) (n : node) : bool :=
  bool_decide (c ∈ classList n).

(** [el.classList.add(c)]: the token set is serialised back into the
    attribute. *)
Definition classList_add (c : string) (n : node) : node :=
  let toks := classList n in
  setAttribute "class" (Str.join " " (if bool_decide (c ∈ toks) then toks else toks ++ [c])) n.

Definition addEventListener (ev : string) (h : listener) (n : node) : node :=
  match n with
  | Text _ => n
  | Elem t a ps ls ks => Elem t a ps (ls ++ [(ev, h)]) ks
  end.

Definition set_prop (p : string) (n : node) : node :=
  match n with
  | Text _ => n
  | Elem t a ps ls ks => Elem t a (ps ++ [p]) ls ks
  end.

Definition has_prop (p : string) (n : node) : bool :=
  match n with
  | Text _ => false
  | Elem _ _ ps _ _ => bool_decide (p ∈ ps)
  end.

Definition clear_prop (p : string) (n : node) : node :=
  match n with
  | Text _ => n
  | Elem t a ps ls ks => Elem t a (filter (fun q => q ≠ p) ps) ls ks
  end.

(** [parent.appendChild(child)] on detached nodes under construction. *)
Definition appendChild (child parent : node) : node :=
  match parent with
  | Text _ => parent
  | Elem t a ps ls ks => Elem t a ps ls (ks ++ [child])
  end.

(** [document.createElement(tag)]. *)
Definition createElement (tag : string) : node := Elem tag [] [] [] [].

(** [el.textContent]. *)
Fixpoint textContent (n : node) : string :=
  match n with
  | Text s => s
  | Elem _ _ _ _ ks =>
      (fix go (l : list node) : string :=
         match l with
         | [] => ""
         | k :: l' => textContent k +:+ go l'
         end) ks
  end.

(** [el.textContent = s]: the children are replaced by one text node, or
    by nothing when [s] is empty. *)
Definition set_textContent (s : string) (n : node) : node :=
  match n with
  | Text _ => n
  | Elem t a ps ls _ => Elem t a ps ls (if Str.is_empty s then [] else [Text s])
  end.

(** [el.cloneNode(true)]: attributes and descendants are copied, listeners
    are not. *)
Fixpoint cloneNode (n : node) : node :=
  match n with
  | Text s => Text s
  | Elem t a ps _ ks => Elem t a ps [] (map cloneNode ks)
  end.

End Dom.
Export Dom.

(* ===================================================================== *)
(** * Selectors and queries *)
(* ===================================================================== *)

Module Sel.

(** Attribute tests: [[a="v"]], [[a*="v"]], [[a$="v"]]. *)
Inductive attr_op := AttrEquals | AttrIncludes | AttrEndsWith.

(** A compound selector such as [select[name$="x"].admin-autocomplete]:
    an optional tag, an optional id, class names and attribute tests.
    With nothing set it is the universal selector. *)
Record compound := Compound {
  c_tag : option string;
  c_id : option string;
  c_classes : list string;
  c_attrs : list (string * attr_op * string)
}.

(** A complex selector built with the descendant combinator: the compound
    its subject must match and the compounds its ancestors must match,
    nearest first.  [#changelist .actions] is
    [Complex (.actions) [#changelist]]. *)
Record complex := Complex {
  subject : compound;
  above : list compound
}.

(** A selector list: [a, b, c]. *)
Abbreviation selector := (list complex).

(** The attributes whose values a selector compares without regard to
    ASCII case on the elements of an HTML document. *)
Definition case_insensitive_values : list string :=
  [ "accept"; "accept-charset"; "align"; "alink"; "axis"; "bgcolor"; "charset"; "checked";
    "clear"; "codetype"; "color"; "compact"; "declare"; "defer"; "dir"; "direction";
    "disabled"; "enctype"; "face"; "frame"; "hreflang"; "http-equiv"; "lang"; "language";
    "link"; "media"; "method"; "multiple"; "nohref"; "noresize"; "noshade"; "nowrap";
    "readonly"; "rel"; "rev"; "rules"; "scope"; "scrolling"; "selected"; "shape"; "target";
    "text"; "type"; "valign"; "valuetype"; "vlink" ].

(** The value of the attribute [name] as a selector compares it. *)
Definition fold_case (name : string) (v : string) : string :=
  if existsb (String.eqb name) case_insensitive_values then Str.lower v else v.

Definition attr_test (name : string) (op : attr_op) (expected actual : string) : bool :=
  let expected := fold_case name expected in
  let actual := fold_case name actual in
  match op with
  | AttrEquals => Str.eqb actual expected
  | AttrIncludes => negb (Str.is_empty expected) && Str.includes expected actual
  | AttrEndsWith => negb (Str.is_empty expected) && Str.ends_with expected actual
  end.

Definition opt_matches (want : option string) (have : option string) : bool :=
  match want with
  | None => true
  | Some w => bool_decide (have = Some w)
  end.

Definition matches_compound (c : compound) (n : node) : bool :=
  is_elem n
  && opt_matches (c_tag c) (tag_of n)
  && opt_matches (c_id c) (getAttribute "id" n)
  && forallb (fun cl => has_class cl n) (c_classes c)
  && forallb (fun '(name, op, v) =>
                match getAttribute name n with
                | Some actual => attr_test name op v actual
                | None => false
                end) (c_attrs c).

(** The ancestors a node must have, nearest first, against the actual
    ancestors, nearest first. *)
Fixpoint matches_above (want : list compound) (up : list node) {struct up} : bool :=
  match want, up with
  | [], _ => true
  | _ :: _, [] => false
  | c :: want', n :: up' =>
      if matches_compound c n then matches_above want' up' else matches_above want up'
  end.

(** The nodes met on the way from [n] down to (and excluding) the node at
    [p], outermost first. *)
Fixpoint along (n : node) (p : path) : list node :=
  match p with
  | [] => []
  | i :: p' =>
      n :: match children_of n !! i with
           | Some k => along k p'
           | None => []
           end
  end.

(** [el.matches(sel)] for the element at [p] of the document [d]. *)
Definition matches (d : node) (sel : selector) (p : path) : bool :=
  match get d p with
  | Some n =>
      existsb (fun cx => matches_compound (subject cx) n
                         && matches_above (above cx) (rev (along d p))) sel
  | None => false
  end.

(** All elements of the tree, in document order. *)
Fixpoint elems (n : node) : list path :=
  match n with
  | Text _ => []
  | Elem _ _ _ _ ks =>
      [] :: (fix go (i : nat) (l : list node) : list path :=
               match l with
               | [] => []
               | k :: l' => map (cons i) (elems k) ++ go (S i) l'
               end) 0 ks
  end.

(** The elements inside the children [l], the first of which is child
    number [i]. *)
Fixpoint elems_kids (i : nat) (l : list node) : list path :=
  match l with
  | [] => []
  | k :: l' => map (cons i) (elems k) ++ elems_kids (S i) l'
  end.

Definition is_proper_prefix (a p : path) : bool :=
  bool_decide (a `prefix_of` p) && negb (bool_decide (a = p)).

(** [document.querySelectorAll(sel)]. *)
Definition doc_qsa (d : node) (sel : selector) : list path :=
  filter (fun p => matches d sel p = true) (elems d).

(** [root.querySelectorAll(sel)]: the descendants of [root] that match;
    the ancestors named by the selector may lie outside [root]. *)
Definition elem_qsa (d : node) (root : path) (sel : selector) : list path :=
  filter (fun p => is_proper_prefix root p = true) (doc_qsa d sel).

(** A root to query from: [None] is the document. *)
Definition querySelectorAll (d : node) (root : option path) (sel : selector) : list path :=
  match root with
  | None => doc_qsa d sel
  | Some r => elem_qsa d r sel
  end.

Definition querySelector (d : node) (root : option path) (sel : selector) : option path :=
  head (querySelectorAll d root sel).

(** [el.closest(sel)]: the element itself or its nearest ancestor that
    matches. *)
Fixpoint closest_from (d : node) (sel : selector) (rp : list nat) : option path :=
  if matches d sel (rev rp) then Some (rev rp)
  else match rp with
       | [] => None
       | _ :: rp' => closest_from d sel rp'
       end.

Definition closest (d : node) (sel : selector) (p : path) : option path :=
  closest_from d sel (rev p).

(** [el.parentElement]; the root element has none. *)
Definition parentElement (p : path) : option path :=
  match rev p with
  | [] => None
  | _ :: rp => Some (rev rp)
  end.

(** [el.nextElementSibling]. *)
Definition nextElementSibling (d : node) (p : path) : option path :=
  match rev p with
  | [] => None
  | i :: rp =>
      let pp := rev rp in
      match get d pp with
      | Some parent =>
          (fix go (j : nat) (l : list node) : option path :=
             match l with
             | [] => None
             | k :: l' => if is_elem k then Some (pp ++ [j]) else go (S j) l'
             end) (S i) (drop (S i) (children_of parent))
      | None => None
      end
  end.

(** ** Insertion *)

(** The tree [n] with [new] inserted as child number [i] of the element
    at [pp]. *)
Fixpoint insert_child (n : node) (pp : path) (i : nat) (new : node) : node :=
  match n with
  | Text _ => n
  | Elem t a ps ls ks =>
      match pp with
      | [] => Elem t a ps ls (take i ks ++ new :: drop i ks)
      | j :: pp' => Elem t a ps ls (alter (fun k => insert_child k pp' i new) j ks)
      end
  end.

(** [el.appendChild(new)] for the element at [p] of the document. *)
Definition append_at (d : node) (p : path) (new : node) : node :=
  match get d p with
  | Some n => insert_child d p (length (children_of n)) new
  | None => d
  end.

(** ** Simple selectors used by the scripts *)

Definition any : compound := Compound None None [] [].
Definition by_tag (t : string) : compound := Compound (Some t) None [] [].
Definition by_id (i : string) : compound := Compound None (Some i) [] [].
Definition by_class (c : string) : compound := Compound None None [c] [].
Definition only (c : compound) : selector := [Complex c []].

End Sel.
Export Sel.

(* ===================================================================== *)
(** * URLs and their query parameters *)
(* ===================================================================== *)

Module Url.

(** [URLSearchParams]: an ordered list of name-value pairs; a name may
    occur several times. *)
Abbreviation URLSearchParams := (list (string * string)).

(** The parts of [new URL(href)] the scripts use. *)
Record URL := MkURL {
  pathname : string;
  searchParams : URLSearchParams;
  hash : string
}.

(** The names that occur in the pairs. *)
Definition names (l : URLSearchParams) : list string := l.*1.

(** The pairs whose name is neither [a] nor [b], in their order. *)
Definition others (a b : string) (l : URLSearchParams) : URLSearchParams :=
  filter (fun kv => kv.1 ≠ a ∧ kv.1 ≠ b) l.

(** [params.delete(name)] removes every pair of that name. *)
Definition sp_delete (name : string) (l : URLSearchParams) : URLSearchParams :=
  filter (fun kv => kv.1 ≠ name) l.

(** [params.get(name)]: the value of the first pair of that name. *)
Fixpoint sp_get (name : string) (l : URLSearchParams) : option string :=
  match l with
  | [] => None
  | (k, v) :: l' => if decide (k = name) then Some v else sp_get name l'
  end.

(** [params.set(name, value)]: the first pair of that name takes the
    value and the later ones are removed; without such a pair one is
    appended. *)
Fixpoint sp_set (name value : string) (l : URLSearchParams) : URLSearchParams :=
  match l with
  | [] => [(name, value)]
  | (k, v) :: l' =>
      if decide (k = name) then (k, value) :: sp_delete name l'
      else (k, v) :: sp_set name value l'
  end.

Definition hex_digit (n : N) : ascii :=
  ascii_of_N (if (n <? 10)%N then 48 + n else 55 + n).

(** Bytes the application/x-www-form-urlencoded serialiser leaves as they
    are: ASCII letters and digits, [*], [-], [.] and [_]. *)
Definition unreserved (c : ascii) : bool :=
  let n := N_of_ascii c in
  ((48 <=? n) && (n <=? 57) || (65 <=? n) && (n <=? 90) || (97 <=? n) && (n <=? 122)
   || (n =? 42) || (n =? 45) || (n =? 46) || (n =? 95))%N.

Fixpoint encode (s : string) : string :=
  match s with
  | EmptyString => ""
  | String c s' =>
      if unreserved c then String c (encode s')
      else if decide (c = " "%char) then String "+"%char (encode s')
      else let n := N_of_ascii c in
           String "%"%char (String (hex_digit (n / 16)) (String (hex_digit (n mod 16)) (encode s')))
  end.

(** [params.toString()]. *)
Definition sp_toString (l : URLSearchParams) : string :=
  Str.join "&" (map (fun kv => encode kv.1 +:+ "=" +:+ encode kv.2) l).

End Url.
Export Url.

(* ===================================================================== *)
(** * The page: select2 configuration, closures, the world *)
(* ===================================================================== *)

Module Browser.

(** Parameter objects live in a heap and are named by their index. *)
Abbreviation loc := nat.

(** jQuery objects are lists of elements, in document order. *)
Abbreviation jq := (list path).

(** The module-level binding [$] of a script: still in its temporal dead
    zone (its initialiser has not completed), [null], or jQuery. *)
Inductive dollar := DollarUninitialised | DollarNull | DollarJQuery.

(** What the slot [ajax.data] of a select2 configuration can hold, and the
    functions that can be stored in it.  A function is represented by its
    code and the variables it closes over:
    - [Host h] is a function of the host page; it reads the parameter
      object it is given and returns a fresh object [h doc params];
    - [AugmentedByEditLink oldData input] is the function expression of
      [patchSelect2Ajax], closing over [oldData] and [$input];
    - [AugmentedByHiddenId jq oldData selectEl] is the function expression
      of [patchEmployeeSelect2], closing over [$], [oldData] and
      [selectEl]. *)
Inductive dval :=
| DUndefined
| DNull
| DObject (l : loc)
| DFunction (f : fn)
with fn :=
| Host (h : node → jsobj → jsobj)
| AugmentedByEditLink (oldData : dval) (input : jq)
| AugmentedByHiddenId (jquery : dollar) (oldData : dval) (selectEl : path).

Definition dval_truthy (v : dval) : bool :=
  match v with
  | DUndefined | DNull => false
  | DObject _ | DFunction _ => true
  end.

(** [s2.options.options.ajax]. *)
Record Ajax := MkAjax {
  ajax_url : string;
  ajax_data : dval
}.

(** [s2.options.options]: the settings; [ajax] may be missing. *)
Record Settings := MkSettings {
  settings_ajax : option Ajax
}.

(** [s2.options]. *)
Record Options := MkOptions {
  options_options : option Settings
}.

(** The select2 instance stored under the data key ["select2"]. *)
Record Select2 := MkSelect2 {
  s2_options : option Options
}.

(** jQuery's data of one element: the keys the scripts read and write. *)
Record ElemData := MkElemData {
  d_select2 : option Select2;
  d_patchedStoreId : pval
}.

Definition no_data : ElemData := MkElemData None PUndefined.

(** Callbacks the scripts hand to the page, by the function they run. *)
Inductive callback :=
| CbChangelistFiltersReady            (* DOMContentLoaded, store_changelist_filters.js *)
| CbHeaderFiltersReady                (* DOMContentLoaded, store_changelist_header_filters.js *)
| CbSourceSuggestionsReady            (* DOMContentLoaded, the datalist script *)
| CbMountTopFilters                   (* setTimeout(mountTopFilters, ...) *)
| CbInitEmployeeAutocompletePatching  (* setTimeout(initEmployeeAutocompletePatching, 50) *)
| CbHideMenu                          (* document "click": menu.hidden = true *)
| CbPatchOnOpeningByService           (* "select2:opening" on .admin-autocomplete *)
| CbPatchOnOpeningEmployee.           (* "select2:opening" on the employee selects *)

(** The global variable [django]: not declared at all, or declared and
    holding a falsy value ([None]) or an object whose [jQuery] property is
    present or not. *)
Inductive global_django :=
| DjangoUndeclared
| DjangoDeclared (v : option bool).

(** The page.  Elements are named by their paths in [w_doc]; the data
    jQuery keeps for an element is found under its path.  The scripts add
    nodes and remove none: an element keeps its path unless a node is
    inserted before it or before one of its ancestors, and then what is
    held for it moves with it ([relocate] below).  Changes the host page
    makes to the document are not part of the model. *)
Record world := MkWorld {
  w_django : global_django;                     (* the global variable django *)
  w_doc : node;                                 (* the root element of the document *)
  w_url : URL;                                  (* window.location *)
  w_data : gmap path ElemData;                  (* jQuery data *)
  w_heap : list jsobj;                          (* parameter objects *)
  w_console : list string;                      (* console.warn *)
  w_host_calls : nat;                           (* calls of host functions so far *)
  w_doc_listeners : list (string * callback);   (* document.addEventListener, $(document).on *)
  w_timers : list (nat * callback);             (* setTimeout *)
  w_navigations : list string                   (* assignments to location.href *)
}.

Definition set_doc (d : node) (w : world) : world :=
  MkWorld (w_django w) d (w_url w) (w_data w) (w_heap w) (w_console w) (w_host_calls w)
          (w_doc_listeners w) (w_timers w) (w_navigations w).
Definition set_data (m : gmap path ElemData) (w : world) : world :=
  MkWorld (w_django w) (w_doc w) (w_url w) m (w_heap w) (w_console w) (w_host_calls w)
          (w_doc_listeners w) (w_timers w) (w_navigations w).
Definition set_heap (h : list jsobj) (w : world) : world :=
  MkWorld (w_django w) (w_doc w) (w_url w) (w_data w) h (w_console w) (w_host_calls w)
          (w_doc_listeners w) (w_timers w) (w_navigations w).
Definition add_console (msg : string) (w : world) : world :=
  MkWorld (w_django w) (w_doc w) (w_url w) (w_data w) (w_heap w) (w_console w ++ [msg]) (w_host_calls w)
          (w_doc_listeners w) (w_timers w) (w_navigations w).
Definition count_host_call (w : world) : world :=
  MkWorld (w_django w) (w_doc w) (w_url w) (w_data w) (w_heap w) (w_console w) (S (w_host_calls w))
          (w_doc_listeners w) (w_timers w) (w_navigations w).
Definition add_doc_listener (ev : string) (cb : callback) (w : world) : world :=
  MkWorld (w_django w) (w_doc w) (w_url w) (w_data w) (w_heap w) (w_console w) (w_host_calls w)
          (w_doc_listeners w ++ [(ev, cb)]) (w_timers w) (w_navigations w).
Definition add_timer (ms : nat) (cb : callback) (w : world) : world :=
  MkWorld (w_django w) (w_doc w) (w_url w) (w_data w) (w_heap w) (w_console w) (w_host_calls w)
          (w_doc_listeners w) (w_timers w ++ [(ms, cb)]) (w_navigations w).
Definition add_navigation (href : string) (w : world) : world :=
  MkWorld (w_django w) (w_doc w) (w_url w) (w_data w) (w_heap w) (w_console w) (w_host_calls w)
          (w_doc_listeners w) (w_timers w) (w_navigations w ++ [href]).

(** ** Elements after an insertion

    The scripts hold elements by reference; here an element is named by
    its path.  When a node becomes child number [i] of the element at
    [pp], the children from that place on, and what is inside them, get a
    new path.  What the page keeps by element, the data of jQuery and the
    elements the stored functions close over, follows them. *)

(** The path, after the insertion, of the element that was at [p]. *)
Fixpoint shift_path (pp : path) (i : nat) (p : path) : path :=
  match pp, p with
  | [], j :: rest => if decide (i ≤ j) then S j :: rest else p
  | a :: pp', b :: p' => if decide (a = b) then b :: shift_path pp' i p' else p
  | _, [] => p
  end.

Fixpoint relocate_dval (f : path → path) (v : dval) {struct v} : dval :=
  match v with
  | DFunction g => DFunction (relocate_fn f g)
  | DUndefined | DNull | DObject _ => v
  end
with relocate_fn (f : path → path) (g : fn) {struct g} : fn :=
  match g with
  | Host h => Host h
  | AugmentedByEditLink oldData input => AugmentedByEditLink (relocate_dval f oldData) (map f input)
  | AugmentedByHiddenId jQ oldData selectEl =>
      AugmentedByHiddenId jQ (relocate_dval f oldData) (f selectEl)
  end.

Definition relocate_select2 (f : path → path) (s2 : Select2) : Select2 :=
  MkSelect2
    ((fun o => MkOptions
        ((fun st => MkSettings
            ((fun aj => MkAjax (ajax_url aj) (relocate_dval f (ajax_data aj)))
               <$> settings_ajax st))
           <$> options_options o))
       <$> s2_options s2).

Definition relocate_data (f : path → path) (ed : ElemData) : ElemData :=
  MkElemData (relocate_select2 f <$> d_select2 ed) (d_patchedStoreId ed).

(** The page after the elements have been renamed by [f]. *)
Definition relocate (f : path → path) (w : world) : world :=
  set_data (kmap f (relocate_data f <$> w_data w)) w.

(** ** Computations on the world *)

Inductive outcome (A : Type) :=
| Return (a : A) (w : world)
| Throw (e : exn) (w : world).
Global Arguments Return {A} a w.
Global Arguments Throw {A} e w.

Definition M (A : Type) : Type := world → outcome A.

Definition ret {A} (a : A) : M A := fun w => Return a w.
Definition throw {A} (e : exn) : M A := fun w => Throw e w.
Definition bind {A B} (m : M A) (k : A → M B) : M B :=
  fun w => match m w with
           | Return a w' => k a w'
           | Throw e w' => Throw e w'
           end.
Definition gets {A} (f : world → A) : M A := fun w => Return (f w) w.
Definition modify (f : world → world) : M unit := fun w => Return tt (f w).
Definition lift {A} (r : res A) : M A :=
  match r with
  | Val a => ret a
  | Err e => throw e
  end.

Definition final {A} (o : outcome A) : world :=
  match o with
  | Return _ w => w
  | Throw _ w => w
  end.

Definition returned {A} (o : outcome A) : option A :=
  match o with
  | Return a _ => Some a
  | Throw _ _ => None
  end.

Definition threw {A} (o : outcome A) : option exn :=
  match o with
  | Return _ _ => None
  | Throw e _ => Some e
  end.

End Browser.
Export Browser.

Notation "'let!' x ':=' m 'in' k" := (Browser.bind m (fun x => k))
  (at level 10, x name, m at level 100, k at level 200, only parsing).
Notation "'do!' m 'in' k" := (Browser.bind m (fun _ => k))
  (at level 10, m at level 100, k at level 200, only parsing).

(* ===================================================================== *)
(** * The jQuery methods the scripts call *)
(* ===================================================================== *)

Module JQuery.

(** [$set.find(sel)]: the descendants of the elements of the set that
    match, in document order. *)
Definition find (d : node) (sel : selector) (els : jq) : jq :=
  filter (fun p => existsb (fun c => is_proper_prefix c p) els = true) (doc_qsa d sel).

(** [$set.closest(sel)]: for each element of the set, itself or its
    nearest ancestor that matches; in document order, without
    duplicates. *)
Definition closest (d : node) (sel : selector) (els : jq) : jq :=
  filter (fun t => existsb (fun c => bool_decide (Sel.closest d sel c = Some t)) els = true)
         (elems d).

(** [$set.first()]. *)
Definition first (els : jq) : jq := take 1 els.

(** [$set.attr(name)] reads the first element; [None] is [undefined]. *)
Definition attr (d : node) (name : string) (els : jq) : option string :=
  match els with
  | [] => None
  | p :: _ => match get d p with
              | Some n => getAttribute name n
              | None => None
              end
  end.

(** [$set.val()] on input elements reads the value of the first one; an
    input without a value has the value [""], and carriage returns are
    taken out of the string read. *)
Definition val (d : node) (els : jq) : option string :=
  match els with
  | [] => None
  | p :: _ => match get d p with
              | Some n => Some (Str.strip_cr (default "" (getAttribute "value" n)))
              | None => None
              end
  end.

(** The data jQuery holds for the first element of the set. *)
Definition data_of (store : gmap path ElemData) (els : jq) : ElemData :=
  match els with
  | [] => no_data
  | p :: _ => default no_data (store !! p)
  end.

End JQuery.

(** [data.key = v] on the parameter object at [l]. *)
Definition set_property (l : loc) (key : string) (v : pval) : M unit :=
  modify (fun w => set_heap (alter (insert key v) l (w_heap w)) w).

(** An object literal: a new object on the heap. *)
Definition new_object (o : jsobj) : M loc :=
  fun w => Return (length (w_heap w)) (set_heap (w_heap w ++ [o]) w).

(** [v(params)] for the value [v] of a variable, where [call] applies a
    function value: calling what is not a function is a [TypeError]. *)
Definition call_value (call : fn → loc → M loc) (v : dval) (params : loc) : M loc :=
  match v with
  | DFunction f => call f params
  | DUndefined | DNull | DObject _ => throw TypeError
  end.

Definition sel_tr : selector := only (by_tag "tr").

(* ===================================================================== *)
(** * store_employee_autocomplete_by_service.js *)
(* ===================================================================== *)

Module StoreEmployeeAutocompleteByService.

(** [a[href*="/change/"]] *)
Definition sel_edit_link : selector :=
  only (Compound (Some "a") None [] [("href", AttrIncludes, "/change/")]).

(** [.admin-autocomplete] *)
Definition sel_admin_autocomplete : selector := only (by_class "admin-autocomplete").

(** [input.select2-hidden-accessible] *)
Definition sel_hidden_input : selector :=
  only (Compound (Some "input") None ["select2-hidden-accessible"] []).

(** [href.match(/\/(\d+)\/change\/?$/)], giving the first group.  The
    expression is anchored at the end, so the string is read backwards:
    an optional [/], then [/change], then the digits, then [/]. *)
Definition match_change_id (href : string) : option string :=
  let r := String.rev href in
  let r := match r with
           | String "/" r' => r'
           | _ => r
           end in
  match Str.strip_prefix "egnahc/" r with
  | None => None
  | Some r' =>
      let '(ds, rest) := Str.span_digits r' in
      if Str.is_empty ds then None
      else match rest with
           | String "/" _ => Some (String.rev ds)
           | _ => None
           end
  end.

(** [getStoreIdFromRow($row)]; [None] is [null]. *)
Definition getStoreIdFromRow (d : node) (row : jq) : res (option string) :=
  let editLink := JQuery.first (JQuery.find d sel_edit_link row) in
  if bool_decide (length editLink = 0) then Val None
  else match JQuery.attr d "href" editLink with
       | Some href => Val (match_change_id href)
       | None => Err TypeError
       end.

(** [if (storeId)] on a string or [null]. *)
Definition storeId_truthy (storeId : option string) : bool :=
  match storeId with
  | Some s => truthy (PStr s)
  | None => truthy PNull
  end.

(** [oldData ? oldData(params) : params] *)
Definition initial_data (call : fn → loc → M loc) (oldData : dval) (params : loc) : M loc :=
  if dval_truthy oldData then call_value call oldData params else ret params.

(** The function expression assigned to [ajax.data], closed over
    [oldData] and [$input]. *)
Definition augmented (call : fn → loc → M loc) (oldData : dval) (input : jq)
    (params : loc) : M loc :=
  let! data := initial_data call oldData params in
  let! d := gets w_doc in
  let row := JQuery.closest d sel_tr input in
  let! storeId := lift (getStoreIdFromRow d row) in
  do! (match storeId with
       | Some s => if storeId_truthy storeId then set_property data "store_id" (PStr s) else ret tt
       | None => ret tt
       end) in
  ret data.

(** [patchSelect2Ajax($input)]. *)
Definition patchSelect2Ajax (input : jq) : M unit :=
  let! store := gets w_data in
  let ed := JQuery.data_of store input in
  match input, d_select2 ed with
  | e :: _, Some (MkSelect2 (Some (MkOptions (Some (MkSettings (Some aj)))))) =>
      let oldData := ajax_data aj in
      let aj' := MkAjax (ajax_url aj) (DFunction (AugmentedByEditLink oldData input)) in
      let s2' := MkSelect2 (Some (MkOptions (Some (MkSettings (Some aj'))))) in
      modify (set_data (<[e := MkElemData (Some s2') (d_patchedStoreId ed)]> store))
  | _, _ => ret tt
  end.

(** The listener of ["select2:opening"] on [.admin-autocomplete], run with
    [this] the widget. *)
Definition on_opening (this : path) : M unit :=
  let! d := gets w_doc in
  let widget := [this] in
  let input := JQuery.find d sel_hidden_input widget in
  if bool_decide (length input = 0) then ret tt else patchSelect2Ajax input.

(** [init()]: the loop over the search fields has an empty body; what
    remains is the delegated listener. *)
Definition init : M unit :=
  modify (add_doc_listener "select2:opening" CbPatchOnOpeningByService).

(** The body of the script.  [$(init)] runs [init] once the document is
    ready. *)
Definition script : M unit :=
  let! dj := gets w_django in
  let jQ := match dj with
           | DjangoDeclared (Some true) => DollarJQuery
           | DjangoDeclared _ | DjangoUndeclared => DollarNull
           end in
  match jQ with
  | DollarJQuery => init
  | _ => modify (add_console "django.jQuery не найден — autocomplete by service отключён")
  end.

End StoreEmployeeAutocompleteByService.

(* ===================================================================== *)
(** * store_changelist_filters.js *)
(* ===================================================================== *)

(** The functions of the file are embedded as they are written.  The
    file as it stands has one [});] too many before its last line and
    does not parse: [script], the load of the file, throws.  What is said
    of the functions is said of their text. *)

Module StoreChangelistFilters.

(** [updateQuery(param, value)] with [value] a string. *)
Definition updated_params (param value : string) (url : URL) : URLSearchParams :=
  let params := sp_delete "p" (searchParams url) in
  if negb (truthy (PStr value)) then sp_delete param params
  else sp_set param value params.

Definition updateQuery (param value : string) : M unit :=
  let! url := gets w_url in
  let params := updated_params param value url in
  modify (add_navigation (pathname url +:+ "?" +:+ sp_toString params)).

(** [getCurrent(param)]. *)
Definition getCurrent (param : string) (url : URL) : string :=
  match sp_get param (searchParams url) with
  | Some v => if truthy (PStr v) then v else ""
  | None => ""
  end.

(** [th.column-services] *)
Definition sel_th_services : selector :=
  only (Compound (Some "th") None ["column-services"] []).

(** [.service-filter-select] *)
Definition sel_service_filter : selector := only (by_class "service-filter-select").

Definition options : list (string * string) :=
  [ ("", "Все");
    ("cleaning_only", "Только клининг");
    ("merch_only", "Только выкладка");
    ("both", "Клининг и выкладка") ].

(** The option element built by one turn of the loop. *)
Definition make_option (current : string) (vl : string * string) : node :=
  let opt := createElement "option" in
  let opt := setAttribute "value" vl.1 opt in
  let opt := set_textContent vl.2 opt in
  if bool_decide (vl.1 = current) then set_prop "selected" opt else opt.

(** ** The selected option of a select

    When an option is inserted, a [select] without [multiple] and [size]
    settles which option is selected: with several options selected only
    the last stays selected, with none the first option that is not
    disabled becomes selected. *)

Definition is_option (n : node) : bool := bool_decide (tag_of n = Some "option").

(** Read from the last child: [acc.2] tells that a selected option
    follows. *)
Definition keep_last_selected (k : node) (acc : list node * bool) : list node * bool :=
  if is_option k && has_prop "selected" k
  then ((if acc.2 then clear_prop "selected" k else k) :: acc.1, true)
  else (k :: acc.1, acc.2).

Fixpoint select_first (ks : list node) : list node :=
  match ks with
  | [] => []
  | k :: ks' =>
      if is_option k && negb (bool_decide (is_Some (getAttribute "disabled" k)))
      then set_prop "selected" k :: ks'
      else k :: select_first ks'
  end.

Definition selectedness (select : node) : node :=
  match select with
  | Text _ => select
  | Elem t a ps ls ks =>
      match assoc "multiple" a, assoc "size" a with
      | None, None =>
          let r := foldr keep_last_selected ([], false) ks in
          Elem t a ps ls (if r.2 then r.1 else select_first ks)
      | _, _ => select
      end
  end.

(** [select.appendChild(opt)]. *)
Definition append_option (opt select : node) : node :=
  selectedness (appendChild opt select).

(** The [div] holding the select, as built before it is appended. *)
Definition make_wrap (current : string) : node :=
  let wrap := createElement "div" in
  let wrap := setAttribute "style" "margin-top: 6px;" wrap in
  let select := createElement "select" in
  let select := setAttribute "class" "service-filter-select" select in
  let select := setAttribute "style" "width: 100%;" select in
  let select := foldl (fun sel vl => append_option (make_option current vl) sel) select options in
  let select := addEventListener "change" OnChangeUpdateQuery select in
  appendChild select wrap.

(** [injectServiceFilter()]. *)
Definition injectServiceFilter : M unit :=
  let! d := gets w_doc in
  match querySelector d None sel_th_services with
  | None => ret tt
  | Some th =>
      match querySelector d (Some th) sel_service_filter with
      | Some _ => ret tt
      | None =>
          let! url := gets w_url in
          let current := getCurrent "service" url in
          modify (set_doc (append_at d th (make_wrap current)))
      end
  end.

(** The listener of ["change"] on the select, run with [this.value]. *)
Definition on_change (this_value : string) : M unit :=
  updateQuery "service" this_value.

(** [input[type="hidden"][name$="-id"]] *)
Definition sel_id_input : selector :=
  only (Compound (Some "input") None []
          [("type", AttrEquals, "hidden"); ("name", AttrEndsWith, "-id")]).

(** [select[name$="assigned_employee"].admin-autocomplete] *)
Definition sel_employee_select : selector :=
  only (Compound (Some "select") None ["admin-autocomplete"]
          [("name", AttrEndsWith, "assigned_employee")]).

(** [!$] for the binding [$] of this script: reading it before its
    initialiser has completed is a [ReferenceError]. *)
Definition not_dollar (jQ : dollar) : res bool :=
  match jQ with
  | DollarUninitialised => Err ReferenceError
  | DollarNull => Val true
  | DollarJQuery => Val false
  end.

(** [getStoreIdFromRow(selectEl)]. *)
Definition getStoreIdFromRow (jQ : dollar) (d : node) (selectEl : path) : res pval :=
  match not_dollar jQ with
  | Err e => Err e
  | Val true => Val (PStr "")
  | Val false =>
      let tr := JQuery.closest d sel_tr [selectEl] in
      let idInput := JQuery.find d sel_id_input tr in
      if bool_decide (length idInput = 0) then Val (PStr "")
      else match JQuery.val d idInput with
           | Some v => Val (PStr v)
           | None => Val PUndefined
           end
  end.

(** [(typeof oldData === "function") ? oldData(params) : (oldData || {})] *)
Definition initial_data (call : fn → loc → M loc) (oldData : dval) (params : loc) : M loc :=
  match oldData with
  | DFunction f => call f params
  | DObject l => ret l
  | DUndefined | DNull => new_object ∅
  end.

(** The function expression assigned to [opts.ajax.data], closed over
    [$], [oldData] and [selectEl]. *)
Definition augmented (call : fn → loc → M loc) (jQ : dollar) (oldData : dval)
    (selectEl : path) (params : loc) : M loc :=
  let! data := initial_data call oldData params in
  let! d := gets w_doc in
  let! storeId := lift (getStoreIdFromRow jQ d selectEl) in
  do! set_property data "store_id" storeId in
  ret data.

Section WithDollar.

(** The binding [$] of the script. *)
Variable jQ : dollar.

(** [patchEmployeeSelect2(selectEl)]. *)
Definition patchEmployeeSelect2 (selectEl : path) : M unit :=
  let! no_jq := lift (not_dollar jQ) in
  if no_jq then ret tt else
  let! store := gets w_data in
  let ed := JQuery.data_of store [selectEl] in
  if truthy (d_patchedStoreId ed) then ret tt else
  match d_select2 ed with
  | None => ret tt
  | Some s2 =>
      match s2_options s2 with
      | None => throw TypeError
      | Some o =>
          match options_options o with
          | None => throw TypeError
          | Some opts =>
              match settings_ajax opts with
              | None => ret tt
              | Some aj =>
                  let oldData := ajax_data aj in
                  let aj' := MkAjax (ajax_url aj)
                               (DFunction (AugmentedByHiddenId jQ oldData selectEl)) in
                  let s2' := MkSelect2 (Some (MkOptions (Some (MkSettings (Some aj'))))) in
                  modify (set_data (<[selectEl := MkElemData (Some s2') (PBool true)]> store))
              end
          end
      end
  end.

(** [selects.forEach((el) => patchEmployeeSelect2(el))]. *)
Fixpoint forEach_patch (selects : list path) : M unit :=
  match selects with
  | [] => ret tt
  | el :: rest => do! patchEmployeeSelect2 el in forEach_patch rest
  end.

(** [initEmployeeAutocompletePatching()]. *)
Definition initEmployeeAutocompletePatching : M unit :=
  let! no_jq := lift (not_dollar jQ) in
  if no_jq then ret tt else
  let! d := gets w_doc in
  do! forEach_patch (querySelectorAll d None sel_employee_select) in
  modify (add_doc_listener "select2:opening" CbPatchOnOpeningEmployee).

(** The listener of ["select2:opening"], run with [this] the select. *)
Definition on_opening (this : path) : M unit := patchEmployeeSelect2 this.

End WithDollar.

(** The listener of [DOMContentLoaded]. *)
Definition on_ready : M unit :=
  do! injectServiceFilter in
  modify (add_timer 50 CbInitEmployeeAutocompletePatching).

(** The statements of the function body that are not declarations: the
    listener is registered and then [$] is initialised from the variable
    [django], read as a bare identifier.  The result is the value [$] is
    bound to. *)
Definition statements : M dollar :=
  do! modify (add_doc_listener "DOMContentLoaded" CbChangelistFiltersReady) in
  let! dj := gets w_django in
  match dj with
  | DjangoUndeclared => throw ReferenceError
  | DjangoDeclared (Some true) => ret DollarJQuery
  | DjangoDeclared _ => ret DollarNull
  end.

(** ** The text of the file

    The brackets of the file that stand outside string literals and
    comments, with the number of their line; lines without brackets are
    left out. *)
Definition brackets : list (nat * string) :=
  [ (1, "((){"); (2, "(){"); (3, "()"); (7, "()"); (9, "(){"); (10, "()"); (11, "}{");
    (12, "()"); (13, "}"); (15, "()"); (16, "}"); (18, "(){"); (19, "()"); (20, "()");
    (21, "}"); (23, "(){"); (26, "()"); (27, "()"); (30, "(())"); (32, "()"); (35, "()");
    (39, "["); (40, "[]"); (41, "[]"); (42, "[]"); (43, "[]"); (44, "]"); (46, "()");
    (48, "([]){"); (49, "()"); (52, "()"); (53, "()"); (54, "}"); (56, "((){"); (57, "()");
    (58, "})"); (60, "()"); (61, "()"); (62, "}"); (65, "((){"); (66, "()"); (67, "()");
    (68, "})"); (71, "(){"); (72, "()"); (73, "()()"); (75, "()"); (76, "()"); (77, "}");
    (79, "(){"); (80, "()"); (82, "()"); (85, "(())"); (87, "()"); (88, "()"); (91, "()");
    (95, "(){"); (96, "()()({})"); (97, "()"); (99, "}"); (101, "()"); (102, "}");
    (104, "(){"); (105, "()"); (108, "()"); (109, "(()())"); (112, "()("); (115, "(){");
    (116, "()"); (117, "}"); (118, ")"); (119, "}"); (120, "})"); (121, "})()") ].

(** The brackets of one line, read with the brackets that are open; [None]
    when a closing bracket does not close the bracket opened last. *)
Fixpoint scan_line (s : string) (opened : list ascii) : option (list ascii) :=
  match s with
  | EmptyString => Some opened
  | String c s' =>
      if bool_decide (c ∈ ["("; "["; "{"]%char) then scan_line s' (c :: opened)
      else
        match opened with
        | o :: rest =>
            if bool_decide ((o, c) ∈ [("(", ")"); ("[", "]"); ("{", "}")]%char)
            then scan_line s' rest else None
        | [] => None
        end
  end.

(** The line on which reading the brackets fails, [last] being the line
    read last: a bracket left open fails at the end of the text. *)
Fixpoint scan (lines : list (nat * string)) (opened : list ascii) (last : nat) : option nat :=
  match lines with
  | [] => match opened with [] => None | _ :: _ => Some last end
  | (n, s) :: rest =>
      match scan_line s opened with
      | Some opened' => scan rest opened' n
      | None => Some n
      end
  end.

Definition syntax_error_line : option nat := scan brackets [] 0.

(** Loading the file: a text that does not parse throws before any of its
    statements runs. *)
Definition script : M dollar :=
  match syntax_error_line with
  | Some _ => throw SyntaxError
  | None => statements
  end.

(** The binding [$] once the script has run: it stays uninitialised when
    the initialiser threw. *)
Definition binding_after (o : outcome dollar) : dollar :=
  match o with
  | Return b _ => b
  | Throw _ _ => DollarUninitialised
  end.

End StoreChangelistFilters.

(* ===================================================================== *)
(** * Calling what is stored in [ajax.data] *)
(* ===================================================================== *)

(** A call of a host function: it reads the parameter object and returns a
    new object; the call is counted. *)
Definition call_host (h : node → jsobj → jsobj) (params : loc) : M loc :=
  let! d := gets w_doc in
  let! heap := gets w_heap in
  do! modify count_host_call in
  new_object (h d (default ∅ (heap !! params))).

(** [f(params)]. *)
Fixpoint call_fn (f : fn) (params : loc) {struct f} : M loc :=
  match f with
  | Host h => call_host h params
  | AugmentedByEditLink oldData input =>
      StoreEmployeeAutocompleteByService.augmented call_fn oldData input params
  | AugmentedByHiddenId jQ oldData selectEl =>
      StoreChangelistFilters.augmented call_fn jQ oldData selectEl params
  end.

(** select2 builds the request parameters of one search: it calls the
    function in [ajax.data] of the instance of the element [e] with the
    parameter object [params].  [None] when the element has no such
    function. *)
Definition request_params (e : path) (params : loc) : M (option loc) :=
  let! store := gets w_data in
  match d_select2 (JQuery.data_of store [e]) with
  | Some (MkSelect2 (Some (MkOptions (Some (MkSettings (Some aj)))))) =>
      match ajax_data aj with
      | DFunction f => let! l := call_fn f params in ret (Some l)
      | _ => ret None
      end
  | _ => ret None
  end.

(* ===================================================================== *)
(** * store_changelist_header_filters.js *)
(* ===================================================================== *)

Module StoreChangelistHeaderFilters.

Definition qs (d : node) (sel : selector) (root : option path) : option path :=
  querySelector d root sel.

Definition qsa (d : node) (sel : selector) (root : option path) : list path :=
  querySelectorAll d root sel.

(** [norm(s)]: runs of white space become one space and the ends are
    trimmed. *)
Definition norm (s : string) : string := Str.join " " (Str.split Str.js_space s).

(** [summary, h3, h2, .filter-title, .changelist-filter-title, *] *)
Definition sel_title_candidates : selector :=
  [ Complex (by_tag "summary") []; Complex (by_tag "h3") []; Complex (by_tag "h2") [];
    Complex (by_class "filter-title") []; Complex (by_class "changelist-filter-title") [];
    Complex any [] ].

(** [details, section, div, fieldset, li] *)
Definition sel_containers : selector :=
  [ Complex (by_tag "details") []; Complex (by_tag "section") []; Complex (by_tag "div") [];
    Complex (by_tag "fieldset") []; Complex (by_tag "li") [] ].

Definition sel_ul : selector := only (by_tag "ul").
Definition sel_a : selector := only (by_tag "a").

(** [li.selected a] *)
Definition sel_selected_link : selector :=
  [ Complex (by_tag "a") [Compound (Some "li") None ["selected"] []] ].

Definition text_at (d : node) (p : path) : string :=
  match get d p with
  | Some n => textContent n
  | None => ""
  end.

(** One turn of the loop of [findUlForFilterTitle]: the list found from
    the candidate [el], if any. *)
Definition ul_near (d : node) (el : path) : option path :=
  let ul := match nextElementSibling d el with
            | Some sib => if bool_decide ((get d sib ≫= tag_of) = Some "ul") then Some sib else None
            | None => None
            end in
  match ul with
  | Some u => Some u
  | None =>
      let parent := match Sel.closest d sel_containers el with
                    | Some c => Some c
                    | None => parentElement el
                    end in
      match parent ≫= (fun pa => querySelector d (Some pa) sel_ul) with
      | Some u => Some u
      | None => querySelector d (Some el) sel_ul
      end
  end.

Fixpoint first_ul (d : node) (candidates : list path) : option path :=
  match candidates with
  | [] => None
  | el :: rest =>
      match ul_near d el with
      | Some u => Some u
      | None => first_ul d rest
      end
  end.

(** [findUlForFilterTitle(root, titleText)]. *)
Definition findUlForFilterTitle (d : node) (root : path) (titleText : string) : option path :=
  let title := titleText in
  let candidates :=
    filter (fun el => norm (text_at d el) = title) (qsa d sel_title_candidates (Some root)) in
  first_ul d candidates.

(** [activeLabel(ul)]. *)
Definition activeLabel (d : node) (ul : path) : string :=
  match querySelector d (Some ul) sel_selected_link with
  | Some a => norm (text_at d a)
  | None => "Все"
  end.

(** The copy of one link put into the menu. *)
Definition menu_item (d : node) (a : path) : option node :=
  match get d a with
  | Some n => Some (classList_add "top-filter__item" (cloneNode n))
  | None => None
  end.

(** [makeDropdown(title, ul)]: the element built, and the listener added
    to the document. *)
Definition makeDropdown (title : string) (ul : path) : M node :=
  let! d := gets w_doc in
  let wrap := setAttribute "class" "top-filter" (createElement "span") in
  let btn := createElement "button" in
  let btn := setAttribute "type" "button" btn in
  let btn := setAttribute "class" "top-filter__btn" btn in
  let btn := set_textContent (title +:+ ": " +:+ activeLabel d ul) btn in
  let menu := setAttribute "class" "top-filter__menu" (createElement "div") in
  let menu := setAttribute "hidden" "" menu in
  let list := setAttribute "class" "top-filter__list" (createElement "div") in
  let list := foldl (fun l a => match menu_item d a with
                                | Some link => appendChild link l
                                | None => l
                                end) list (qsa d sel_a (Some ul)) in
  let menu := appendChild list menu in
  let btn := addEventListener "click" OnClickToggleMenu btn in
  do! modify (add_doc_listener "click" CbHideMenu) in
  let wrap := appendChild btn wrap in
  let wrap := appendChild menu wrap in
  ret wrap.

(** [#changelist .actions] *)
Definition sel_actions : selector := [ Complex (by_class "actions") [by_id "changelist"] ].

(** [parent.insertBefore(new, ref)] where [parent] is the parent node of
    the element at [p] and [ref] its child number [i + shift] with [i] the
    position of [p].  The parent of the root element is the document,
    which takes no second element.  The elements that follow the new node
    keep their data under their new paths. *)
Definition insert_beside (p : path) (shift : nat) (new : node) : M unit :=
  match rev p with
  | [] => throw HierarchyRequestError
  | i :: rp =>
      modify (fun w => relocate (shift_path (rev rp) (i + shift))
                         (set_doc (insert_child (w_doc w) (rev rp) (i + shift) new) w))
  end.

(** [if (ul) panel.appendChild(makeDropdown(title, ul))]. *)
Definition add_dropdown (title : string) (ul : option path) (panel : node) : M node :=
  match ul with
  | Some u => let! dd := makeDropdown title u in ret (appendChild dd panel)
  | None => ret panel
  end.

(** The end of [mountTopFilters], once a list has been found: the panel
    is built and inserted after the toolbar, or before the anchor when
    there is no toolbar. *)
Definition insert_panel (statusUl serviceUl toolbar : option path) (anchor : path) : M unit :=
  let panel := setAttribute "class" "top-filters" (createElement "div") in
  let! panel := add_dropdown "Статус" statusUl panel in
  let! panel := add_dropdown "Услуги" serviceUl panel in
  match toolbar with
  | Some t => insert_beside t 1 panel
  | None => insert_beside anchor 0 panel
  end.

(** [mountTopFilters()]. *)
Definition mountTopFilters : M unit :=
  let! d := gets w_doc in
  match qs d (only (by_id "changelist-filter")) None with
  | None => ret tt
  | Some filterRoot =>
      let toolbar := qs d (only (by_id "toolbar")) None in
      let anchor := match toolbar with
                    | Some t => Some t
                    | None => match qs d sel_actions None with
                              | Some a => Some a
                              | None => qs d (only (by_id "changelist")) None
                              end
                    end in
      match anchor with
      | None => ret tt
      | Some anchor =>
          match qs d (only (by_class "top-filters")) None with
          | Some _ => ret tt
          | None =>
              let statusUl := findUlForFilterTitle d filterRoot "Статус" in
              let serviceUl := findUlForFilterTitle d filterRoot "Услуги" in
              match statusUl, serviceUl with
              | None, None => ret tt
              | _, _ => insert_panel statusUl serviceUl toolbar anchor
              end
          end
      end
  end.

(** The listener of [DOMContentLoaded]. *)
Definition on_ready : M unit :=
  do! mountTopFilters in
  do! modify (add_timer 200 CbMountTopFilters) in
  modify (add_timer 800 CbMountTopFilters).

(** The body of the script. *)
Definition script : M unit :=
  modify (add_doc_listener "DOMContentLoaded" CbHeaderFiltersReady).

End StoreChangelistHeaderFilters.

(* ===================================================================== *)
(** * The script mounting the datalist of sources *)
(* ===================================================================== *)

Module SourceSuggestions.

(** [document.getElementById(id)]. *)
Definition getElementById (d : node) (id : string) : option path :=
  querySelector d None (only (by_id id)).

(** [input[list="source_suggestions"]] *)
Definition sel_input : selector :=
  only (Compound (Some "input") None [] [("list", AttrEquals, "source_suggestions")]).

(** The first [body] or [frameset] among the children [l], the first of
    which is child number [i]. *)
Fixpoint find_body (i : nat) (l : list node) : option path :=
  match l with
  | [] => None
  | k :: l' =>
      if bool_decide (tag_of k = Some "body") || bool_decide (tag_of k = Some "frameset")
      then Some [i] else find_body (S i) l'
  end.

(** [document.body]: the first child of the [html] element that is a
    [body] or a [frameset]. *)
Definition body (d : node) : option path :=
  if bool_decide (tag_of d = Some "html") then find_body 0 (children_of d) else None.

Definition options : list string :=
  ["HH.ru"; "Avito"; "Сайт"; "VK"; "Telegram"; "2ГИС"; "Рекомендация";
   "Холодный обзвон"; "Email-рассылка"].

Definition make_datalist : node :=
  let datalist := setAttribute "id" "source_suggestions" (createElement "datalist") in
  foldl (fun dl v => appendChild (setAttribute "value" v (createElement "option")) dl)
        datalist options.

(** The listener of [DOMContentLoaded]. *)
Definition on_ready : M unit :=
  let! d := gets w_doc in
  match getElementById d "source_suggestions" with
  | Some _ => ret tt
  | None =>
      match querySelector d None sel_input with
      | None => ret tt
      | Some _ =>
          let datalist := make_datalist in
          match body d with
          | Some b => modify (set_doc (append_at d b datalist))
          | None => throw TypeError
          end
      end
  end.

(** The body of the script. *)
Definition script : M unit :=
  modify (add_doc_listener "DOMContentLoaded" CbSourceSuggestionsReady).

End SourceSuggestions.

(* ===================================================================== *)
(** * A sample page *)
(* ===================================================================== *)

Module Sample.

Definition el (t : string) (a : list (string * string)) (ks : list node) : node :=
  Elem t a [] [] ks.

(** The link to the change form of the store 123. *)
Definition edit_link : node :=
  el "a" [("href", "/admin/app/store/123/change/")] [Text "Store"].

(** The hidden id field of the formset row. *)
Definition id_field (value : string) : node :=
  el "input" [("type", "hidden"); ("name", "form-0-id"); ("value", value)] [].

(** A changelist with one row: a first cell with the given content, and
    a cell with the autocomplete widget of the employee. *)
Definition row (first_cell : list node) : node :=
  el "tr" []
     [ el "td" [] first_cell;
       el "td" [("class", "admin-autocomplete")]
          [ el "select" [("name", "form-0-assigned_employee"); ("class", "admin-autocomplete")] [];
            el "input" [("class", "select2-hidden-accessible")] [] ] ].

Definition page (first_cell : list node) : node :=
  el "html" []
     [ el "body" []
          [ el "div" [("id", "changelist")]
               [ el "table" [] [ row first_cell ] ] ] ].

(** The widget of the row, the select and the input inside it. *)
Definition widget : path := [0; 0; 0; 0; 1].
Definition select : path := [0; 0; 0; 0; 1; 0].
Definition input : path := [0; 0; 0; 0; 1; 1].

(** A select2 instance whose [ajax.data] holds [data]. *)
Definition instance (data : dval) : ElemData :=
  MkElemData
    (Some (MkSelect2 (Some (MkOptions (Some (MkSettings (Some (MkAjax "/autocomplete/" data))))))))
    PUndefined.

Definition store (data : dval) : gmap path ElemData :=
  {[ select := instance data; input := instance data ]}.

(** The parameter object [{term: "ann"}] is object number 0. *)
Definition world_with (d : node) (st : gmap path ElemData) : world :=
  MkWorld (DjangoDeclared (Some true)) d
          (MkURL "/admin/app/store/" [("p", "3"); ("q", "x y"); ("service", "both")] "")
          st [ {[ "term" := PStr "ann" ]} ] [] 0 [] [] [].

(** A page whose row has the edit link and the id field, one with the
    edit link only and one with neither. *)
Definition w_full (data : dval) : world :=
  world_with (page [edit_link; id_field "123"]) (store data).
Definition w_link (data : dval) : world := world_with (page [edit_link]) (store data).

(** The same page loaded without django's scripts: no global [django]. *)
Definition w_no_django : world :=
  MkWorld DjangoUndeclared (page [edit_link; id_field "123"])
          (MkURL "/admin/app/store/" [("p", "3"); ("q", "x y"); ("service", "both")] "")
          ∅ [ {[ "term" := PStr "ann" ]} ] [] 0 [] [] [].

(** A changelist page with the search toolbar, the filter sidebar with
    the list of the filter "Статус", the table header of the services
    column and a text input bound to the suggestion list. *)
Definition admin_page : node :=
  el "html" []
     [ el "head" [] [];
       el "body" []
          [ el "div" [("id", "changelist")]
               [ el "div" [("id", "toolbar")] [ el "input" [("list", "source_suggestions")] [] ];
                 el "div" [("id", "changelist-filter")]
                    [ el "h2" [] [Text "Фильтр"];
                      el "h3" [] [Text " Статус "];
                      el "ul" []
                         [ el "li" [("class", "selected")] [ el "a" [("href", "?")] [Text "Все"] ];
                           el "li" [] [ el "a" [("href", "?status=new")] [Text "Новый"] ] ] ];
                 el "table" []
                    [ el "thead" []
                         [ el "tr" [] [ el "th" [("class", "column-services")] [Text "Услуги"] ] ];
                      row [edit_link; id_field "123"] ] ] ] ].

Definition w_admin : world := world_with admin_page ∅.

(** What django's own [ajax.data] does: it forwards [term] and [page]. *)
Definition django_data (_ : node) (params : jsobj) : jsobj :=
  let o := match params !! "term" with Some t => {[ "term" := t ]} | None => ∅ end in
  match params !! "page" with Some p => <[ "page" := p ]> o | None => o end.

(** A host function that sets [store_id] itself. *)
Definition own_store_id (_ : node) (params : jsobj) : jsobj :=
  <[ "store_id" := PStr "9" ]> params.

(** The widget is patched by [patchSelect2Ajax] and select2 then builds
    the parameters of one request from [{term: "ann"}]. *)
Definition by_service : M (option loc) :=
  do! StoreEmployeeAutocompleteByService.patchSelect2Ajax [input] in
  request_params input 0.


End Sample.

(* ===================================================================== *)
(** * Observations on worlds *)
(* ===================================================================== *)

Import StoreEmployeeAutocompleteByService.

(** The object a reference denotes. *)
Definition obj_at (w : world) (l : loc) : option jsobj := w_heap w !! l.

(** The value of a property of the object a reference denotes. *)
Definition prop_at (w : world) (l : loc) (key : string) : option pval :=
  obj_at w l ≫= (fun o => o !! key).

(** [w'] is [w] up to the heap and the count of host calls. *)
Definition same_page (w w' : world) : Prop :=
  w' = MkWorld (w_django w) (w_doc w) (w_url w) (w_data w) (w_heap w') (w_console w)
               (w_host_calls w') (w_doc_listeners w) (w_timers w) (w_navigations w).

(** The context value the wrapper of [patchSelect2Ajax] reads in a world. *)
Definition edit_link_id (w : world) (input : jq) : res (option string) :=
  getStoreIdFromRow (w_doc w) (JQuery.closest (w_doc w) sel_tr input).

(** The context value the wrapper of [patchEmployeeSelect2] reads. *)
Definition hidden_id (jQ : dollar) (w : world) (selectEl : path) : res pval :=
  StoreChangelistFilters.getStoreIdFromRow jQ (w_doc w) selectEl.

(** [data.store_id = v] as a change of the world. *)
Definition with_store_id (l : loc) (v : pval) (w : world) : world :=
  set_heap (alter (insert "store_id" v) l (w_heap w)) w.

(** What the wrapper of [patchSelect2Ajax] does after [data] is known. *)
Definition merge_edit_link_id (sid : option string) (l : loc) (w : world) : world :=
  match sid with
  | Some s => with_store_id l (PStr s) w
  | None => w
  end.

(** The select2 settings of the first element of a jQuery object, when the
    instance and its options are there. *)
Definition settings_of (w : world) (els : jq) : option Settings :=
  match d_select2 (JQuery.data_of (w_data w) els) with
  | Some (MkSelect2 (Some (MkOptions o))) => o
  | _ => None
  end.

(** Its [ajax] configuration. *)
Definition ajax_of (w : world) (els : jq) : option Ajax :=
  settings_of w els ≫= settings_ajax.




(** How many augmenting functions are stacked in a value of [ajax.data]. *)
Fixpoint fn_layers (f : fn) : nat :=
  match f with
  | Host _ => 0
  | AugmentedByEditLink old _ =>
      S (match old with DFunction g => fn_layers g | _ => 0 end)
  | AugmentedByHiddenId _ old _ =>
      S (match old with DFunction g => fn_layers g | _ => 0 end)
  end.

Definition layers (v : dval) : nat :=
  match v with
  | DFunction f => fn_layers f
  | _ => 0
  end.

(** [n] widget-open events on the same widget, as handled by
    [store_employee_autocomplete_by_service.js]. *)
Fixpoint open_times (n : nat) (widget : path) : M unit :=
  match n with
  | 0 => ret tt
  | S n' => do! on_opening widget in open_times n' widget
  end.

(** Induction over function values and the values they close over. *)
Scheme fn_mutind := Induction for fn Sort Prop
  with dval_mutind := Induction for dval Sort Prop.

(** ** The shape of a call

    A call of a function stored in [ajax.data] returns either a new object
    or an object that existed before, and the wrappers on the way only
    write [store_id] into that object.  The following functions read this
    off a function value without running it; they serve the proofs about
    repeated calls. *)

(** The object returned: a new one with the given content, or an old one. *)
Inductive target :=
| Fresh (o : jsobj)
| Existing (l : loc).

Fixpoint fn_target (f : fn) (d : node) (heap : list jsobj) (params : loc) : option target :=
  match f with
  | Host h => Some (Fresh (h d (default ∅ (heap !! params))))
  | AugmentedByEditLink old _ =>
      match old with
      | DFunction g => fn_target g d heap params
      | DUndefined | DNull => Some (Existing params)
      | DObject _ => None
      end
  | AugmentedByHiddenId _ old _ =>
      match old with
      | DFunction g => fn_target g d heap params
      | DObject l => Some (Existing l)
      | DUndefined | DNull => Some (Fresh ∅)
      end
  end.

(** The value of [store_id] written last, if any is written; [None] when
    the call throws. *)
Fixpoint fn_stamp (f : fn) (d : node) : option (option pval) :=
  match f with
  | Host _ => Some None
  | AugmentedByEditLink old input =>
      match match old with
            | DFunction g => fn_stamp g d
            | DUndefined | DNull => Some None
            | DObject _ => None
            end with
      | Some st =>
          match getStoreIdFromRow d (JQuery.closest d sel_tr input) with
          | Val (Some s) => Some (Some (PStr s))
          | Val None => Some st
          | Err _ => None
          end
      | None => None
      end
  | AugmentedByHiddenId jQ old selectEl =>
      match match old with
            | DFunction g => fn_stamp g d
            | DUndefined | DNull | DObject _ => Some None
            end with
      | Some _ =>
          match StoreChangelistFilters.getStoreIdFromRow jQ d selectEl with
          | Val v => Some (Some v)
          | Err _ => None
          end
      | None => None
      end
  end.

(** The number of host functions a call reaches. *)
Fixpoint fn_hosts (f : fn) : nat :=
  match f with
  | Host _ => 1
  | AugmentedByEditLink old _ => match old with DFunction g => fn_hosts g | _ => 0 end
  | AugmentedByHiddenId _ old _ => match old with DFunction g => fn_hosts g | _ => 0 end
  end.

Definition stamp (st : option pval) (o : jsobj) : jsobj :=
  match st with
  | Some v => <[ "store_id" := v ]> o
  | None => o
  end.

Definition stamp_at (st : option pval) (l : loc) (heap : list jsobj) : list jsobj :=
  match st with
  | Some v => alter (insert "store_id" v) l heap
  | None => heap
  end.

(** The reference returned and the heap left by a call of the given
    shape. *)
Definition place (t : target) (st : option pval) (heap : list jsobj) : loc * list jsobj :=
  match t with
  | Fresh o => (length heap, stamp_at st (length heap) (heap ++ [o]))
  | Existing l => (l, stamp_at st l heap)
  end.

(** The world left by a call: the page is the same, the heap is the given
    one and the host calls are counted. *)
Definition world_after (n : nat) (heap : list jsobj) (w : world) : world :=
  MkWorld (w_django w) (w_doc w) (w_url w) (w_data w) heap (w_console w)
          (n + w_host_calls w) (w_doc_listeners w) (w_timers w) (w_navigations w).

(** The matches of a one-compound selector inside the children [l], the
    first of which is child number [i]. *)
Fixpoint qsa_kids (c : compound) (i : nat) (l : list node) : list path :=
  match l with
  | [] => []
  | k :: l' => map (cons i) (doc_qsa k (only c)) ++ qsa_kids c (S i) l'
  end.

(** [.top-filters] *)
Definition sel_top_filters : selector := only (by_class "top-filters").

(** The document after a run is the document before it, or that document
    with one node inserted. *)
Definition at_most_one_insertion (d d' : node) : Prop :=
  d' = d ∨ ∃ pp i new, d' = insert_child d pp i new.

(* ===================================================================== *)
(** * Further observations *)
(* ===================================================================== *)

(** ** Strings *)

(** Every character of [s] satisfies [P]. *)
Fixpoint string_forall (P : ascii → bool) (s : string) : bool :=
  match s with
  | EmptyString => true
  | String c s' => P c && string_forall P s'
  end.

(** Every character of [s] is a digit. *)
Definition all_digits (s : string) : bool := string_forall Str.is_digit s.

(** A continuation byte of UTF-8. *)
Definition is_continuation (c : ascii) : bool :=
  (128 <=? N_of_ascii c)%N && (N_of_ascii c <? 192)%N.

(** The encoding of one character: a byte that is no continuation byte,
    followed by continuation bytes. *)
Definition is_encoding (c : string) : bool :=
  match c with
  | EmptyString => false
  | String a t => negb (is_continuation a) && string_forall is_continuation t
  end.

(** [s] does not go on with a character begun before it. *)
Definition at_boundary (s : string) : bool :=
  match s with
  | EmptyString => true
  | String a _ => negb (is_continuation a)
  end.

(** No separator of [seps] starts at a byte of [s] in [s +:+ ctx]. *)
Fixpoint no_sep (seps : list string) (s ctx : string) : bool :=
  match s with
  | EmptyString => true
  | String a s' => Nat.eqb (Str.sep_len seps (s +:+ ctx)) 0 && no_sep seps s' ctx
  end.

(** [w] is a word: it is not empty and holds no separator. *)
Definition is_token (seps : list string) (w : string) : bool :=
  negb (Str.is_empty w) && no_sep seps w "".

(** A string made of separators only. *)
Inductive run_of (seps : list string) : string → Prop :=
| run_nil : run_of seps ""
| run_cons c s : c ∈ seps → run_of seps s → run_of seps (c +:+ s).

(** ** jQuery data *)

(** The select2 instance whose [ajax] is the given one. *)
Definition instance_with (aj : Ajax) : Select2 :=
  MkSelect2 (Some (MkOptions (Some (MkSettings (Some aj))))).

(** The marker [patchedStoreId] of the first element of a jQuery object. *)
Definition marker_of (w : world) (els : jq) : pval :=
  d_patchedStoreId (JQuery.data_of (w_data w) els).

(** [w'] is [w] up to the jQuery data. *)
Definition same_but_data (w w' : world) : Prop := w' = set_data (w_data w') w.

(** The jQuery data of a select after [patchEmployeeSelect2] has wrapped
    the function of [aj]. *)
Definition patched_employee (aj : Ajax) (el : path) : ElemData :=
  MkElemData
    (Some (instance_with
             (MkAjax (ajax_url aj)
                     (DFunction (AugmentedByHiddenId DollarJQuery (ajax_data aj) el)))))
    (PBool true).

(** ** Requests and repeated openings *)

(** [n + 1] wrappers of [patchSelect2Ajax] stacked on [old]. *)
Fixpoint stacked (n : nat) (old : dval) (input : jq) : fn :=
  match n with
  | 0 => AugmentedByEditLink old input
  | S n' => AugmentedByEditLink (DFunction (stacked n' old input)) input
  end.

(** [n] widget-open events on the same select, as handled by
    [store_changelist_filters.js]. *)
Fixpoint open_times_employee (jQ : dollar) (n : nat) (this : path) : M unit :=
  match n with
  | 0 => ret tt
  | S n' => do! StoreChangelistFilters.on_opening jQ this in open_times_employee jQ n' this
  end.

(** What [request_params] makes of the outcome of the call. *)
Definition as_request (o : outcome loc) : outcome (option loc) :=
  match o with
  | Return l w => Return (Some l) w
  | Throw e w => Throw e w
  end.

(** ** Query parameters *)

(** The pairs named [name], in their order. *)
Definition named (name : string) (l : URLSearchParams) : URLSearchParams :=
  filter (fun kv => kv.1 = name) l.

(** ** Nodes *)

(** The [value] attributes of the children of a node, in their order. *)
Definition child_values (n : node) : list string :=
  omap (getAttribute "value") (children_of n).

Definition props_of (n : node) : list string :=
  match n with
  | Text _ => []
  | Elem _ _ ps _ _ => ps
  end.

Definition listeners_of (n : node) : list (string * listener) :=
  match n with
  | Text _ => []
  | Elem _ _ _ ls _ => ls
  end.

(** The values of the options of a select that are selected. *)
Definition selected_values (n : node) : list string :=
  omap (fun o => if bool_decide ("selected" ∈ props_of o) then getAttribute "value" o else None)
       (children_of n).

(** The element [mountTopFilters] inserts the panel before, when the
    document has no [#toolbar]. *)
Definition fallback_anchor (d : node) : option path :=
  match StoreChangelistHeaderFilters.qs d StoreChangelistHeaderFilters.sel_actions None with
  | Some a => Some a
  | None => StoreChangelistHeaderFilters.qs d (only (by_id "changelist")) None
  end.

(** ** Further sample pages *)

(** A hidden id field as a page may write it: the type in upper case and
    a carriage return inside the value. *)
Definition id_field_as_written : node :=
  Sample.el "input"
    [ ("type", "HIDDEN"); ("name", "form-0-id");
      ("value", String "1" (String "2" (String "013" "3"))) ] [].

(** A document whose root element is the toolbar. *)
Definition toolbar_root_page : node :=
  Sample.el "div" [("id", "toolbar")]
    [ Sample.el "div" [("id", "changelist-filter")]
        [ Sample.el "h3" [] [Text "Статус"];
          Sample.el "ul" []
            [ Sample.el "li" [] [ Sample.el "a" [("href", "?status=new")] [Text "Новый"] ] ] ] ].

(** The sample changelist with the select2 instance of the employee
    select of its row. *)
Definition w_admin_with_widget : world :=
  Sample.world_with Sample.admin_page {[ [1; 0; 2; 1; 1; 0] := Sample.instance DUndefined ]}.

(** The select is patched, the panel of the top filters is mounted, which
    moves the table one place down, and select2 then builds the
    parameters of one request of the select. *)
Definition patch_mount_request : M (option loc) :=
  do! StoreChangelistFilters.patchEmployeeSelect2 DollarJQuery [1; 0; 2; 1; 1; 0] in
  do! StoreChangelistHeaderFilters.mountTopFilters in
  request_params [1; 0; 3; 1; 1; 0] 0.

(** The sample changelist loaded again after the service filter [v] has
    been chosen. *)
Definition w_admin_after (v : string) : world :=
  MkWorld (DjangoDeclared (Some true)) Sample.admin_page
          (MkURL "/admin/app/store/"
                 (StoreChangelistFilters.updated_params "service" v (w_url Sample.w_admin)) "")
          ∅ [] [] 0 [] [] [].

(* ===================================================================== *)
(** * Reasoning about computations *)
(* ===================================================================== *)

Lemma bind_Return {A B} (m : M A) (k : A → M B) w b w' :
  bind m k w = Return b w' → ∃ a w1, m w = Return a w1 ∧ k a w1 = Return b w'.
Proof.
  unfold bind. destruct (m w) as [a w1|e w1]; [eauto | discriminate].
Qed.

Lemma lift_Return {A} (r : res A) w a w' :
  lift r w = Return a w' → r = Val a ∧ w' = w.
Proof.
  destruct r; simpl; unfold ret, throw; intros H; inversion H; auto.
Qed.

Lemma set_property_Return l key v w :
  set_property l key v w = Return tt (set_heap (alter (insert key v) l (w_heap w)) w).
Proof. reflexivity. Qed.

Lemma prop_at_set_heap_alter_eq w l key v :
  is_Some (obj_at w l) →
  prop_at (set_heap (alter (insert key v) l (w_heap w)) w) l key = Some v.
Proof.
  intros [o Ho]. unfold prop_at, obj_at in *. simpl.
  rewrite list_lookup_alter_eq, Ho. simpl. by rewrite lookup_insert_eq.
Qed.

Lemma prop_at_set_heap_alter_ne w l key v key' :
  key ≠ key' →
  prop_at (set_heap (alter (insert key v) l (w_heap w)) w) l key' = prop_at w l key'.
Proof.
  intros Hne. unfold prop_at, obj_at. simpl.
  rewrite list_lookup_alter_eq. destruct (w_heap w !! l) as [o|]; simpl; [|done].
  by rewrite lookup_insert_ne.
Qed.

Lemma obj_at_set_heap_alter_other w l l' f :
  l ≠ l' → obj_at (set_heap (alter f l (w_heap w)) w) l' = obj_at w l'.
Proof.
  intros Hne. unfold obj_at. simpl. by rewrite list_lookup_alter_ne.
Qed.

(** ** What a call can change *)

Lemma same_page_refl w : same_page w w.
Proof. by destruct w. Qed.

Lemma same_page_trans w1 w2 w3 : same_page w1 w2 → same_page w2 w3 → same_page w1 w3.
Proof.
  unfold same_page. intros H12 H23. rewrite H23. rewrite H12. simpl. reflexivity.
Qed.

Lemma same_page_doc w w' : same_page w w' → w_doc w' = w_doc w.
Proof. intros ->. reflexivity. Qed.

Lemma same_page_set_heap w h : same_page w (set_heap h w).
Proof. reflexivity. Qed.

Lemma same_page_count w : same_page w (count_host_call w).
Proof. reflexivity. Qed.

Create HintDb page.
Local Hint Resolve same_page_refl same_page_set_heap same_page_count : page.

Lemma bind_final_same_page {A B} (m : M A) (k : A → M B) w :
  same_page w (final (m w)) →
  (∀ a w1, m w = Return a w1 → same_page w1 (final (k a w1))) →
  same_page w (final (bind m k w)).
Proof.
  intros Hm Hk. unfold bind. destruct (m w) as [a w1|e w1] eqn:E; simpl in *; [|done].
  eapply same_page_trans; [exact Hm | by apply Hk].
Qed.

Lemma lift_same_page {A} (r : res A) w : same_page w (final (lift r w)).
Proof. destruct r; simpl; auto with page. Qed.

Lemma new_object_same_page o w : same_page w (final (new_object o w)).
Proof. simpl. auto with page. Qed.

Lemma call_host_same_page h params w : same_page w (final (call_host h params w)).
Proof. reflexivity. Qed.

Lemma call_fn_same_page f : ∀ params w, same_page w (final (call_fn f params w)).
Proof.
  induction f using fn_mutind with
    (P0 := fun v => ∀ g, v = DFunction g → ∀ params w, same_page w (final (call_fn g params w)));
    try discriminate.
  - intros params w. apply call_host_same_page.
  - intros params w. simpl.
    unfold StoreEmployeeAutocompleteByService.augmented.
    apply bind_final_same_page.
    + unfold StoreEmployeeAutocompleteByService.initial_data.
      destruct oldData; simpl; auto with page.
    + intros data w1 _. apply bind_final_same_page; [simpl; auto with page|].
      intros d w2 Hd. inversion Hd; subst.
      apply bind_final_same_page; [apply lift_same_page|].
      intros sid w3 Hs. apply lift_Return in Hs as [_ ->].
      apply bind_final_same_page; [|intros; simpl; auto with page].
      destruct sid as [s|]; [|simpl; auto with page].
      destruct (StoreEmployeeAutocompleteByService.storeId_truthy (Some s)); simpl; auto with page.
  - intros params w. simpl.
    unfold StoreChangelistFilters.augmented.
    apply bind_final_same_page.
    + unfold StoreChangelistFilters.initial_data.
      destruct oldData; simpl; auto with page.
    + intros data w1 _. apply bind_final_same_page; [simpl; auto with page|].
      intros d w2 Hd. inversion Hd; subst.
      apply bind_final_same_page; [apply lift_same_page|].
      intros sid w3 Hs. apply lift_Return in Hs as [_ ->].
      apply bind_final_same_page; [|intros; simpl; auto with page].
      simpl. auto with page.
  - intros g Hg. inversion Hg; subst. exact IHf.
Qed.

Lemma call_fn_Return_same_page f params w l w' :
  call_fn f params w = Return l w' → same_page w w'.
Proof.
  intros H. pose proof (call_fn_same_page f params w) as Hp. by rewrite H in Hp.
Qed.

(** ** The extraction from the edit link never throws *)

Lemma rev_app_nonempty s acc : Str.is_empty acc = false → Str.is_empty (String.rev_app s acc) = false.
Proof.
  revert acc. induction s as [|a s IH]; intros acc Hacc; simpl; [done|].
  by apply IH.
Qed.

Lemma match_change_id_nonempty href s : match_change_id href = Some s → Str.is_empty s = false.
Proof.
  unfold match_change_id.
  destruct (Str.strip_prefix _ _) as [r'|]; [|discriminate].
  destruct (Str.span_digits r') as [ds rest].
  destruct ds as [|c ds]; simpl; [discriminate|].
  destruct rest as [|a rest]; [discriminate|].
  destruct (decide (a = "/"%char)) as [->|Hne].
  - intros [= <-]. unfold String.rev. simpl. by apply rev_app_nonempty.
  - destruct a as [[] [] [] [] [] [] [] []]; try discriminate. by destruct Hne.
Qed.

Lemma storeId_truthy_match href s : match_change_id href = Some s → storeId_truthy (Some s) = true.
Proof.
  intros H. simpl. by rewrite (match_change_id_nonempty _ _ H).
Qed.

Lemma matches_edit_link_href d p :
  matches d sel_edit_link p = true →
  ∃ n href, get d p = Some n ∧ getAttribute "href" n = Some href.
Proof.
  unfold matches. destruct (get d p) as [n|]; [|discriminate].
  simpl. intros H.
  apply orb_true_iff in H as [H|]; [|discriminate].
  apply andb_true_iff in H as [H _].
  unfold matches_compound in H. simpl in H.
  destruct (getAttribute "href" n) as [href|] eqn:E.
  - by exists n, href.
  - rewrite andb_false_r in H. discriminate.
Qed.

Lemma getStoreIdFromRow_cases d row :
  getStoreIdFromRow d row = Val None ∨
  ∃ href, getStoreIdFromRow d row = Val (match_change_id href).
Proof.
  unfold getStoreIdFromRow.
  destruct (JQuery.find d sel_edit_link row) as [|p rest] eqn:E; [by left|].
  right. simpl.
  assert (p ∈ JQuery.find d sel_edit_link row) as Hp by (rewrite E; left).
  unfold JQuery.find in Hp. apply list_elem_of_filter in Hp as [_ Hp].
  unfold doc_qsa in Hp. apply list_elem_of_filter in Hp as [Hm _].
  apply matches_edit_link_href in Hm as (n & href & Hn & Hh).
  exists href. by rewrite Hn, Hh.
Qed.

(** The row extraction yields [null] or a non-empty string. *)
Lemma getStoreIdFromRow_total d row :
  ∃ sid, getStoreIdFromRow d row = Val sid ∧
         match sid with Some s => storeId_truthy sid = true | None => True end.
Proof.
  destruct (getStoreIdFromRow_cases d row) as [H|[href H]].
  - exists None. by rewrite H.
  - exists (match_change_id href). split; [done|].
    destruct (match_change_id href) as [s|] eqn:E; [|done].
    by eapply storeId_truthy_match.
Qed.

Lemma initial_data_A_same_page old params w l w1 :
  initial_data call_fn old params w = Return l w1 → same_page w w1.
Proof.
  unfold initial_data. destruct old; simpl; try discriminate.
  - intros [= <- <-]. apply same_page_refl.
  - intros [= <- <-]. apply same_page_refl.
  - apply call_fn_Return_same_page.
Qed.

Lemma initial_data_B_same_page old params w l w1 :
  StoreChangelistFilters.initial_data call_fn old params w = Return l w1 → same_page w w1.
Proof.
  unfold StoreChangelistFilters.initial_data. destruct old; simpl.
  - intros [= <- <-]. apply same_page_set_heap.
  - intros [= <- <-]. apply same_page_set_heap.
  - intros [= <- <-]. apply same_page_refl.
  - apply call_fn_Return_same_page.
Qed.

(** One call of the wrapper of [patchSelect2Ajax], step by step. *)
Lemma call_edit_link_Return old input params w l w' :
  call_fn (AugmentedByEditLink old input) params w = Return l w' ↔
  ∃ w1 sid, initial_data call_fn old params w = Return l w1
            ∧ edit_link_id w input = Val sid
            ∧ w' = merge_edit_link_id sid l w1.
Proof.
  simpl. unfold augmented, bind, edit_link_id. split.
  - destruct (initial_data call_fn old params w) as [data w1|] eqn:E0; [|discriminate].
    pose proof (same_page_doc _ _ (initial_data_A_same_page _ _ _ _ _ E0)) as Hdoc.
    simpl. rewrite Hdoc.
    destruct (getStoreIdFromRow_total (w_doc w) (JQuery.closest (w_doc w) sel_tr input))
      as (sid & Hsid & Htr).
    rewrite Hsid. simpl.
    destruct sid as [s|]; [rewrite Htr|]; simpl; intros [= <- <-]; eauto.
  - intros (w1 & sid & E0 & Hsid & ->). rewrite E0.
    pose proof (same_page_doc _ _ (initial_data_A_same_page _ _ _ _ _ E0)) as Hdoc.
    simpl. rewrite Hdoc, Hsid. simpl.
    destruct (getStoreIdFromRow_total (w_doc w) (JQuery.closest (w_doc w) sel_tr input))
      as (sid' & Hsid' & Htr).
    rewrite Hsid in Hsid'. injection Hsid' as <-.
    destruct sid as [s|]; [rewrite Htr|]; reflexivity.
Qed.

(** One call of the wrapper of [patchEmployeeSelect2], step by step. *)
Lemma call_hidden_id_Return jQ old selectEl params w l w' :
  call_fn (AugmentedByHiddenId jQ old selectEl) params w = Return l w' ↔
  ∃ w1 v, StoreChangelistFilters.initial_data call_fn old params w = Return l w1
          ∧ hidden_id jQ w selectEl = Val v
          ∧ w' = with_store_id l v w1.
Proof.
  simpl. unfold StoreChangelistFilters.augmented, bind, hidden_id. split.
  - destruct (StoreChangelistFilters.initial_data call_fn old params w) as [data w1|] eqn:E0;
      [|discriminate].
    pose proof (same_page_doc _ _ (initial_data_B_same_page _ _ _ _ _ E0)) as Hdoc.
    simpl. rewrite Hdoc.
    destruct (StoreChangelistFilters.getStoreIdFromRow jQ (w_doc w) selectEl) as [v|e];
      simpl; [|discriminate].
    intros [= <- <-]. eauto.
  - intros (w1 & v & E0 & Hv & ->). rewrite E0.
    pose proof (same_page_doc _ _ (initial_data_B_same_page _ _ _ _ _ E0)) as Hdoc.
    simpl. rewrite Hdoc, Hv. reflexivity.
Qed.

(** ** Heap facts *)



Lemma prop_at_with_store_id_other l v w key :
  key ≠ "store_id" → prop_at (with_store_id l v w) l key = prop_at w l key.
Proof. intros H. apply prop_at_set_heap_alter_ne. congruence. Qed.

Lemma prop_at_with_store_id l v w :
  is_Some (obj_at w l) → prop_at (with_store_id l v w) l "store_id" = Some v.
Proof. apply prop_at_set_heap_alter_eq. Qed.

Lemma obj_at_with_store_id_other l l' v w :
  l ≠ l' → obj_at (with_store_id l v w) l' = obj_at w l'.
Proof. apply obj_at_set_heap_alter_other. Qed.


Lemma prop_at_merge_other sid l w key :
  key ≠ "store_id" → prop_at (merge_edit_link_id sid l w) l key = prop_at w l key.
Proof. destruct sid; simpl; [apply prop_at_with_store_id_other | done]. Qed.

Lemma obj_at_merge_other sid l l' w :
  l ≠ l' → obj_at (merge_edit_link_id sid l w) l' = obj_at w l'.
Proof. destruct sid; simpl; [apply obj_at_with_store_id_other | done]. Qed.

Lemma hidden_id_total w selectEl : ∃ v, hidden_id DollarJQuery w selectEl = Val v.
Proof.
  unfold hidden_id, StoreChangelistFilters.getStoreIdFromRow. simpl.
  case_bool_decide; [eauto|]. destruct (JQuery.val _ _); eauto.
Qed.


Lemma edit_link_id_total w input :
  ∃ sid, edit_link_id w input = Val sid.
Proof.
  destruct (getStoreIdFromRow_total (w_doc w) (JQuery.closest (w_doc w) sel_tr input))
    as (sid & H & _). eauto.
Qed.





(* ===================================================================== *)
(** * The augmented parameter function *)
(* ===================================================================== *)








(** C5, as stated, fails when the base function itself produces
    [store_id]: its entry [store_id: "9"] is not in the output of the
    augmented function, which holds [store_id: "123"]. *)
Lemma base_store_id_replaced :
  returned (call_fn (Host Sample.own_store_id) 0 (Sample.w_link DUndefined)) = Some 1
  ∧ prop_at (final (call_fn (Host Sample.own_store_id) 0 (Sample.w_link DUndefined)))
            1 "store_id" = Some (PStr "9")
  ∧ returned (Sample.by_service (Sample.w_link (DFunction (Host Sample.own_store_id))))
    = Some (Some 1)
  ∧ prop_at (final (Sample.by_service (Sample.w_link (DFunction (Host Sample.own_store_id)))))
            1 "store_id" = Some (PStr "123").
Proof. vm_compute. auto. Qed.

(** C5 (amended): when the base function is present and returns, the
    augmented function returns the object the base function returned;
    every entry of it under a key other than [store_id] is as the base
    function left it, no other object is touched, and [store_id] is set to
    the contextual value, replacing a [store_id] the base function
    produced ([patchSelect2Ajax] leaves the object as it is when the
    extraction yields [null]). *)
Theorem base_entries_kept (w : world) (g : fn) (params l : loc) (w1 : world) :
  call_fn g params w = Return l w1 →
  (∀ input, ∃ w2,
      call_fn (AugmentedByEditLink (DFunction g) input) params w = Return l w2
      ∧ (∀ key, key ≠ "store_id" → prop_at w2 l key = prop_at w1 l key)
      ∧ (∀ l', l' ≠ l → obj_at w2 l' = obj_at w1 l')
      ∧ (∀ s, edit_link_id w input = Val (Some s) → is_Some (obj_at w1 l) →
           prop_at w2 l "store_id" = Some (PStr s))
      ∧ (edit_link_id w input = Val None → w2 = w1))
  ∧ (∀ selectEl, ∃ w2 v,
      call_fn (AugmentedByHiddenId DollarJQuery (DFunction g) selectEl) params w = Return l w2
      ∧ hidden_id DollarJQuery w selectEl = Val v
      ∧ (∀ key, key ≠ "store_id" → prop_at w2 l key = prop_at w1 l key)
      ∧ (∀ l', l' ≠ l → obj_at w2 l' = obj_at w1 l')
      ∧ (is_Some (obj_at w1 l) → prop_at w2 l "store_id" = Some v)).
Proof.
  intros Hbase. split.
  - intros input. destruct (edit_link_id_total w input) as [sid Hsid].
    exists (merge_edit_link_id sid l w1). split; [|split; [|split; [|split]]].
    + apply call_edit_link_Return. by exists w1, sid.
    + intros key Hkey. by apply prop_at_merge_other.
    + intros l' Hl'. by apply obj_at_merge_other.
    + intros s Hs Hlive. rewrite Hsid in Hs. injection Hs as ->.
      by apply prop_at_with_store_id.
    + intros Hnone. rewrite Hsid in Hnone. by injection Hnone as ->.
  - intros selectEl. destruct (hidden_id_total w selectEl) as [v Hv].
    exists (with_store_id l v w1), v. split; [|split; [|split; [|split]]].
    + apply call_hidden_id_Return. by exists w1, v.
    + done.
    + intros key Hkey. by apply prop_at_with_store_id_other.
    + intros l' Hl'. by apply obj_at_with_store_id_other.
    + apply prop_at_with_store_id.
Qed.

Lemma base_entries_kept_witness :
  (∃ w2,
      call_fn (AugmentedByEditLink (DFunction (Host Sample.django_data)) [Sample.input]) 0
              (Sample.w_link DUndefined) = Return 1 w2
      ∧ (∀ key, key ≠ "store_id" →
           prop_at w2 1 key
           = prop_at (final (call_fn (Host Sample.django_data) 0 (Sample.w_link DUndefined))) 1 key)
      ∧ (∀ l', l' ≠ 1 →
           obj_at w2 l'
           = obj_at (final (call_fn (Host Sample.django_data) 0 (Sample.w_link DUndefined))) l')
      ∧ (∀ s, edit_link_id (Sample.w_link DUndefined) [Sample.input] = Val (Some s) →
           is_Some (obj_at (final (call_fn (Host Sample.django_data) 0
                                           (Sample.w_link DUndefined))) 1) →
           prop_at w2 1 "store_id" = Some (PStr s))
      ∧ (edit_link_id (Sample.w_link DUndefined) [Sample.input] = Val None →
           w2 = final (call_fn (Host Sample.django_data) 0 (Sample.w_link DUndefined))))
  ∧ call_fn (Host Sample.django_data) 0 (Sample.w_link DUndefined)
    = Return 1 (final (call_fn (Host Sample.django_data) 0 (Sample.w_link DUndefined))).
Proof.
  split; [|reflexivity].
  apply (base_entries_kept (Sample.w_link DUndefined) (Host Sample.django_data) 0 1
           (final (call_fn (Host Sample.django_data) 0 (Sample.w_link DUndefined)))).
  reflexivity.
Defined.

(* ===================================================================== *)
(** * Patching *)
(* ===================================================================== *)

Lemma settings_of_cons w e rest o :
  settings_of w (e :: rest) = Some o →
  ∃ marker, w_data w !! e = Some (MkElemData (Some (MkSelect2 (Some (MkOptions (Some o))))) marker).
Proof.
  unfold settings_of. simpl.
  destruct (w_data w !! e) as [[s2 marker]|]; simpl; [|discriminate].
  destruct s2 as [[[[[o'|]]|]]|]; simpl; try discriminate.
  intros [= <-]. eauto.
Qed.

Lemma ajax_of_nonempty w els aj : ajax_of w els = Some aj → ∃ e rest, els = e :: rest.
Proof.
  destruct els as [|e rest]; [discriminate|eauto].
Qed.

(** What one run of [patchSelect2Ajax] does to a widget with an [ajax]
    configuration. *)
Lemma patchSelect2Ajax_patches w input aj :
  ajax_of w input = Some aj →
  ∃ w1, patchSelect2Ajax input w = Return tt w1
        ∧ w_doc w1 = w_doc w
        ∧ ajax_of w1 input
          = Some (MkAjax (ajax_url aj) (DFunction (AugmentedByEditLink (ajax_data aj) input))).
Proof.
  intros Haj. destruct (ajax_of_nonempty _ _ _ Haj) as (e & rest & ->).
  unfold ajax_of in Haj. destruct (settings_of w (e :: rest)) as [o|] eqn:Ho; [|discriminate].
  destruct (settings_of_cons _ _ _ _ Ho) as [marker He].
  destruct o as [[aj'|]]; simpl in Haj; [|discriminate]. injection Haj as ->.
  unfold patchSelect2Ajax, bind, gets. simpl. rewrite He. simpl.
  eexists. split; [reflexivity|]. split; [reflexivity|].
  unfold ajax_of, settings_of. simpl. by rewrite lookup_insert_eq.
Qed.

Lemma on_opening_patches w widget input :
  JQuery.find (w_doc w) sel_hidden_input [widget] = input →
  input ≠ [] →
  on_opening widget w = patchSelect2Ajax input w.
Proof.
  intros Hfind Hne. unfold on_opening, bind, gets. simpl. rewrite Hfind.
  destruct input; [done|]. reflexivity.
Qed.

(** C1 fails for [patchSelect2Ajax], which has no patch guard: every
    widget-open event stacks one more wrapping function on [ajax.data].
    After [n] events on a widget that has an [ajax] configuration, [n]
    wrappers are stacked on what [ajax.data] held. *)
Theorem opening_stacks_wrappers (n : nat) (w : world) (widget : path) (input : jq) (aj : Ajax) :
  JQuery.find (w_doc w) sel_hidden_input [widget] = input →
  ajax_of w input = Some aj →
  ∃ w' aj',
    open_times n widget w = Return tt w'
    ∧ ajax_of w' input = Some aj'
    ∧ layers (ajax_data aj') = n + layers (ajax_data aj).
Proof.
  revert w aj. induction n as [|n IH]; intros w aj Hfind Haj.
  - exists w, aj. by repeat split.
  - destruct (ajax_of_nonempty _ _ _ Haj) as (e & rest & Hin).
    destruct (patchSelect2Ajax_patches w input aj Haj) as (w1 & Hpatch & Hdoc & Haj1).
    assert (on_opening widget w = Return tt w1) as Hopen.
    { rewrite (on_opening_patches w widget input Hfind); [done | by rewrite Hin]. }
    destruct (IH w1 _ ltac:(by rewrite Hdoc) Haj1) as (w' & aj' & Hrun & Haj' & Hlayers).
    exists w', aj'. split; [|split; [done|]].
    + simpl. unfold bind. by rewrite Hopen.
    + rewrite Hlayers. simpl. destruct (ajax_data aj); simpl; lia.
Qed.

Lemma opening_stacks_wrappers_witness :
  ∃ w' aj',
    open_times 2 Sample.widget (Sample.w_link (DFunction (Host Sample.django_data)))
    = Return tt w'
    ∧ ajax_of w' [Sample.input] = Some aj'
    ∧ layers (ajax_data aj') = 2 + layers (DFunction (Host Sample.django_data)).
Proof.
  apply (opening_stacks_wrappers 2 (Sample.w_link (DFunction (Host Sample.django_data)))
           Sample.widget [Sample.input]
           (MkAjax "/autocomplete/" (DFunction (Host Sample.django_data)))).
  - vm_compute. reflexivity.
  - vm_compute. reflexivity.
Defined.

(** [patchEmployeeSelect2] has the guard: a second run changes nothing. *)
Lemma patchEmployeeSelect2_idempotent jQ selectEl w w1 :
  StoreChangelistFilters.patchEmployeeSelect2 jQ selectEl w = Return tt w1 →
  StoreChangelistFilters.patchEmployeeSelect2 jQ selectEl w1 = Return tt w1.
Proof.
  unfold StoreChangelistFilters.patchEmployeeSelect2, bind, gets.
  destruct jQ; simpl; try done.
  destruct (w_data w !! selectEl) as [[s2 marker]|] eqn:He; simpl.
  - destruct (truthy marker) eqn:Hm.
    { intros [= <-]. rewrite He. simpl. by rewrite Hm. }
    destruct s2 as [[[[[[[[url data]|]]|]]|]]|]; simpl; try discriminate;
      try (intros [= <-]; rewrite He; simpl; by rewrite Hm).
    intros [= <-]. simpl. by rewrite lookup_insert_eq.
  - intros [= <-]. by rewrite He.
Qed.

(** A call of whatever is stored in [ajax.data] calls at most one host
    function, once. *)
Lemma host_called_at_most_once f :
  ∀ params w, w_host_calls (final (call_fn f params w)) ≤ S (w_host_calls w).
Proof.
  induction f using fn_mutind with
    (P0 := fun v => ∀ g, v = DFunction g →
             ∀ params w, w_host_calls (final (call_fn g params w)) ≤ S (w_host_calls w));
    try discriminate.
  - intros params w. simpl. lia.
  - intros params w. simpl. unfold augmented, bind.
    destruct (initial_data call_fn oldData params w) as [data w1|e w1] eqn:E0.
    + assert (w_host_calls w1 ≤ S (w_host_calls w)) as Hle.
      { unfold initial_data in E0. destruct oldData; simpl in E0; try discriminate.
        - injection E0 as <- <-. lia.
        - injection E0 as <- <-. lia.
        - specialize (IHf f eq_refl params w). by rewrite E0 in IHf. }
      simpl. destruct (getStoreIdFromRow _ _) as [[s|]|]; simpl; try done.
      destruct (negb (Str.is_empty s)); simpl; done.
    + simpl. unfold initial_data in E0. destruct oldData; simpl in E0; try discriminate.
      * injection E0 as <- <-. lia.
      * specialize (IHf f eq_refl params w). by rewrite E0 in IHf.
  - intros params w. simpl. unfold StoreChangelistFilters.augmented, bind.
    destruct (StoreChangelistFilters.initial_data call_fn oldData params w)
      as [data w1|e w1] eqn:E0.
    + assert (w_host_calls w1 ≤ S (w_host_calls w)) as Hle.
      { destruct oldData; simpl in E0; try discriminate.
        - injection E0 as <- <-. simpl. lia.
        - injection E0 as <- <-. simpl. lia.
        - injection E0 as <- <-. lia.
        - specialize (IHf f eq_refl params w). by rewrite E0 in IHf. }
      simpl. destruct (StoreChangelistFilters.getStoreIdFromRow _ _ _); simpl; done.
    + simpl. destruct oldData; simpl in E0; try discriminate.
      specialize (IHf f eq_refl params w). by rewrite E0 in IHf.
  - intros g [= <-]. exact IHf.
Qed.



(* ===================================================================== *)
(** * Missing preconditions *)
(* ===================================================================== *)

(** The brackets of [store_changelist_filters.js] do not nest: the
    brackets of lines 1 to 120 close each other, and the first bracket of
    line 121 closes nothing. *)
Lemma brackets_do_not_nest :
  StoreChangelistFilters.scan (take 73 StoreChangelistFilters.brackets) [] 0 = None
  ∧ StoreChangelistFilters.brackets !! 73 = Some (121, "})()")
  ∧ StoreChangelistFilters.syntax_error_line = Some 121.
Proof. by vm_compute. Qed.

(** C7 fails for [store_changelist_filters.js]: the file does not parse.
    Line 120 closes the function expression that line 1 opens, and the
    brace that starts line 121 closes nothing.  Loading the file throws a
    [SyntaxError] on every page, with the global [django] or without it;
    no statement of the file runs and no listener is registered.  The
    sibling script reads [window.django]: when jQuery is not found there
    it logs its one warning and returns.  The entry points of the other
    two files return, the world as it was, when their element is
    missing. *)
Theorem filters_script_throws (w : world) :
  StoreChangelistFilters.syntax_error_line = Some 121
  ∧ StoreChangelistFilters.script w = Throw SyntaxError w
  ∧ (w_django w ≠ DjangoDeclared (Some true) →
     StoreEmployeeAutocompleteByService.script w
     = Return tt (add_console "django.jQuery не найден — autocomplete by service отключён" w))
  ∧ (querySelector (w_doc w) None (only (by_id "changelist-filter")) = None →
     StoreChangelistHeaderFilters.mountTopFilters w = Return tt w)
  ∧ (SourceSuggestions.getElementById (w_doc w) "source_suggestions" = None →
     querySelector (w_doc w) None SourceSuggestions.sel_input = None →
     SourceSuggestions.on_ready w = Return tt w).
Proof.
  split; [by vm_compute|]. split; [reflexivity|]. split; [|split].
  - intros Hdj. unfold StoreEmployeeAutocompleteByService.script, bind, gets. simpl.
    by destruct (w_django w) as [|[[]|]].
  - intros H. unfold StoreChangelistHeaderFilters.mountTopFilters, bind, gets,
      StoreChangelistHeaderFilters.qs. simpl. by rewrite H.
  - intros H1 H2. unfold SourceSuggestions.on_ready, bind, gets. simpl.
    by rewrite H1, H2.
Qed.

Lemma filters_script_throws_witness :
  StoreChangelistFilters.script Sample.w_no_django = Throw SyntaxError Sample.w_no_django
  ∧ w_doc_listeners (final (StoreChangelistFilters.script Sample.w_no_django)) = []
  ∧ StoreEmployeeAutocompleteByService.script Sample.w_no_django
    = Return tt (add_console "django.jQuery не найден — autocomplete by service отключён"
                   Sample.w_no_django).
Proof.
  pose proof (filters_script_throws Sample.w_no_django) as (_ & Hthrow & Hwarn & _).
  split; [exact Hthrow|]. split; [by rewrite Hthrow|].
  apply Hwarn. discriminate.
Defined.

(** Were the brackets of the file repaired, its statements would still
    throw without the global [django]: line 69 reads it as a bare
    identifier, after the listener has been registered. *)
Lemma statements_need_django w :
  w_django w = DjangoUndeclared →
  StoreChangelistFilters.statements w
  = Throw ReferenceError (add_doc_listener "DOMContentLoaded" CbChangelistFiltersReady w).
Proof.
  intros Hdj. unfold StoreChangelistFilters.statements, bind, gets, modify. simpl.
  by rewrite Hdj.
Qed.

(** With the global [django] declared, the statements bind [$] and do
    not throw. *)
Lemma declared_django_binds w v :
  w_django w = DjangoDeclared v →
  threw (StoreChangelistFilters.statements w) = None
  ∧ StoreChangelistFilters.binding_after (StoreChangelistFilters.statements w)
    = match v with Some true => DollarJQuery | _ => DollarNull end.
Proof.
  intros Hdj. unfold StoreChangelistFilters.statements, bind, gets, modify. simpl. rewrite Hdj.
  by destruct v as [[]|].
Qed.

(** With [$] bound to [null] the functions of the script return at once;
    [patchEmployeeSelect2] does its work only when [$] is jQuery. *)
Lemma without_jquery_nothing_is_patched w selectEl :
  StoreChangelistFilters.initEmployeeAutocompletePatching DollarNull w = Return tt w
  ∧ StoreChangelistFilters.patchEmployeeSelect2 DollarNull selectEl w = Return tt w
  ∧ StoreChangelistFilters.getStoreIdFromRow DollarNull (w_doc w) selectEl = Val (PStr "").
Proof. by repeat split. Qed.

(** The other preconditions: a missing element makes the function return
    with the world as it was. *)
Lemma missing_element_returns w :
  (querySelector (w_doc w) None (only (by_id "changelist-filter")) = None →
     StoreChangelistHeaderFilters.mountTopFilters w = Return tt w)
  ∧ (querySelector (w_doc w) None StoreChangelistFilters.sel_th_services = None →
     StoreChangelistFilters.injectServiceFilter w = Return tt w)
  ∧ (SourceSuggestions.getElementById (w_doc w) "source_suggestions" = None →
     querySelector (w_doc w) None SourceSuggestions.sel_input = None →
     SourceSuggestions.on_ready w = Return tt w).
Proof.
  split; [|split].
  - intros H. unfold StoreChangelistHeaderFilters.mountTopFilters, bind, gets,
      StoreChangelistHeaderFilters.qs. simpl. by rewrite H.
  - intros H. unfold StoreChangelistFilters.injectServiceFilter, bind, gets. simpl.
    by rewrite H.
  - intros H1 H2. unfold SourceSuggestions.on_ready, bind, gets. simpl.
    by rewrite H1, H2.
Qed.

(* ===================================================================== *)
(** * The query string *)
(* ===================================================================== *)

Import StoreChangelistFilters.

Lemma sp_delete_absent name (l : URLSearchParams) : name ∉ names (sp_delete name l).
Proof.
  unfold sp_delete. intros Hin. apply list_elem_of_fmap in Hin as (kv & -> & Hkv).
  apply list_elem_of_filter in Hkv as [Hne _]. by apply Hne.
Qed.

Lemma sp_delete_names name other (l : URLSearchParams) :
  other ∉ names l → other ∉ names (sp_delete name l).
Proof.
  intros Hnotin Hin. apply Hnotin.
  apply list_elem_of_fmap in Hin as (kv & Heq & Hkv).
  apply list_elem_of_filter in Hkv as [_ Hkv].
  apply list_elem_of_fmap. by exists kv.
Qed.

Lemma sp_get_absent name (l : URLSearchParams) : name ∉ names l → sp_get name l = None.
Proof.
  induction l as [|[k v] l IH]; simpl; [done|].
  intros Hnotin. apply not_elem_of_cons in Hnotin as [Hne Hl].
  destruct (decide (k = name)); [congruence|]. by apply IH.
Qed.

Lemma sp_delete_keeps a b name (l : URLSearchParams) :
  name = a ∨ name = b → others a b (sp_delete name l) = others a b l.
Proof.
  intros Hname. unfold others, sp_delete.
  induction l as [|[k v] l IH]; [done|].
  rewrite (filter_cons (fun kv => kv.1 ≠ name)). simpl.
  destruct (decide (k ≠ name)) as [Hne|Heq].
  - rewrite !filter_cons. simpl. destruct (decide (k ≠ a ∧ k ≠ b)); by rewrite IH.
  - assert (k = name) as -> by (by destruct (decide (k = name))).
    rewrite filter_cons. simpl.
    destruct (decide (name ≠ a ∧ name ≠ b)) as [[? ?]|_]; [by destruct Hname|]. exact IH.
Qed.

Lemma sp_set_keeps a b name value (l : URLSearchParams) :
  name = a ∨ name = b → others a b (sp_set name value l) = others a b l.
Proof.
  intros Hname. induction l as [|[k v] l IH]; simpl.
  - unfold others. rewrite filter_cons. simpl.
    destruct (decide (name ≠ a ∧ name ≠ b)) as [[? ?]|_]; [by destruct Hname|done].
  - destruct (decide (k = name)) as [->|Hne].
    + unfold others. rewrite !filter_cons. simpl.
      destruct (decide (name ≠ a ∧ name ≠ b)) as [[? ?]|_]; [by destruct Hname|].
      by apply sp_delete_keeps.
    + unfold others in *. rewrite !filter_cons. simpl.
      destruct (decide (k ≠ a ∧ k ≠ b)); by rewrite IH.
Qed.

Lemma filter_absent name (l : URLSearchParams) :
  name ∉ names l → filter (fun kv => kv.1 = name) l = [].
Proof.
  induction l as [|[k v] l IH]; [done|]. simpl.
  intros Hnotin. apply not_elem_of_cons in Hnotin as [Hne Hl].
  rewrite filter_cons. simpl. destruct (decide (k = name)); [congruence|]. by apply IH.
Qed.

Lemma sp_set_single name value (l : URLSearchParams) :
  filter (fun kv => kv.1 = name) (sp_set name value l) = [(name, value)].
Proof.
  induction l as [|[k v] l IH]; simpl.
  - rewrite filter_cons. simpl. by destruct (decide (name = name)).
  - destruct (decide (k = name)) as [->|Hne].
    + rewrite filter_cons. simpl. destruct (decide (name = name)); [|done].
      f_equal. apply filter_absent, sp_delete_absent.
    + rewrite filter_cons. simpl. by destruct (decide (k = name)).
Qed.

Lemma sp_get_set name value (l : URLSearchParams) : sp_get name (sp_set name value l) = Some value.
Proof.
  induction l as [|[k v] l IH]; simpl.
  - by destruct (decide (name = name)).
  - destruct (decide (k = name)) as [->|Hne]; simpl.
    + by destruct (decide (name = name)).
    + by destruct (decide (k = name)).
Qed.

Lemma sp_set_names name value other (l : URLSearchParams) :
  other ≠ name → other ∉ names l → other ∉ names (sp_set name value l).
Proof.
  intros Hne. induction l as [|[k v] l IH]; simpl.
  - intros _. apply not_elem_of_cons. split; [done|apply not_elem_of_nil].
  - intros Hnotin. apply not_elem_of_cons in Hnotin as [Hk Hl].
    destruct (decide (k = name)) as [->|Hkn]; simpl.
    + apply not_elem_of_cons. split; [done|].
      by apply sp_delete_names.
    + apply not_elem_of_cons. split; [done|]. by apply IH.
Qed.

(** C9: [updateQuery] always removes ["p"]; for an empty value it removes
    every pair named [param], otherwise it leaves exactly one pair
    [param=value]; the pairs of other names are kept, in their order; and
    it navigates to the path followed by [?] and the serialised pairs.
    The select of [injectServiceFilter] calls it with ["service"]. *)
Theorem updateQuery_rewrites_query (w : world) (param value : string) :
  param ≠ "p" →
  updateQuery param value w
  = Return tt (add_navigation
                 (pathname (w_url w)
                  +:+ ("?" +:+ sp_toString (updated_params param value (w_url w)))) w)
  ∧ ("p" ∉ names (updated_params param value (w_url w)))
  ∧ (value = "" → param ∉ names (updated_params param value (w_url w)))
  ∧ (value ≠ "" →
       sp_get param (updated_params param value (w_url w)) = Some value
       ∧ filter (fun kv => kv.1 = param) (updated_params param value (w_url w))
         = [(param, value)])
  ∧ others "p" param (updated_params param value (w_url w))
    = others "p" param (searchParams (w_url w))
  ∧ on_change value = updateQuery "service" value.
Proof.
  intros Hp. unfold updated_params. split; [reflexivity|].
  destruct value as [|c value]; simpl.
  - split; [|split; [|split; [|split]]].
    + apply sp_delete_names, sp_delete_absent.
    + intros _. apply sp_delete_absent.
    + done.
    + rewrite sp_delete_keeps by auto. apply sp_delete_keeps. auto.
    + reflexivity.
  - split; [|split; [|split; [|split]]].
    + apply sp_set_names; [done|]. apply sp_delete_absent.
    + discriminate.
    + intros _. split; [apply sp_get_set | apply sp_set_single].
    + rewrite sp_set_keeps by auto. apply sp_delete_keeps. auto.
    + reflexivity.
Qed.

Lemma updateQuery_rewrites_query_witness :
  updateQuery "service" "merch_only" (Sample.w_link DUndefined)
  = Return tt (add_navigation "/admin/app/store/?q=x+y&service=merch_only" (Sample.w_link DUndefined))
  ∧ "service" ≠ "p".
Proof.
  split; [|discriminate].
  apply (updateQuery_rewrites_query (Sample.w_link DUndefined) "service" "merch_only").
  discriminate.
Defined.

(* ===================================================================== *)
(** * Repeated calls *)
(* ===================================================================== *)

Lemma lookup_stamp_at st l (heap : list jsobj) :
  stamp_at st l heap !! l = stamp st <$> heap !! l.
Proof.
  destruct st as [v|]; simpl.
  - by rewrite list_lookup_alter_eq.
  - by destruct (heap !! l).
Qed.

Lemma lookup_stamp_at_ne st l l' (heap : list jsobj) :
  l ≠ l' → stamp_at st l heap !! l' = heap !! l'.
Proof.
  intros Hne. destruct st as [v|]; simpl; [|done]. by rewrite list_lookup_alter_ne.
Qed.



Lemma alter_store_id_again v st l (heap : list jsobj) :
  alter (insert "store_id" v) l (stamp_at st l heap) = stamp_at (Some v) l heap.
Proof.
  destruct st as [v0|]; simpl; [|done].
  apply list_eq. intros i. destruct (decide (i = l)) as [->|Hne].
  - rewrite !list_lookup_alter_eq. destruct (heap !! l) as [o|]; simpl; [|done].
    by rewrite insert_insert_eq.
  - by rewrite !list_lookup_alter_ne.
Qed.

(** Writing [store_id] into the object a call returned gives the call
    whose last written value is that one. *)
Lemma place_again t st v (heap : list jsobj) :
  place t (Some v) heap
  = ((place t st heap).1, alter (insert "store_id" v) (place t st heap).1 (place t st heap).2).
Proof.
  destruct t as [o|l]; simpl; by rewrite alter_store_id_again.
Qed.

Lemma world_after_0 w : world_after 0 (w_heap w) w = w.
Proof. by destruct w. Qed.

Lemma with_store_id_world_after l v n heap w :
  with_store_id l v (world_after n heap w)
  = world_after n (alter (insert "store_id" v) l heap) w.
Proof. reflexivity. Qed.

(** A call returns exactly when its shape is defined, and then it returns
    the reference and leaves the world that the shape says. *)
Lemma call_fn_shape f : ∀ params w l w',
  call_fn f params w = Return l w' ↔
  ∃ t st, fn_target f (w_doc w) (w_heap w) params = Some t
          ∧ fn_stamp f (w_doc w) = Some st
          ∧ l = (place t st (w_heap w)).1
          ∧ w' = world_after (fn_hosts f) (place t st (w_heap w)).2 w.
Proof.
  induction f using fn_mutind with
    (P0 := fun v => ∀ g, v = DFunction g → ∀ params w l w',
             call_fn g params w = Return l w' ↔
             ∃ t st, fn_target g (w_doc w) (w_heap w) params = Some t
                     ∧ fn_stamp g (w_doc w) = Some st
                     ∧ l = (place t st (w_heap w)).1
                     ∧ w' = world_after (fn_hosts g) (place t st (w_heap w)).2 w);
    try discriminate.
  - (* a host function *)
    intros params w l w'. simpl. unfold call_host, bind, gets, modify, new_object. simpl.
    split.
    + intros [= <- <-]. eexists _, None. repeat split.
    + intros (t & st & [= <-] & [= <-] & -> & ->). reflexivity.
  - (* the wrapper of patchSelect2Ajax *)
    intros params w l w'. rewrite call_edit_link_Return. unfold edit_link_id. simpl.
    destruct oldData as [| |l0|g]; simpl.
    + (* undefined *)
      split.
      * intros (w1 & sid & [= <- <-] & Hsid & ->). rewrite Hsid.
        destruct sid as [s|]; eexists _, _; (split; [reflexivity|]); (split; [reflexivity|]);
          simpl; split; try done.
        by rewrite world_after_0.
      * intros (t & st & [= <-] & Hst & -> & ->).
        destruct (StoreEmployeeAutocompleteByService.getStoreIdFromRow _ _) as [[s|]|]; simplify_eq; simpl;
          eexists w, _; repeat split; simpl; by rewrite ?world_after_0.
    + (* null *)
      split.
      * intros (w1 & sid & [= <- <-] & Hsid & ->). rewrite Hsid.
        destruct sid as [s|]; eexists _, _; (split; [reflexivity|]); (split; [reflexivity|]);
          simpl; split; try done.
        by rewrite world_after_0.
      * intros (t & st & [= <-] & Hst & -> & ->).
        destruct (StoreEmployeeAutocompleteByService.getStoreIdFromRow _ _) as [[s|]|]; simplify_eq; simpl;
          eexists w, _; repeat split; simpl; by rewrite ?world_after_0.
    + (* an object: calling it throws *)
      split.
      * intros (w1 & sid & Hcall & _). discriminate.
      * intros (t & st & Ht & _). discriminate.
    + (* a function *)
      specialize (IHf g eq_refl params w). split.
      * intros (w1 & sid & Hcall & Hsid & ->).
        apply IHf in Hcall as (t & st & Ht & Hst & -> & ->).
        rewrite Ht, Hst, Hsid. exists t.
        destruct sid as [s|]; simpl.
        -- exists (Some (PStr s)). repeat split.
           ++ by rewrite (place_again t st).
           ++ rewrite with_store_id_world_after. by rewrite (place_again t st (PStr s)).
        -- exists st. by repeat split.
      * intros (t & st' & Ht & Hst' & -> & ->).
        destruct (fn_stamp g (w_doc w)) as [st|] eqn:Hst; [|discriminate].
        destruct (StoreEmployeeAutocompleteByService.getStoreIdFromRow _ _) as [[s|]|] eqn:Hsid; simplify_eq.
        -- exists (world_after (fn_hosts g) (place t st (w_heap w)).2 w), (Some s).
           split; [|split; [done|]].
           ++ apply IHf. exists t, st. repeat split; try done.
              by rewrite (place_again t st (PStr s)).
           ++ simpl. rewrite with_store_id_world_after.
              by rewrite (place_again t st (PStr s)).
        -- exists (world_after (fn_hosts g) (place t st' (w_heap w)).2 w), None.
           split; [|split; [done|done]].
           apply IHf. by exists t, st'.
  - (* the wrapper of patchEmployeeSelect2 *)
    intros params w l w'. rewrite call_hidden_id_Return. unfold hidden_id. simpl.
    destruct oldData as [| |l0|g]; simpl.
    + split.
      * intros (w1 & v & [= <- <-] & Hv & ->). rewrite Hv.
        eexists _, _. split; [reflexivity|]. split; [reflexivity|]. simpl. split; [done|].
        unfold with_store_id, world_after. simpl. by destruct w.
      * intros (t & st & [= <-] & Hst & -> & ->).
        destruct (StoreChangelistFilters.getStoreIdFromRow _ _ _) as [v|]; simplify_eq.
        eexists _, v. split; [reflexivity|]. split; [done|].
        unfold with_store_id, world_after. simpl. by destruct w.
    + split.
      * intros (w1 & v & [= <- <-] & Hv & ->). rewrite Hv.
        eexists _, _. split; [reflexivity|]. split; [reflexivity|]. simpl. split; [done|].
        unfold with_store_id, world_after. simpl. by destruct w.
      * intros (t & st & [= <-] & Hst & -> & ->).
        destruct (StoreChangelistFilters.getStoreIdFromRow _ _ _) as [v|]; simplify_eq.
        eexists _, v. split; [reflexivity|]. split; [done|].
        unfold with_store_id, world_after. simpl. by destruct w.
    + split.
      * intros (w1 & v & [= <- <-] & Hv & ->). rewrite Hv.
        eexists _, _. split; [reflexivity|]. split; [reflexivity|]. simpl. split; [done|].
        unfold with_store_id, world_after. simpl. by destruct w.
      * intros (t & st & [= <-] & Hst & -> & ->).
        destruct (StoreChangelistFilters.getStoreIdFromRow _ _ _) as [v|]; simplify_eq.
        eexists _, v. split; [reflexivity|]. split; [done|].
        unfold with_store_id, world_after. simpl. by destruct w.
    + specialize (IHf g eq_refl params w). split.
      * intros (w1 & v & Hcall & Hv & ->).
        apply IHf in Hcall as (t & st & Ht & Hst & -> & ->).
        rewrite Ht, Hst, Hv. exists t, (Some v). repeat split.
        -- by rewrite (place_again t st).
        -- rewrite with_store_id_world_after. by rewrite (place_again t st v).
      * intros (t & st' & Ht & Hst' & -> & ->).
        destruct (fn_stamp g (w_doc w)) as [st|] eqn:Hst; [|discriminate].
        destruct (StoreChangelistFilters.getStoreIdFromRow _ _ _) as [v|] eqn:Hv; simplify_eq.
        exists (world_after (fn_hosts g) (place t st (w_heap w)).2 w), v.
        split; [|split; [done|]].
        -- apply IHf. exists t, st. repeat split; try done.
           by rewrite (place_again t st v).
        -- rewrite with_store_id_world_after. by rewrite (place_again t st v).
  - intros g [= <-]. exact IHf.
Qed.










(* ===================================================================== *)
(** * Facts about the document tree *)
(* ===================================================================== *)

Lemma elems_Elem t a ps ls ks : elems (Elem t a ps ls ks) = [] :: elems_kids 0 ks.
Proof. reflexivity. Qed.

Lemma elem_of_elems_kids p j ks :
  p ∈ elems_kids j ks ↔ ∃ i k q, p = (j + i) :: q ∧ ks !! i = Some k ∧ q ∈ elems k.
Proof.
  revert j. induction ks as [|k0 ks IH]; intros j; simpl.
  - split; [by intros ?%elem_of_nil | by intros (i & k & q & _ & ? & _)].
  - rewrite elem_of_app, list_elem_of_fmap, IH. split.
    + intros [(q & -> & Hq)|(i & k & q & -> & Hk & Hq)].
      * exists 0, k0, q. by rewrite Nat.add_0_r.
      * exists (S i), k, q. split; [f_equal; lia | done].
    + intros (i & k & q & -> & Hk & Hq). destruct i as [|i]; simpl in Hk.
      * left. injection Hk as <-. exists q. by rewrite Nat.add_0_r.
      * right. exists i, k, q. split; [f_equal; lia | done].
Qed.

(** The paths listed by [elems] are the paths of the elements. *)
Lemma elem_of_elems p : ∀ d,
  p ∈ elems d ↔ ∃ n, get d p = Some n ∧ is_elem n = true.
Proof.
  induction p as [|i p IH]; intros d.
  - destruct d as [s|t a ps ls ks]; simpl.
    + split; [by intros ?%elem_of_nil | by intros (n & [= <-] & ?)].
    + split; [intros _; eauto | intros _; left].
  - destruct d as [s|t a ps ls ks].
    + simpl. split; [by intros ?%elem_of_nil | by intros (n & ? & _)].
    + rewrite elems_Elem, elem_of_cons, elem_of_elems_kids. simpl. split.
      * intros [?|(i' & k & q & [= -> ->] & Hk & Hq)]; [done|].
        simpl in Hk. rewrite Hk. by apply IH.
      * intros (n & Hget & Hn). right.
        destruct (ks !! i) as [k|] eqn:Hk; [|done].
        exists i, k, p. split; [done|]. split; [done|]. apply IH. eauto.
Qed.

Lemma get_app d p q : get d (p ++ q) = get d p ≫= (fun n => get n q).
Proof.
  revert d. induction p as [|i p IH]; intros d; simpl; [done|].
  destruct (children_of d !! i); simpl; [apply IH | done].
Qed.

(** The node inserted is found where it was put. *)
Lemma get_insert_child d pp idx new : ∀ parent,
  get d pp = Some parent → is_elem parent = true → idx ≤ length (children_of parent) →
  get (insert_child d pp idx new) (pp ++ [idx]) = Some new.
Proof.
  revert d. induction pp as [|j pp IH]; intros d parent Hget Hel Hidx; simpl in *.
  - injection Hget as ->. destruct parent as [s|t a ps ls ks]; [done|]. simpl in *.
    rewrite lookup_app_r by (rewrite length_take; lia).
    rewrite length_take. by replace (idx - idx `min` length ks) with 0 by lia.
  - destruct d as [s|t a ps ls ks]; simpl in *; [done|].
    destruct (ks !! j) as [k|] eqn:Hk; [|done].
    rewrite list_lookup_alter_eq, Hk. simpl. by eapply IH.
Qed.

Lemma get_append_at d p new parent :
  get d p = Some parent → is_elem parent = true →
  get (append_at d p new) (p ++ [length (children_of parent)]) = Some new.
Proof.
  intros Hget Hel. unfold append_at. rewrite Hget. by eapply get_insert_child.
Qed.

(** A path whose last step is [i] names child [i] of its parent. *)
Lemma get_parent d rp i n :
  get d (rev (i :: rp)) = Some n →
  ∃ parent, get d (rev rp) = Some parent ∧ is_elem parent = true
            ∧ i < length (children_of parent).
Proof.
  simpl. rewrite get_app. destruct (get d (rev rp)) as [parent|]; simpl; [|done].
  destruct (children_of parent !! i) as [k|] eqn:Hk; [|done]. intros _.
  exists parent. split; [done|]. split.
  - destruct parent; [done|done].
  - by eapply lookup_lt_Some.
Qed.

(** A selector made of one compound looks at the node only. *)
Lemma matches_only d c p :
  matches d (only c) p = match get d p with
                         | Some n => matches_compound c n
                         | None => false
                         end.
Proof.
  unfold matches, only. destruct (get d p) as [n|]; [|done]. simpl.
  rewrite orb_false_r. destruct (rev (along d p)); simpl; by rewrite andb_true_r.
Qed.

Lemma querySelector_doc_Some d sel p :
  p ∈ elems d → matches d sel p = true → is_Some (querySelector d None sel).
Proof.
  intros Hel Hm. unfold querySelector, querySelectorAll, doc_qsa.
  destruct (filter _ (elems d)) as [|q l] eqn:E; [|by eexists].
  assert (p ∈ filter (fun p => matches d sel p = true) (elems d)) as Hin
    by (by apply list_elem_of_filter).
  rewrite E in Hin. by apply elem_of_nil in Hin.
Qed.

Lemma querySelector_doc_elem d sel p :
  querySelector d None sel = Some p → p ∈ elems d ∧ matches d sel p = true.
Proof.
  unfold querySelector, querySelectorAll, doc_qsa. intros Hhead.
  apply head_Some_elem_of in Hhead. apply list_elem_of_filter in Hhead. tauto.
Qed.

(** After a node that matches a one-compound selector has been inserted
    next to or under an element, the document has a match. *)
Lemma querySelector_after_insert d pp idx new c parent :
  get d pp = Some parent → is_elem parent = true → idx ≤ length (children_of parent) →
  matches_compound c new = true →
  is_Some (querySelector (insert_child d pp idx new) None (only c)).
Proof.
  intros Hget Hel Hidx Hm.
  pose proof (get_insert_child d pp idx new parent Hget Hel Hidx) as Hnew.
  apply (querySelector_doc_Some _ _ (pp ++ [idx])).
  - apply elem_of_elems. exists new. split; [done|].
    unfold matches_compound in Hm. by destruct (is_elem new).
  - by rewrite matches_only, Hnew.
Qed.

(* ===================================================================== *)
(** * Injection into the document *)
(* ===================================================================== *)

Import StoreChangelistHeaderFilters.

(** [makeDropdown] and the appends to the panel leave the document and
    the class of the panel as they are. *)
Lemma add_dropdown_Return title ul panel w :
  ∃ panel' w', add_dropdown title ul panel w = Return panel' w'
               ∧ w_doc w' = w_doc w
               ∧ matches_compound (by_class "top-filters") panel'
                 = matches_compound (by_class "top-filters") panel.
Proof.
  unfold add_dropdown. destruct ul as [u|].
  - unfold makeDropdown, bind, gets, modify, ret. simpl.
    eexists _, _. split; [reflexivity|]. split; [reflexivity|].
    by destruct panel.
  - exists panel, w. by repeat split.
Qed.

Lemma insert_beside_Return p shift new w n :
  shift ≤ 1 →
  get (w_doc w) p = Some n →
  (p = [] ∧ insert_beside p shift new w = Throw HierarchyRequestError w)
  ∨ (∃ pp i parent,
        p = pp ++ [i] ∧ get (w_doc w) pp = Some parent ∧ is_elem parent = true
        ∧ i + shift ≤ length (children_of parent)
        ∧ insert_beside p shift new w
          = Return tt (relocate (shift_path pp (i + shift))
                         (set_doc (insert_child (w_doc w) pp (i + shift) new) w))).
Proof.
  intros Hshift Hget. unfold insert_beside.
  destruct (rev p) as [|i rp] eqn:Hrev.
  - left. split; [|done]. apply (f_equal (@rev nat)) in Hrev. by rewrite rev_involutive in Hrev.
  - right. assert (p = rev rp ++ [i]) as Hp.
    { apply (f_equal (@rev nat)) in Hrev. by rewrite rev_involutive in Hrev. }
    assert (get (w_doc w) (rev (i :: rp)) = Some n) as Hget' by (simpl; by rewrite <- Hp).
    destruct (get_parent _ _ _ _ Hget') as (parent & Hpar & Hel & Hlt).
    exists (rev rp), i, parent. repeat split; try done. lia.
Qed.

(** The guard of [mountTopFilters]. *)
Lemma mountTopFilters_guard w :
  is_Some (qs (w_doc w) sel_top_filters None) → mountTopFilters w = Return tt w.
Proof.
  intros [p Hp]. unfold mountTopFilters, bind, gets. simpl.
  destruct (qs (w_doc w) (only (by_id "changelist-filter")) None); [|done].
  destruct (qs (w_doc w) (only (by_id "toolbar")) None).
  - unfold sel_top_filters in Hp. by rewrite Hp.
  - destruct (qs (w_doc w) sel_actions None).
    + unfold sel_top_filters in Hp. by rewrite Hp.
    + destruct (qs (w_doc w) (only (by_id "changelist")) None); [|done].
      unfold sel_top_filters in Hp. by rewrite Hp.
Qed.

(** Once the panel has been inserted, the document has a [.top-filters]. *)
Lemma insert_panel_found statusUl serviceUl toolbar anchor w w1 :
  (∀ t, toolbar = Some t → t ∈ elems (w_doc w)) →
  anchor ∈ elems (w_doc w) →
  insert_panel statusUl serviceUl toolbar anchor w = Return tt w1 →
  is_Some (qs (w_doc w1) sel_top_filters None).
Proof.
  intros Htool Hanchor. unfold insert_panel, bind.
  destruct (add_dropdown_Return "Статус" statusUl
              (setAttribute "class" "top-filters" (createElement "div")) w)
    as (panel1 & wa & -> & Hdoc1 & Hc1).
  destruct (add_dropdown_Return "Услуги" serviceUl panel1 wa)
    as (panel2 & wb & -> & Hdoc2 & Hc2).
  assert (matches_compound (by_class "top-filters") panel2 = true) as Hclass
    by (by rewrite Hc2, Hc1).
  assert (w_doc wb = w_doc w) as Hdoc by congruence.
  assert (∀ p shift, shift ≤ 1 → p ∈ elems (w_doc w) →
            insert_beside p shift panel2 wb = Return tt w1 →
            is_Some (qs (w_doc w1) sel_top_filters None)) as Hins.
  { intros p shift Hshift Hp Hrun.
    apply elem_of_elems in Hp as (n & Hn & _). rewrite <- Hdoc in Hn.
    destruct (insert_beside_Return p shift panel2 wb n Hshift Hn)
      as [[_ Hthrow]|(pp & i & parent & _ & Hpar & Hel & Hidx & Hret)].
    - rewrite Hthrow in Hrun. discriminate.
    - rewrite Hret in Hrun. injection Hrun as <-. simpl.
      by eapply querySelector_after_insert. }
  destruct toolbar as [t|].
  - apply (Hins t 1); [lia | by apply Htool].
  - by apply (Hins anchor 0); [lia|].
Qed.

(** A run of [mountTopFilters] that returns leaves a document on which
    every further run returns at once. *)
Lemma mountTopFilters_again w w1 :
  mountTopFilters w = Return tt w1 →
  ∀ w2, w_doc w2 = w_doc w1 → mountTopFilters w2 = Return tt w2.
Proof.
  unfold mountTopFilters at 1. unfold bind, gets. simpl.
  destruct (qs (w_doc w) (only (by_id "changelist-filter")) None) as [filterRoot|] eqn:Hroot.
  2:{ intros [= <-] w2 Hdoc. unfold mountTopFilters, bind, gets. simpl.
      by rewrite Hdoc, Hroot. }
  destruct (qs (w_doc w) (only (by_id "toolbar")) None) as [t|] eqn:Htool.
  - destruct (qs (w_doc w) (only (by_class "top-filters")) None) as [tf|] eqn:Htf.
    { intros [= <-] w2 Hdoc. apply mountTopFilters_guard. rewrite Hdoc.
      unfold sel_top_filters. by rewrite Htf. }
    destruct (findUlForFilterTitle (w_doc w) filterRoot "Статус") as [su|] eqn:Hsu;
      [|destruct (findUlForFilterTitle (w_doc w) filterRoot "Услуги") as [se|] eqn:Hse].
    + intros Hrun w2 Hdoc. apply mountTopFilters_guard. rewrite Hdoc.
      eapply insert_panel_found; [| |exact Hrun].
      * intros t' [= <-]. by apply querySelector_doc_elem in Htool as [? _].
      * by apply querySelector_doc_elem in Htool as [? _].
    + intros Hrun w2 Hdoc. apply mountTopFilters_guard. rewrite Hdoc.
      eapply insert_panel_found; [| |exact Hrun].
      * intros t' [= <-]. by apply querySelector_doc_elem in Htool as [? _].
      * by apply querySelector_doc_elem in Htool as [? _].
    + intros [= <-] w2 Hdoc. unfold mountTopFilters, bind, gets. simpl.
      by rewrite Hdoc, Hroot, Htool, Htf, Hsu, Hse.
  - destruct (match qs (w_doc w) sel_actions None with
              | Some a => Some a
              | None => qs (w_doc w) (only (by_id "changelist")) None
              end) as [anchor|] eqn:Hanchor.
    2:{ intros [= <-] w2 Hdoc. unfold mountTopFilters, bind, gets. simpl.
        by rewrite Hdoc, Hroot, Htool, Hanchor. }
    assert (anchor ∈ elems (w_doc w)) as Hin.
    { destruct (qs (w_doc w) sel_actions None) as [a|] eqn:Ha.
      - injection Hanchor as <-. by apply querySelector_doc_elem in Ha as [? _].
      - by apply querySelector_doc_elem in Hanchor as [? _]. }
    destruct (qs (w_doc w) (only (by_class "top-filters")) None) as [tf|] eqn:Htf.
    { intros [= <-] w2 Hdoc. apply mountTopFilters_guard. rewrite Hdoc.
      unfold sel_top_filters. by rewrite Htf. }
    destruct (findUlForFilterTitle (w_doc w) filterRoot "Статус") as [su|] eqn:Hsu;
      [|destruct (findUlForFilterTitle (w_doc w) filterRoot "Услуги") as [se|] eqn:Hse].
    + intros Hrun w2 Hdoc. apply mountTopFilters_guard. rewrite Hdoc.
      eapply insert_panel_found; [| |exact Hrun]; [done|done].
    + intros Hrun w2 Hdoc. apply mountTopFilters_guard. rewrite Hdoc.
      eapply insert_panel_found; [| |exact Hrun]; [done|done].
    + intros [= <-] w2 Hdoc. unfold mountTopFilters, bind, gets. simpl.
      by rewrite Hdoc, Hroot, Htool, Hanchor, Htf, Hsu, Hse.
Qed.

(** ** Appending under an element keeps the earlier matches *)

Lemma filter_map_cons (P : path → Prop) `{∀ p, Decision (P p)} i (l : list path) :
  filter P (map (cons i) l) = map (cons i) (filter (fun q => P (i :: q)) l).
Proof.
  induction l as [|q l IH]; [done|]. simpl.
  rewrite !filter_cons. destruct (decide (P (i :: q))); simpl; by rewrite IH.
Qed.

Lemma matches_only_child t a ps ls ks c i q k :
  ks !! i = Some k →
  matches (Elem t a ps ls ks) (only c) (i :: q) = matches k (only c) q.
Proof.
  intros Hk. rewrite !matches_only. simpl. by rewrite Hk.
Qed.

Lemma filter_elems_kids t a ps ls ks c : ∀ l j,
  (∀ i k, l !! i = Some k → ks !! (j + i) = Some k) →
  filter (fun p => matches (Elem t a ps ls ks) (only c) p = true) (elems_kids j l)
  = qsa_kids c j l.
Proof.
  induction l as [|k l IH]; intros j Hsuffix; [done|]. simpl.
  rewrite filter_app. f_equal.
  - rewrite (filter_map_cons (fun p => matches (Elem t a ps ls ks) (only c) p = true)).
    f_equal. unfold doc_qsa. apply list_filter_iff. intros q.
    rewrite (matches_only_child t a ps ls ks c j q k); [done|].
    specialize (Hsuffix 0 k eq_refl). by rewrite Nat.add_0_r in Hsuffix.
  - apply IH. intros i k' Hk'. specialize (Hsuffix (S i) k' Hk').
    by replace (S j + i) with (j + S i) by lia.
Qed.

(** The matches of a one-compound selector: the root if it matches, then
    the matches inside each child. *)
Lemma doc_qsa_only_Elem c t a ps ls ks :
  doc_qsa (Elem t a ps ls ks) (only c)
  = (if matches_compound c (Elem t a ps ls ks) then [[]] else []) ++ qsa_kids c 0 ks.
Proof.
  unfold doc_qsa at 1. rewrite elems_Elem, filter_cons.
  rewrite matches_only. simpl get.
  rewrite (filter_elems_kids t a ps ls ks c ks 0) by done.
  destruct (matches_compound c (Elem t a ps ls ks)); simpl.
  - by destruct (decide (true = true)).
  - by destruct (decide (false = true)).
Qed.

Lemma qsa_kids_app c j l1 l2 :
  qsa_kids c j (l1 ++ l2) = qsa_kids c j l1 ++ qsa_kids c (j + length l1) l2.
Proof.
  revert j. induction l1 as [|k l1 IH]; intros j; simpl.
  - by rewrite Nat.add_0_r.
  - rewrite IH. rewrite <- app_assoc. do 3 f_equal. lia.
Qed.

Lemma qsa_kids_alter c (f : node → node) i : ∀ l j k,
  l !! i = Some k → doc_qsa (f k) (only c) = doc_qsa k (only c) →
  qsa_kids c j (alter f i l) = qsa_kids c j l.
Proof.
  induction i as [|i IH]; intros [|k0 l] j k Hk Hsame; simpl in *; try done.
  - injection Hk as ->. by rewrite Hsame.
  - f_equal. by eapply IH.
Qed.

Lemma matches_compound_children c t a ps ls ks ks' :
  matches_compound c (Elem t a ps ls ks) = matches_compound c (Elem t a ps ls ks').
Proof. reflexivity. Qed.

(** Appending a subtree without a match under an element changes no
    match of a one-compound selector. *)
Lemma doc_qsa_insert_last c new :
  doc_qsa new (only c) = [] →
  ∀ p d n, get d p = Some n →
    doc_qsa (insert_child d p (length (children_of n)) new) (only c) = doc_qsa d (only c).
Proof.
  intros Hnew. induction p as [|j p IH]; intros d n Hget.
  - simpl in Hget. injection Hget as ->.
    destruct n as [s|t a ps ls ks]; [done|]. simpl insert_child. simpl children_of.
    rewrite take_ge, drop_ge by done.
    rewrite !doc_qsa_only_Elem.
    rewrite (matches_compound_children c t a ps ls (ks ++ [new]) ks).
    f_equal. rewrite qsa_kids_app. simpl. rewrite Hnew. simpl.
    by rewrite !app_nil_r.
  - destruct d as [s|t a ps ls ks]; [done|]. simpl in Hget.
    destruct (ks !! j) as [k|] eqn:Hk; [|done].
    simpl insert_child. rewrite !doc_qsa_only_Elem.
    rewrite (matches_compound_children c t a ps ls _ ks).
    f_equal. eapply qsa_kids_alter; [exact Hk|]. by apply IH.
Qed.

Lemma doc_qsa_append_at c new d p :
  doc_qsa new (only c) = [] →
  doc_qsa (append_at d p new) (only c) = doc_qsa d (only c).
Proof.
  intros Hnew. unfold append_at. destruct (get d p) as [n|] eqn:Hget; [|done].
  by apply doc_qsa_insert_last.
Qed.

(** ** The select in the table header *)

Lemma make_wrap_no_th current : doc_qsa (make_wrap current) sel_th_services = [].
Proof.
  unfold make_wrap, make_option, options. simpl foldl.
  repeat case_bool_decide; vm_compute; reflexivity.
Qed.

Lemma make_wrap_select current :
  ∃ sel, get (make_wrap current) [0] = Some sel
         ∧ is_elem sel = true
         ∧ matches_compound (by_class "service-filter-select") sel = true.
Proof.
  unfold make_wrap, make_option, options. simpl foldl.
  eexists. split; [reflexivity|]. split; [reflexivity|]. vm_compute. reflexivity.
Qed.

Lemma is_proper_prefix_app (p q : path) : q ≠ [] → is_proper_prefix p (p ++ q) = true.
Proof.
  intros Hq. unfold is_proper_prefix. apply andb_true_iff. split.
  - apply bool_decide_eq_true. by apply prefix_app_r.
  - apply negb_true_iff, bool_decide_eq_false. intros Heq.
    apply (f_equal length) in Heq. rewrite length_app in Heq.
    destruct q; [done|]. simpl in Heq. lia.
Qed.

(** After the wrap has been appended to the header cell, the cell holds
    a [.service-filter-select]. *)
Lemma service_filter_found d th current n :
  get d th = Some n → is_elem n = true →
  is_Some (querySelector (append_at d th (make_wrap current)) (Some th) sel_service_filter).
Proof.
  intros Hget Hel.
  destruct (make_wrap_select current) as (sel & Hsel & Hsel_el & Hclass).
  set (d1 := append_at d th (make_wrap current)).
  set (p := th ++ [length (children_of n); 0]).
  assert (get d1 p = Some sel) as Hp.
  { unfold p. change [length (children_of n); 0] with ([length (children_of n)] ++ [0]).
    rewrite app_assoc, get_app. unfold d1.
    by rewrite (get_append_at d th _ n Hget Hel). }
  assert (p ∈ querySelectorAll d1 (Some th) sel_service_filter) as Hin.
  { simpl. unfold elem_qsa. apply list_elem_of_filter. split.
    - by apply is_proper_prefix_app.
    - unfold doc_qsa. apply list_elem_of_filter. split.
      + unfold sel_service_filter. by rewrite matches_only, Hp.
      + apply elem_of_elems. eauto. }
  unfold querySelector. destruct (querySelectorAll d1 (Some th) sel_service_filter); [|by eexists].
  by apply elem_of_nil in Hin.
Qed.

Lemma injectServiceFilter_guard w th :
  querySelector (w_doc w) None sel_th_services = Some th →
  is_Some (querySelector (w_doc w) (Some th) sel_service_filter) →
  injectServiceFilter w = Return tt w.
Proof.
  intros Hth [f Hf]. unfold injectServiceFilter, bind, gets. simpl. by rewrite Hth, Hf.
Qed.

Lemma injectServiceFilter_again w w1 :
  injectServiceFilter w = Return tt w1 →
  ∀ w2, w_doc w2 = w_doc w1 → injectServiceFilter w2 = Return tt w2.
Proof.
  unfold injectServiceFilter at 1. unfold bind, gets. simpl.
  destruct (querySelector (w_doc w) None sel_th_services) as [th|] eqn:Hth.
  2:{ intros [= <-] w2 Hdoc. unfold injectServiceFilter, bind, gets. simpl.
      by rewrite Hdoc, Hth. }
  destruct (querySelector (w_doc w) (Some th) sel_service_filter) as [f|] eqn:Hf.
  { intros [= <-] w2 Hdoc. apply (injectServiceFilter_guard w2 th); rewrite Hdoc; [done|].
    by rewrite Hf. }
  intros [= <-] w2 Hdoc. simpl in Hdoc.
  apply (injectServiceFilter_guard w2 th); rewrite Hdoc.
  - unfold querySelector, querySelectorAll in *. unfold sel_th_services in *.
    rewrite doc_qsa_append_at; [done|]. apply make_wrap_no_th.
  - apply querySelector_doc_elem in Hth as [Hin _].
    apply elem_of_elems in Hin as (n & Hn & Hel).
    by eapply service_filter_found.
Qed.

(** ** The datalist of sources *)

Lemma find_body_get l : ∀ i b,
  SourceSuggestions.find_body i l = Some b →
  ∃ j k, b = [i + j] ∧ l !! j = Some k ∧ is_elem k = true.
Proof.
  induction l as [|k l IH]; intros i b; simpl; [done|].
  destruct (bool_decide (tag_of k = Some "body") || bool_decide (tag_of k = Some "frameset"))
    eqn:Htag.
  - intros [= <-]. exists 0, k. rewrite Nat.add_0_r. split; [done|]. split; [done|].
    destruct k; [|done]. vm_compute in Htag. discriminate.
  - intros Hb. destruct (IH _ _ Hb) as (j & k' & -> & Hk' & Hel).
    exists (S j), k'. split; [f_equal; lia | done].
Qed.

Lemma body_get d b :
  SourceSuggestions.body d = Some b → ∃ n, get d b = Some n ∧ is_elem n = true.
Proof.
  unfold SourceSuggestions.body. case_bool_decide; [|done]. intros Hb.
  destruct (find_body_get _ _ _ Hb) as (j & k & -> & Hk & Hel).
  exists k. simpl. by rewrite Hk.
Qed.

Lemma source_suggestions_guard w :
  is_Some (SourceSuggestions.getElementById (w_doc w) "source_suggestions") →
  SourceSuggestions.on_ready w = Return tt w.
Proof.
  intros [p Hp]. unfold SourceSuggestions.on_ready, bind, gets. simpl. by rewrite Hp.
Qed.

Lemma source_suggestions_again w w1 :
  SourceSuggestions.on_ready w = Return tt w1 →
  ∀ w2, w_doc w2 = w_doc w1 → SourceSuggestions.on_ready w2 = Return tt w2.
Proof.
  unfold SourceSuggestions.on_ready at 1. unfold bind, gets. simpl.
  destruct (SourceSuggestions.getElementById (w_doc w) "source_suggestions") as [p|] eqn:Hid.
  { intros [= <-] w2 Hdoc. apply source_suggestions_guard. rewrite Hdoc. by rewrite Hid. }
  destruct (querySelector (w_doc w) None SourceSuggestions.sel_input) as [i|] eqn:Hinput.
  2:{ intros [= <-] w2 Hdoc. unfold SourceSuggestions.on_ready, bind, gets. simpl.
      by rewrite Hdoc, Hid, Hinput. }
  destruct (SourceSuggestions.body (w_doc w)) as [b|] eqn:Hbody; [|discriminate].
  intros [= <-] w2 Hdoc. simpl in Hdoc. apply source_suggestions_guard. rewrite Hdoc.
  destruct (body_get _ _ Hbody) as (n & Hn & Hel).
  unfold SourceSuggestions.getElementById, append_at. rewrite Hn.
  eapply querySelector_after_insert; [exact Hn | done | done |].
  vm_compute. reflexivity.
Qed.

(** ** A run inserts at most one node *)

Lemma mountTopFilters_inserts_once w :
  at_most_one_insertion (w_doc w) (w_doc (final (mountTopFilters w))).
Proof.
  unfold mountTopFilters, bind, gets. simpl.
  destruct (qs (w_doc w) (only (by_id "changelist-filter")) None) as [filterRoot|];
    [|by left].
  assert (∀ su se toolbar anchor,
            at_most_one_insertion (w_doc w) (w_doc (final (insert_panel su se toolbar anchor w))))
    as Hpanel.
  { intros su se toolbar anchor. unfold insert_panel, bind.
    destruct (add_dropdown_Return "Статус" su
                (setAttribute "class" "top-filters" (createElement "div")) w)
      as (panel1 & wa & -> & Hdoc1 & _).
    destruct (add_dropdown_Return "Услуги" se panel1 wa) as (panel2 & wb & -> & Hdoc2 & _).
    assert (∀ p shift, at_most_one_insertion (w_doc w)
                         (w_doc (final (insert_beside p shift panel2 wb)))) as Hins.
    { intros p shift. unfold insert_beside. destruct (rev p) as [|i rp]; simpl.
      - left. congruence.
      - right. exists (rev rp), (i + shift), panel2. congruence. }
    destruct toolbar; apply Hins. }
  destruct (qs (w_doc w) (only (by_id "toolbar")) None) as [t|].
  - destruct (qs (w_doc w) (only (by_class "top-filters")) None); [by left|].
    destruct (findUlForFilterTitle (w_doc w) filterRoot "Статус");
      [apply Hpanel|].
    destruct (findUlForFilterTitle (w_doc w) filterRoot "Услуги"); [apply Hpanel | by left].
  - destruct (match qs (w_doc w) sel_actions None with
              | Some a => Some a
              | None => qs (w_doc w) (only (by_id "changelist")) None
              end) as [anchor|]; [|by left].
    destruct (qs (w_doc w) (only (by_class "top-filters")) None); [by left|].
    destruct (findUlForFilterTitle (w_doc w) filterRoot "Статус");
      [apply Hpanel|].
    destruct (findUlForFilterTitle (w_doc w) filterRoot "Услуги"); [apply Hpanel | by left].
Qed.

Lemma append_at_one_insertion d p new : at_most_one_insertion d (append_at d p new).
Proof.
  unfold append_at. destruct (get d p) as [n|]; [|by left].
  right. by eexists _, _, _.
Qed.

Lemma injectServiceFilter_inserts_once w :
  at_most_one_insertion (w_doc w) (w_doc (final (injectServiceFilter w))).
Proof.
  unfold injectServiceFilter, bind, gets. simpl.
  destruct (querySelector (w_doc w) None sel_th_services) as [th|]; [|by left].
  destruct (querySelector (w_doc w) (Some th) sel_service_filter); [by left|].
  simpl. apply append_at_one_insertion.
Qed.

Lemma source_suggestions_inserts_once w :
  at_most_one_insertion (w_doc w) (w_doc (final (SourceSuggestions.on_ready w))).
Proof.
  unfold SourceSuggestions.on_ready, bind, gets. simpl.
  destruct (SourceSuggestions.getElementById (w_doc w) "source_suggestions"); [by left|].
  destruct (querySelector (w_doc w) None SourceSuggestions.sel_input); [|by left].
  destruct (SourceSuggestions.body (w_doc w)); simpl; [|by left].
  apply append_at_one_insertion.
Qed.

(** C10: each of the three functions that inject an element returns at
    once, leaving the world as it is, when the element is already there
    (the [.top-filters] panel, the [.service-filter-select] in the first
    [th.column-services], the element with id [source_suggestions]); and
    after a run that has returned, every further run on a page with that
    document returns at once, so a second panel, select or datalist is
    never inserted.  In particular the delayed runs of [mountTopFilters]
    scheduled by the listener change nothing.  A single run inserts at
    most one node. *)
Theorem injection_idempotent :
  (∀ w, is_Some (qs (w_doc w) sel_top_filters None) → mountTopFilters w = Return tt w)
  ∧ (∀ w w1, mountTopFilters w = Return tt w1 →
       ∀ w2, w_doc w2 = w_doc w1 → mountTopFilters w2 = Return tt w2)
  ∧ (∀ w w1, StoreChangelistHeaderFilters.on_ready w = Return tt w1 →
       mountTopFilters w1 = Return tt w1)
  ∧ (∀ w th,
       querySelector (w_doc w) None sel_th_services = Some th →
       is_Some (querySelector (w_doc w) (Some th) sel_service_filter) →
       injectServiceFilter w = Return tt w)
  ∧ (∀ w w1, injectServiceFilter w = Return tt w1 →
       ∀ w2, w_doc w2 = w_doc w1 → injectServiceFilter w2 = Return tt w2)
  ∧ (∀ w, is_Some (SourceSuggestions.getElementById (w_doc w) "source_suggestions") →
       SourceSuggestions.on_ready w = Return tt w)
  ∧ (∀ w w1, SourceSuggestions.on_ready w = Return tt w1 →
       ∀ w2, w_doc w2 = w_doc w1 → SourceSuggestions.on_ready w2 = Return tt w2)
  ∧ (∀ w, at_most_one_insertion (w_doc w) (w_doc (final (mountTopFilters w)))
          ∧ at_most_one_insertion (w_doc w) (w_doc (final (injectServiceFilter w)))
          ∧ at_most_one_insertion (w_doc w) (w_doc (final (SourceSuggestions.on_ready w)))).
Proof.
  split; [|split; [|split; [|split; [|split; [|split; [|split]]]]]].
  - apply mountTopFilters_guard.
  - apply mountTopFilters_again.
  - intros w w1. unfold StoreChangelistHeaderFilters.on_ready, bind, modify.
    destruct (mountTopFilters w) as [[] wm|e wm] eqn:Hmount; [|discriminate].
    intros [= <-]. by apply (mountTopFilters_again w wm Hmount).
  - apply injectServiceFilter_guard.
  - apply injectServiceFilter_again.
  - apply source_suggestions_guard.
  - apply source_suggestions_again.
  - intros w. split; [|split].
    + apply mountTopFilters_inserts_once.
    + apply injectServiceFilter_inserts_once.
    + apply source_suggestions_inserts_once.
Qed.

Lemma injection_idempotent_witness :
  mountTopFilters (final (mountTopFilters Sample.w_admin))
  = Return tt (final (mountTopFilters Sample.w_admin))
  ∧ injectServiceFilter (final (injectServiceFilter Sample.w_admin))
    = Return tt (final (injectServiceFilter Sample.w_admin))
  ∧ SourceSuggestions.on_ready (final (SourceSuggestions.on_ready Sample.w_admin))
    = Return tt (final (SourceSuggestions.on_ready Sample.w_admin))
  ∧ is_Some (qs (w_doc (final (mountTopFilters Sample.w_admin))) sel_top_filters None).
Proof.
  destruct injection_idempotent as (_ & Hmount & _ & _ & Hinject & _ & Hready & _).
  split; [|split; [|split]].
  - apply (Hmount Sample.w_admin (final (mountTopFilters Sample.w_admin)));
      [vm_compute; reflexivity | reflexivity].
  - apply (Hinject Sample.w_admin (final (injectServiceFilter Sample.w_admin)));
      [vm_compute; reflexivity | reflexivity].
  - apply (Hready Sample.w_admin (final (SourceSuggestions.on_ready Sample.w_admin)));
      [vm_compute; reflexivity | reflexivity].
  - vm_compute. eexists. reflexivity.
Defined.

(* ===================================================================== *)
(** * Strings read backwards *)
(* ===================================================================== *)

Lemma append_cons c a b : String c a +:+ b = String c (a +:+ b).
Proof. reflexivity. Qed.

Lemma append_nil_r s : s +:+ "" = s.
Proof. induction s as [|c s IH]; [done|]. by rewrite append_cons, IH. Qed.

Lemma append_assoc a b c : (a +:+ b) +:+ c = a +:+ (b +:+ c).
Proof. induction a as [|x a IH]; [done|]. by rewrite !append_cons, IH. Qed.

Lemma rev_app_append a b acc :
  String.rev_app (a +:+ b) acc = String.rev_app b (String.rev_app a acc).
Proof.
  revert acc. induction a as [|x a IH]; intros acc; [done|].
  rewrite append_cons. simpl. apply IH.
Qed.

Lemma rev_app_acc s acc : String.rev_app s acc = String.rev s +:+ acc.
Proof.
  unfold String.rev. revert acc. induction s as [|x s IH]; intros acc; [done|].
  simpl. rewrite IH, (IH (String x "")), append_assoc. done.
Qed.

Lemma rev_append a b : String.rev (a +:+ b) = String.rev b +:+ String.rev a.
Proof. unfold String.rev at 1. by rewrite rev_app_append, rev_app_acc. Qed.

Lemma rev_cons c s : String.rev (String c s) = String.rev s +:+ String c "".
Proof. unfold String.rev at 1. simpl. apply rev_app_acc. Qed.

Lemma rev_rev s : String.rev (String.rev s) = s.
Proof.
  induction s as [|c s IH]; [done|].
  by rewrite rev_cons, rev_append, IH.
Qed.

Lemma string_forall_append P a b :
  string_forall P (a +:+ b) = string_forall P a && string_forall P b.
Proof.
  induction a as [|c a IH]; [done|].
  rewrite append_cons. simpl. by rewrite IH, andb_assoc.
Qed.

Lemma string_forall_rev P s : string_forall P (String.rev s) = string_forall P s.
Proof.
  induction s as [|c s IH]; [done|].
  rewrite rev_cons, string_forall_append, IH. simpl.
  rewrite andb_true_r. apply andb_comm.
Qed.

Lemma all_digits_rev s : all_digits (String.rev s) = all_digits s.
Proof. apply string_forall_rev. Qed.

Lemma is_empty_rev s : Str.is_empty (String.rev s) = Str.is_empty s.
Proof.
  destruct s as [|c s]; [done|]. rewrite rev_cons.
  by destruct (String.rev s).
Qed.

Lemma strip_prefix_append pre r : Str.strip_prefix pre (pre +:+ r) = Some r.
Proof.
  induction pre as [|c pre IH]; [by destruct r|].
  rewrite append_cons. simpl. by rewrite decide_True.
Qed.

Lemma strip_prefix_Some pre s r : Str.strip_prefix pre s = Some r → s = pre +:+ r.
Proof.
  revert s. induction pre as [|c pre IH]; intros s; simpl.
  - by intros [= ->].
  - destruct s as [|b s]; [done|]. destruct (decide (c = b)) as [->|]; [|done].
    intros H. by rewrite (IH _ H).
Qed.

Lemma span_digits_append ds rest :
  all_digits ds = true →
  (∀ c rest', rest = String c rest' → Str.is_digit c = false) →
  Str.span_digits (ds +:+ rest) = (ds, rest).
Proof.
  intros Hds Hrest. induction ds as [|c ds IH].
  - destruct rest as [|c rest']; [done|]. simpl.
    change ("" +:+ String c rest') with (String c rest'). simpl.
    by rewrite (Hrest c rest' eq_refl).
  - unfold all_digits in Hds. simpl in Hds. apply andb_true_iff in Hds as [Hc Hds].
    rewrite append_cons. simpl. by rewrite Hc, (IH Hds).
Qed.

Lemma span_digits_spec s ds rest :
  Str.span_digits s = (ds, rest) → s = ds +:+ rest ∧ all_digits ds = true.
Proof.
  revert ds rest. induction s as [|c s IH]; intros ds rest; simpl.
  - by intros [= <- <-].
  - destruct (Str.is_digit c) eqn:Hc.
    + destruct (Str.span_digits s) as [ds' rest'] eqn:Hs. intros [= <- <-].
      destruct (IH _ _ eq_refl) as [-> Hds]. unfold all_digits in *. simpl.
      by rewrite Hc, Hds.
    + by intros [= <- <-].
Qed.

Lemma starts_with_slash r :
  (∃ r', r = String "/" r') ∨
  (∀ r', r ≠ String "/" r') ∧
  match r with String "/" r' => r' | _ => r end = r.
Proof.
  destruct r as [|c r]; [by right|].
  destruct (decide (c = "/"%char)) as [->|Hc]; [left; eauto|].
  right. split; [congruence|].
  destruct c as [[] [] [] [] [] [] [] []]; done.
Qed.

(** The pattern read backwards from [/change]. *)
Lemma change_id_backwards r s :
  match Str.strip_prefix "egnahc/" r with
  | None => None
  | Some r' =>
      let '(ds, rest) := Str.span_digits r' in
      if Str.is_empty ds then None
      else match rest with
           | String "/" _ => Some (String.rev ds)
           | _ => None
           end
  end = Some s
  ↔ Str.is_empty s = false ∧ all_digits s = true
    ∧ ∃ rest, r = "egnahc/" +:+ (String.rev s +:+ String "/" rest).
Proof.
  split.
  - destruct (Str.strip_prefix "egnahc/" r) as [r'|] eqn:Hr; [|done].
    apply strip_prefix_Some in Hr as ->.
    destruct (Str.span_digits r') as [ds rest] eqn:Hs.
    apply span_digits_spec in Hs as [-> Hds].
    destruct (Str.is_empty ds) eqn:He; [done|].
    destruct (starts_with_slash rest) as [[rest' ->]|[Hno Heq]].
    + intros [= <-]. rewrite is_empty_rev, all_digits_rev, rev_rev. eauto.
    + intros H. exfalso. destruct rest as [|c rest]; [done|].
      destruct c as [[] [] [] [] [] [] [] []]; try done. by eapply Hno.
  - intros (He & Hds & rest & ->).
    rewrite strip_prefix_append, span_digits_append.
    + by rewrite is_empty_rev, He, rev_rev.
    + by rewrite all_digits_rev.
    + by intros c rest' [= <- _].
Qed.

(** X1: the pattern [/\/(\d+)\/change\/?$/] of [getStoreIdFromRow] yields
    [s] exactly when [s] is a non-empty string of digits and the href
    ends with [/s/change] or [/s/change/]. *)
Theorem match_change_id_spec href s :
  match_change_id href = Some s
  ↔ Str.is_empty s = false ∧ all_digits s = true
    ∧ ∃ pre, href = pre +:+ ("/" +:+ (s +:+ "/change"))
           ∨ href = pre +:+ ("/" +:+ (s +:+ "/change/")).
Proof.
  unfold match_change_id. rewrite change_id_backwards.
  split; intros (He & Hds & H); (split; [done|split; [done|]]).
  - destruct H as [rest H]. exists (String.rev rest).
    destruct (starts_with_slash (String.rev href)) as [[r' Hr]|[Hno Heq]].
    + right. rewrite Hr in H. subst r'.
      apply (f_equal String.rev) in Hr. rewrite rev_rev in Hr. rewrite Hr.
      rewrite rev_cons, rev_append, rev_append, rev_cons, rev_rev.
      rewrite !append_assoc. reflexivity.
    + left. rewrite Heq in H.
      apply (f_equal String.rev) in H. rewrite rev_rev in H. rewrite H.
      rewrite rev_append, rev_append, rev_cons, rev_rev.
      rewrite !append_assoc. reflexivity.
  - destruct H as [pre [-> | ->]].
    + exists (String.rev pre).
      rewrite !rev_append. 
      change (String.rev "/change") with "egnahc/".
      change (String.rev "/") with "/".
      rewrite !append_assoc. reflexivity.
    + exists (String.rev pre).
      rewrite !rev_append.
      change (String.rev "/change/") with ("/" +:+ "egnahc/").
      change (String.rev "/") with "/".
      rewrite !append_assoc. reflexivity.
Qed.

Lemma match_change_id_spec_witness :
  StoreEmployeeAutocompleteByService.match_change_id "/admin/app/store/123/change/" = Some "123".
Proof.
  apply match_change_id_spec. split; [reflexivity|]. split; [reflexivity|].
  exists "/admin/app/store". by right.
Defined.

(* ===================================================================== *)
(** * The row of a widget *)
(* ===================================================================== *)

Lemma matches_get d sel p : matches d sel p = true → ∃ n, get d p = Some n.
Proof. unfold matches. destruct (get d p); [eauto|done]. Qed.

Lemma find_elem d sel els p :
  p ∈ JQuery.find d sel els →
  matches d sel p = true ∧ ∃ r, r ∈ els ∧ is_proper_prefix r p = true.
Proof.
  unfold JQuery.find, doc_qsa. intros H.
  apply list_elem_of_filter in H as [Hr H].
  apply list_elem_of_filter in H as [Hm _]. split; [done|].
  apply existsb_exists in Hr as (r & Hin & Hr). exists r. split; [|done].
  by apply list_elem_of_In.
Qed.

Lemma closest_elem d sel els t :
  t ∈ JQuery.closest d sel els → ∃ c, c ∈ els ∧ Sel.closest d sel c = Some t.
Proof.
  unfold JQuery.closest. intros H. apply list_elem_of_filter in H as [H _].
  apply existsb_exists in H as (c & Hin & Hc). exists c.
  split; [by apply list_elem_of_In|]. by apply bool_decide_eq_true in Hc.
Qed.

Lemma matches_edit_link d p :
  matches d StoreEmployeeAutocompleteByService.sel_edit_link p = true →
  ∃ n href, get d p = Some n ∧ tag_of n = Some "a" ∧ getAttribute "href" n = Some href
            ∧ Str.includes "/change/" href = true.
Proof.
  unfold StoreEmployeeAutocompleteByService.sel_edit_link. rewrite matches_only.
  destruct (get d p) as [n|]; [|done].
  unfold matches_compound. simpl. rewrite !andb_true_r. intros H.
  apply andb_true_iff in H as [H Hhref].
  apply andb_true_iff in H as [_ Htag].
  apply bool_decide_eq_true in Htag.
  destruct (getAttribute "href" n) as [href|] eqn:Hh; [|done].
  exists n, href. repeat split; done.
Qed.

(** X2: [getStoreIdFromRow] of [store_employee_autocomplete_by_service.js]
    never throws; it yields [null] when the row holds no link whose href
    contains [/change/]; and an identifier it yields is read from the
    first such link inside the row, whose href matches the pattern. *)
Theorem edit_link_store_id d row :
  (∃ o, StoreEmployeeAutocompleteByService.getStoreIdFromRow d row = Val o)
  ∧ (JQuery.find d StoreEmployeeAutocompleteByService.sel_edit_link row = [] →
     StoreEmployeeAutocompleteByService.getStoreIdFromRow d row = Val None)
  ∧ (∀ s, StoreEmployeeAutocompleteByService.getStoreIdFromRow d row = Val (Some s) →
       ∃ p n href,
         head (JQuery.find d StoreEmployeeAutocompleteByService.sel_edit_link row) = Some p
         ∧ (∃ r, r ∈ row ∧ is_proper_prefix r p = true)
         ∧ get d p = Some n ∧ tag_of n = Some "a"
         ∧ getAttribute "href" n = Some href
         ∧ Str.includes "/change/" href = true
         ∧ StoreEmployeeAutocompleteByService.match_change_id href = Some s).
Proof.
  unfold StoreEmployeeAutocompleteByService.getStoreIdFromRow.
  destruct (JQuery.find d StoreEmployeeAutocompleteByService.sel_edit_link row)
    as [|p rest] eqn:E.
  - simpl. split; [eauto|]. split; [done|]. intros s [=].
  - assert (p ∈ JQuery.find d StoreEmployeeAutocompleteByService.sel_edit_link row) as Hp
      by (rewrite E; left).
    apply find_elem in Hp as [Hm Hr].
    apply matches_edit_link in Hm as (n & href & Hn & Htag & Hh & Hinc).
    simpl. rewrite Hn, Hh. split; [eauto|]. split; [done|].
    intros s [= Hs]. exists p, n, href. repeat split; done.
Qed.

Lemma edit_link_store_id_witness :
  ∃ p n href,
    head (JQuery.find (Sample.page [Sample.edit_link])
                      StoreEmployeeAutocompleteByService.sel_edit_link
                      (JQuery.closest (Sample.page [Sample.edit_link]) sel_tr [Sample.input]))
    = Some p
    ∧ (∃ r, r ∈ JQuery.closest (Sample.page [Sample.edit_link]) sel_tr [Sample.input]
            ∧ is_proper_prefix r p = true)
    ∧ get (Sample.page [Sample.edit_link]) p = Some n ∧ tag_of n = Some "a"
    ∧ getAttribute "href" n = Some href
    ∧ Str.includes "/change/" href = true
    ∧ StoreEmployeeAutocompleteByService.match_change_id href = Some "123".
Proof.
  apply (proj2 (proj2 (edit_link_store_id
                         (Sample.page [Sample.edit_link])
                         (JQuery.closest (Sample.page [Sample.edit_link]) sel_tr [Sample.input])))).
  vm_compute. reflexivity.
Defined.

Lemma fold_case_type v : fold_case "type" v = Str.lower v.
Proof. reflexivity. Qed.

Lemma fold_case_name v : fold_case "name" v = v.
Proof. reflexivity. Qed.

Lemma matches_id_input d p :
  matches d StoreChangelistFilters.sel_id_input p = true →
  ∃ n ty name, get d p = Some n ∧ tag_of n = Some "input"
               ∧ getAttribute "type" n = Some ty ∧ Str.lower ty = "hidden"
               ∧ getAttribute "name" n = Some name ∧ Str.ends_with "-id" name = true.
Proof.
  unfold StoreChangelistFilters.sel_id_input. rewrite matches_only.
  destruct (get d p) as [n|]; [|done].
  unfold matches_compound.
  cbn [c_tag c_id c_classes c_attrs forallb opt_matches]. rewrite !andb_true_r. intros H.
  apply andb_true_iff in H as [H Hattrs].
  apply andb_true_iff in H as [_ Htag].
  apply bool_decide_eq_true in Htag.
  apply andb_true_iff in Hattrs as [Htype Hname].
  destruct (getAttribute "type" n) as [ty|] eqn:Hty; [|done].
  destruct (getAttribute "name" n) as [name|] eqn:Hnm; [|done].
  unfold attr_test in Htype, Hname.
  rewrite !fold_case_type in Htype. rewrite !fold_case_name in Hname.
  apply bool_decide_eq_true in Htype.
  exists n, ty, name. repeat split; done.
Qed.

(** X3: with jQuery present, [getStoreIdFromRow] of
    [store_changelist_filters.js] always yields a string; the empty string
    when the select has no enclosing row; and a non-empty result is read
    from the first input inside the nearest enclosing row whose [type] is
    [hidden], in any case of the letters, and whose name ends with [-id]:
    it is the value of that input without its carriage returns. *)
Theorem hidden_id_store_id d selectEl :
  (∃ s, StoreChangelistFilters.getStoreIdFromRow DollarJQuery d selectEl = Val (PStr s))
  ∧ (Sel.closest d sel_tr selectEl = None →
     StoreChangelistFilters.getStoreIdFromRow DollarJQuery d selectEl = Val (PStr ""))
  ∧ (∀ s, StoreChangelistFilters.getStoreIdFromRow DollarJQuery d selectEl = Val (PStr s) →
       s ≠ "" →
       ∃ t p n ty name v,
         Sel.closest d sel_tr selectEl = Some t
         ∧ is_proper_prefix t p = true
         ∧ head (JQuery.find d StoreChangelistFilters.sel_id_input
                             (JQuery.closest d sel_tr [selectEl])) = Some p
         ∧ get d p = Some n ∧ tag_of n = Some "input"
         ∧ getAttribute "type" n = Some ty ∧ Str.lower ty = "hidden"
         ∧ getAttribute "name" n = Some name ∧ Str.ends_with "-id" name = true
         ∧ getAttribute "value" n = Some v ∧ s = Str.strip_cr v).
Proof.
  unfold StoreChangelistFilters.getStoreIdFromRow. simpl.
  destruct (JQuery.find d StoreChangelistFilters.sel_id_input
                        (JQuery.closest d sel_tr [selectEl])) as [|p rest] eqn:E.
  - simpl. split; [eauto|]. split; [done|]. by intros s [= <-].
  - assert (p ∈ JQuery.find d StoreChangelistFilters.sel_id_input
                            (JQuery.closest d sel_tr [selectEl])) as Hp
      by (rewrite E; left).
    apply find_elem in Hp as [Hm (t & Ht & Htp)].
    apply closest_elem in Ht as (c & Hc & Ht).
    apply list_elem_of_singleton in Hc as ->.
    apply matches_id_input in Hm as (n & ty & name & Hn & Htag & Hty & Hlow & Hname & Hend).
    simpl. rewrite Hn. split; [eauto|]. split; [by rewrite Ht|].
    intros s [= Hs] Hne.
    destruct (getAttribute "value" n) as [v|] eqn:Hv; simpl in Hs; [|done].
    exists t, p, n, ty, name, v. repeat split; done.
Qed.

Lemma hidden_id_store_id_witness :
  ∃ t p n ty name v,
    Sel.closest (Sample.page [id_field_as_written]) sel_tr Sample.select = Some t
    ∧ is_proper_prefix t p = true
    ∧ head (JQuery.find (Sample.page [id_field_as_written])
                        StoreChangelistFilters.sel_id_input
                        (JQuery.closest (Sample.page [id_field_as_written])
                                        sel_tr [Sample.select])) = Some p
    ∧ get (Sample.page [id_field_as_written]) p = Some n
    ∧ tag_of n = Some "input"
    ∧ getAttribute "type" n = Some ty ∧ Str.lower ty = "hidden"
    ∧ getAttribute "name" n = Some name ∧ Str.ends_with "-id" name = true
    ∧ getAttribute "value" n = Some v ∧ "123" = Str.strip_cr v.
Proof.
  apply (proj2 (proj2 (hidden_id_store_id (Sample.page [id_field_as_written]) Sample.select))).
  - vm_compute. reflexivity.
  - discriminate.
Defined.

(* ===================================================================== *)
(** * What patching changes *)
(* ===================================================================== *)

Lemma ajax_of_Some w els aj :
  ajax_of w els = Some aj →
  d_select2 (JQuery.data_of (w_data w) els) = Some (instance_with aj).
Proof.
  unfold ajax_of, settings_of.
  destruct (d_select2 (JQuery.data_of (w_data w) els)) as [[[[[[[aj'|]]|]]|]]|]; simpl; try done.
  by intros [= ->].
Qed.

Lemma patchSelect2Ajax_Some e rest w aj :
  ajax_of w (e :: rest) = Some aj →
  StoreEmployeeAutocompleteByService.patchSelect2Ajax (e :: rest) w
  = Return tt
      (set_data (<[e := MkElemData
                          (Some (instance_with
                                   (MkAjax (ajax_url aj)
                                           (DFunction (AugmentedByEditLink (ajax_data aj) (e :: rest))))))
                          (marker_of w (e :: rest))]> (w_data w)) w).
Proof.
  intros H. apply ajax_of_Some in H.
  unfold StoreEmployeeAutocompleteByService.patchSelect2Ajax, bind, gets, modify.
  rewrite H. reflexivity.
Qed.

Lemma patchSelect2Ajax_None input w :
  ajax_of w input = None →
  StoreEmployeeAutocompleteByService.patchSelect2Ajax input w = Return tt w.
Proof.
  unfold ajax_of, settings_of,
    StoreEmployeeAutocompleteByService.patchSelect2Ajax, bind, gets, modify.
  destruct input as [|e rest]; [by destruct (d_select2 _)|].
  destruct (d_select2 (JQuery.data_of (w_data w) (e :: rest))) as [[[[[[[aj'|]]|]]|]]|];
    simpl; done.
Qed.

(** X4: [patchSelect2Ajax] never throws and changes nothing but the
    jQuery data of the first element of [$input]: the data of every other
    element, the marker and the [ajax.url] are kept, and without an [ajax]
    configuration the page is left as it is. *)
Theorem patchSelect2Ajax_frame input w :
  ∃ w1, StoreEmployeeAutocompleteByService.patchSelect2Ajax input w = Return tt w1
        ∧ same_but_data w w1
        ∧ (∀ e, head input ≠ Some e → w_data w1 !! e = w_data w !! e)
        ∧ marker_of w1 input = marker_of w input
        ∧ ajax_url <$> ajax_of w1 input = ajax_url <$> ajax_of w input
        ∧ (ajax_of w input = None → w1 = w).
Proof.
  destruct (ajax_of w input) as [aj|] eqn:Haj.
  - destruct (ajax_of_nonempty _ _ _ Haj) as (e & rest & ->).
    rewrite (patchSelect2Ajax_Some _ _ _ _ Haj). eexists. split; [reflexivity|].
    split; [reflexivity|]. split; [|split; [|split]].
    + intros e' He'. simpl in *. apply lookup_insert_ne. congruence.
    + unfold marker_of at 1. simpl. by rewrite lookup_insert_eq.
    + unfold ajax_of at 1, settings_of. simpl. by rewrite lookup_insert_eq.
    + done.
  - rewrite (patchSelect2Ajax_None _ _ Haj). exists w. split; [done|].
    split; [by destruct w|]. rewrite Haj. done.
Qed.

Lemma patchEmployeeSelect2_Some el w aj :
  ajax_of w [el] = Some aj →
  truthy (marker_of w [el]) = false →
  StoreChangelistFilters.patchEmployeeSelect2 DollarJQuery el w
  = Return tt
      (set_data (<[el := MkElemData
                           (Some (instance_with
                                    (MkAjax (ajax_url aj)
                                            (DFunction (AugmentedByHiddenId DollarJQuery (ajax_data aj) el)))))
                           (PBool true)]> (w_data w)) w).
Proof.
  intros H Hm. apply ajax_of_Some in H.
  unfold StoreChangelistFilters.patchEmployeeSelect2, bind, gets, modify.
  unfold marker_of in Hm. cbn [lift not_dollar ret]. rewrite Hm, H. reflexivity.
Qed.

Lemma patchEmployeeSelect2_cases jQ el w w1 :
  StoreChangelistFilters.patchEmployeeSelect2 jQ el w = Return tt w1 →
  w1 = w
  ∨ jQ = DollarJQuery ∧ truthy (marker_of w [el]) = false ∧ ∃ aj, ajax_of w [el] = Some aj.
Proof.
  unfold StoreChangelistFilters.patchEmployeeSelect2, bind, gets, modify, marker_of,
    ajax_of, settings_of.
  destruct jQ; cbn [lift not_dollar ret throw]; [done | intros [= <-]; by left |].
  destruct (truthy (d_patchedStoreId (JQuery.data_of (w_data w) [el]))) eqn:Hm;
    [intros [= <-]; by left|].
  destruct (d_select2 (JQuery.data_of (w_data w) [el])) as [[[[[[[aj'|]]|]]|]]|];
    cbn; try done; try (intros [= <-]; by left).
  intros _. right. eauto.
Qed.

(** What a returning run of [patchEmployeeSelect2] has done: nothing, or
    the data of the select has been replaced. *)
Lemma patchEmployeeSelect2_Return jQ el w w1 :
  StoreChangelistFilters.patchEmployeeSelect2 jQ el w = Return tt w1 →
  w1 = w
  ∨ jQ = DollarJQuery ∧ truthy (marker_of w [el]) = false
    ∧ ∃ aj, ajax_of w [el] = Some aj
            ∧ w1 = set_data (<[el := patched_employee aj el]> (w_data w)) w.
Proof.
  intros H. destruct (patchEmployeeSelect2_cases _ _ _ _ H) as [->|(-> & Hm & aj & Haj)].
  - by left.
  - right. split; [done|]. split; [done|]. exists aj. split; [done|].
    rewrite (patchEmployeeSelect2_Some _ _ _ Haj Hm) in H. by injection H as <-.
Qed.

(** X5: a run of [patchEmployeeSelect2] that returns changes nothing but
    the jQuery data of the select: either the page is left as it is, or
    the marker [patchedStoreId] was falsy and is now [true] and [ajax.data]
    holds the wrapper around the function it held, with the same
    [ajax.url]. *)
Theorem patchEmployeeSelect2_frame jQ el w w1 :
  StoreChangelistFilters.patchEmployeeSelect2 jQ el w = Return tt w1 →
  same_but_data w w1
  ∧ (∀ e, e ≠ el → w_data w1 !! e = w_data w !! e)
  ∧ ajax_url <$> ajax_of w1 [el] = ajax_url <$> ajax_of w [el]
  ∧ (w1 = w
     ∨ jQ = DollarJQuery
       ∧ truthy (marker_of w [el]) = false
       ∧ marker_of w1 [el] = PBool true
       ∧ ∃ aj, ajax_of w [el] = Some aj
               ∧ ajax_of w1 [el]
                 = Some (MkAjax (ajax_url aj)
                                (DFunction (AugmentedByHiddenId jQ (ajax_data aj) el)))).
Proof.
  intros H.
  destruct (patchEmployeeSelect2_Return _ _ _ _ H) as [->|(-> & Hm & aj & Haj & ->)].
  - split; [by destruct w|]. repeat split; auto.
  - split; [reflexivity|]. split; [|split].
    + intros e He. simpl. apply lookup_insert_ne. congruence.
    + rewrite Haj. unfold ajax_of, settings_of. simpl. by rewrite lookup_insert_eq.
    + right. split; [done|]. split; [done|]. split.
      * unfold marker_of. simpl. by rewrite lookup_insert_eq.
      * exists aj. split; [done|]. unfold ajax_of, settings_of. simpl.
        by rewrite lookup_insert_eq.
Qed.

Lemma patchEmployeeSelect2_frame_witness :
  StoreChangelistFilters.patchEmployeeSelect2 DollarJQuery Sample.select
    (Sample.w_full (DFunction (Host Sample.django_data)))
  = Return tt (final (StoreChangelistFilters.patchEmployeeSelect2 DollarJQuery Sample.select
                        (Sample.w_full (DFunction (Host Sample.django_data)))))
  ∧ w_data (final (StoreChangelistFilters.patchEmployeeSelect2 DollarJQuery Sample.select
                     (Sample.w_full (DFunction (Host Sample.django_data))))) !! Sample.input
    = w_data (Sample.w_full (DFunction (Host Sample.django_data))) !! Sample.input.
Proof.
  assert (StoreChangelistFilters.patchEmployeeSelect2 DollarJQuery Sample.select
            (Sample.w_full (DFunction (Host Sample.django_data)))
          = Return tt (final (StoreChangelistFilters.patchEmployeeSelect2 DollarJQuery Sample.select
                                (Sample.w_full (DFunction (Host Sample.django_data)))))) as H
    by (vm_compute; reflexivity).
  split; [exact H|].
  apply (patchEmployeeSelect2_frame _ _ _ _ H). discriminate.
Defined.

(** X6: [patchEmployeeSelect2] throws exactly in two cases, and leaves
    the page as it is: a [ReferenceError] when the binding [$] is not
    initialised, and a [TypeError] when the select is not marked and its
    select2 instance has no [options.options]. *)
Theorem patchEmployeeSelect2_throws jQ el w e w' :
  StoreChangelistFilters.patchEmployeeSelect2 jQ el w = Throw e w'
  ↔ w' = w
    ∧ (jQ = DollarUninitialised ∧ e = ReferenceError
       ∨ jQ = DollarJQuery ∧ e = TypeError
         ∧ truthy (marker_of w [el]) = false
         ∧ ∃ s2, d_select2 (JQuery.data_of (w_data w) [el]) = Some s2
                 ∧ s2_options s2 ≫= options_options = None).
Proof.
  unfold StoreChangelistFilters.patchEmployeeSelect2, bind, gets, modify, marker_of.
  destruct jQ; cbn [lift not_dollar]; unfold ret, throw.
  - split; [intros [= <- <-]; auto|]. intros [-> [[_ ->]|[[=] _]]]. done.
  - split; [done|]. intros [_ [[[=] _]|[[=] _]]].
  - destruct (truthy (d_patchedStoreId (JQuery.data_of (w_data w) [el]))) eqn:Hm.
    + split; [done|]. intros [_ [[[=] _]|(_ & _ & [=] & _)]].
    + destruct (d_select2 (JQuery.data_of (w_data w) [el])) as [[[[[[[aj'|]]|]]|]]|];
        simpl.
      * split; [done|]. intros [_ [[[=] _]|(_ & _ & _ & s2 & [= <-] & [=])]].
      * split; [done|]. intros [_ [[[=] _]|(_ & _ & _ & s2 & [= <-] & [=])]].
      * split; [intros [= <- <-]|by intros [-> [[[=] _]|(_ & -> & _)]]].
        split; [done|]. right. eauto 10.
      * split; [intros [= <- <-]|by intros [-> [[[=] _]|(_ & -> & _)]]].
        split; [done|]. right. eauto 10.
      * split; [done|]. intros [_ [[[=] _]|(_ & _ & _ & s2 & [=] & _)]].
Qed.

(* ===================================================================== *)
(** * Requests after patching *)
(* ===================================================================== *)

Lemma request_params_fn e params w aj f :
  ajax_of w [e] = Some aj → ajax_data aj = DFunction f →
  request_params e params w = as_request (call_fn f params w).
Proof.
  intros Haj Hf. apply ajax_of_Some in Haj.
  unfold request_params, bind, gets. rewrite Haj. unfold instance_with. rewrite Hf.
  by destruct (call_fn f params w).
Qed.

Lemma call_fn_set_data f params w l w2 m :
  call_fn f params w = Return l w2 →
  call_fn f params (set_data m w) = Return l (set_data m w2).
Proof.
  intros H. apply call_fn_shape in H as (t & st & Ht & Hst & -> & ->).
  apply call_fn_shape. exists t, st. simpl. repeat split; done.
Qed.

Lemma merge_set_data sid l m w :
  merge_edit_link_id sid l (set_data m w) = set_data m (merge_edit_link_id sid l w).
Proof. by destruct sid. Qed.

(** X7: after [patchSelect2Ajax] has patched an input whose [ajax.data]
    held the function [g], a request of select2 returns the object [g]
    returns, with [store_id] of the edit link of the row written into it
    (and nothing written when the row has none); the rest of the page is
    as [g] leaves it. *)
Theorem patched_request_by_edit_link e rest w aj g params l w2 :
  ajax_of w (e :: rest) = Some aj →
  ajax_data aj = DFunction g →
  call_fn g params w = Return l w2 →
  ∃ w1 sid,
    StoreEmployeeAutocompleteByService.patchSelect2Ajax (e :: rest) w = Return tt w1
    ∧ edit_link_id w (e :: rest) = Val sid
    ∧ request_params e params w1
      = Return (Some l) (set_data (w_data w1) (merge_edit_link_id sid l w2)).
Proof.
  intros Haj Hg Hcall.
  destruct (edit_link_id_total w (e :: rest)) as [sid Hsid].
  eexists _, sid. split; [by apply patchSelect2Ajax_Some|]. split; [done|].
  erewrite request_params_fn; cycle 1.
  - unfold ajax_of, settings_of. simpl. rewrite lookup_insert_eq. reflexivity.
  - reflexivity.
  - rewrite Hg.
    match goal with |- as_request ?o = _ => assert (o = Return l
      (merge_edit_link_id sid l (set_data (<[e := MkElemData
          (Some (instance_with (MkAjax (ajax_url aj)
                   (DFunction (AugmentedByEditLink (DFunction g) (e :: rest))))))
          (marker_of w (e :: rest))]> (w_data w)) w2))) as -> end.
    + apply call_edit_link_Return. eexists _, sid.
      split; [|split; [exact Hsid | reflexivity]].
      unfold StoreEmployeeAutocompleteByService.initial_data. simpl.
      by apply call_fn_set_data.
    + simpl. by rewrite merge_set_data.
Qed.

Lemma patched_request_by_edit_link_witness :
  ∃ w1 sid,
    StoreEmployeeAutocompleteByService.patchSelect2Ajax [Sample.input]
      (Sample.w_link (DFunction (Host Sample.django_data))) = Return tt w1
    ∧ edit_link_id (Sample.w_link (DFunction (Host Sample.django_data))) [Sample.input] = Val sid
    ∧ request_params Sample.input 0 w1
      = Return (Some 1)
          (set_data (w_data w1)
             (merge_edit_link_id sid 1
                (final (call_fn (Host Sample.django_data) 0
                                (Sample.w_link (DFunction (Host Sample.django_data))))))).
Proof.
  apply (patched_request_by_edit_link Sample.input [] _
           (MkAjax "/autocomplete/" (DFunction (Host Sample.django_data)))
           (Host Sample.django_data)); vm_compute; reflexivity.
Defined.

(** X8: after [patchEmployeeSelect2] has patched an unmarked select whose
    [ajax.data] held the function [g], a request of select2 returns the
    object [g] returns, with [store_id] set to the value of the hidden id
    field of the row. *)
Theorem patched_request_by_hidden_id el w aj g params l w2 :
  ajax_of w [el] = Some aj →
  truthy (marker_of w [el]) = false →
  ajax_data aj = DFunction g →
  call_fn g params w = Return l w2 →
  ∃ w1 v,
    StoreChangelistFilters.patchEmployeeSelect2 DollarJQuery el w = Return tt w1
    ∧ hidden_id DollarJQuery w el = Val v
    ∧ request_params el params w1
      = Return (Some l) (set_data (w_data w1) (with_store_id l v w2)).
Proof.
  intros Haj Hm Hg Hcall.
  destruct (hidden_id_total w el) as [v Hv].
  eexists _, v. split; [by apply patchEmployeeSelect2_Some|]. split; [done|].
  erewrite request_params_fn; cycle 1.
  - unfold ajax_of, settings_of. simpl. rewrite lookup_insert_eq. reflexivity.
  - reflexivity.
  - rewrite Hg.
    match goal with |- as_request ?o = _ => assert (o = Return l
      (with_store_id l v (set_data (<[el := MkElemData
          (Some (instance_with (MkAjax (ajax_url aj)
                   (DFunction (AugmentedByHiddenId DollarJQuery (DFunction g) el)))))
          (PBool true)]> (w_data w)) w2))) as -> end.
    + apply call_hidden_id_Return. eexists _, v.
      split; [|split; [exact Hv | reflexivity]].
      simpl. by apply call_fn_set_data.
    + reflexivity.
Qed.

Lemma patched_request_by_hidden_id_witness :
  ∃ w1 v,
    StoreChangelistFilters.patchEmployeeSelect2 DollarJQuery Sample.select
      (Sample.w_full (DFunction (Host Sample.django_data))) = Return tt w1
    ∧ hidden_id DollarJQuery (Sample.w_full (DFunction (Host Sample.django_data))) Sample.select
      = Val v
    ∧ request_params Sample.select 0 w1
      = Return (Some 1)
          (set_data (w_data w1)
             (with_store_id 1 v
                (final (call_fn (Host Sample.django_data) 0
                                (Sample.w_full (DFunction (Host Sample.django_data))))))).
Proof.
  apply (patched_request_by_hidden_id Sample.select _
           (MkAjax "/autocomplete/" (DFunction (Host Sample.django_data)))
           (Host Sample.django_data)); vm_compute; reflexivity.
Defined.

Lemma with_store_id_again l v w : with_store_id l v (with_store_id l v w) = with_store_id l v w.
Proof.
  pose proof (alter_store_id_again v (Some v) l (w_heap w)) as H.
  unfold stamp_at in H. unfold with_store_id. simpl. by rewrite H.
Qed.

Lemma merge_edit_link_id_again sid l w :
  merge_edit_link_id sid l (merge_edit_link_id sid l w) = merge_edit_link_id sid l w.
Proof. destruct sid; [apply with_store_id_again | done]. Qed.

Lemma wrapper_of_wrapper old input params w :
  call_fn (AugmentedByEditLink (DFunction (AugmentedByEditLink old input)) input) params w
  = call_fn (AugmentedByEditLink old input) params w.
Proof.
  destruct (call_fn (AugmentedByEditLink old input) params w) as [l w1|e w1] eqn:E.
  - pose proof E as E'.
    apply call_edit_link_Return in E' as (w0 & sid & H0 & Hsid & ->).
    apply call_edit_link_Return. eexists _, sid.
    split; [exact E|]. split; [done|]. by rewrite merge_edit_link_id_again.
  - change (call_fn (AugmentedByEditLink (DFunction (AugmentedByEditLink old input)) input) params w)
      with (StoreEmployeeAutocompleteByService.augmented call_fn
              (DFunction (AugmentedByEditLink old input)) input params w).
    unfold StoreEmployeeAutocompleteByService.augmented at 1, bind.
    unfold StoreEmployeeAutocompleteByService.initial_data, call_value.
    change (dval_truthy (DFunction (AugmentedByEditLink old input))) with true.
    cbv iota. by rewrite E.
Qed.

Lemma stacked_as_one n old input params w :
  call_fn (stacked n old input) params w = call_fn (AugmentedByEditLink old input) params w.
Proof.
  revert params w. induction n as [|n IH]; intros params w; [done|].
  rewrite <- wrapper_of_wrapper.
  change (StoreEmployeeAutocompleteByService.augmented call_fn
            (DFunction (stacked n old input)) input params w
          = StoreEmployeeAutocompleteByService.augmented call_fn
              (DFunction (AugmentedByEditLink old input)) input params w).
  unfold StoreEmployeeAutocompleteByService.augmented, bind,
    StoreEmployeeAutocompleteByService.initial_data, call_value.
  change (dval_truthy (DFunction (stacked n old input))) with true.
  change (dval_truthy (DFunction (AugmentedByEditLink old input))) with true.
  cbv iota. by rewrite IH.
Qed.

Lemma open_times_stacks widget input url old : ∀ n k w,
  JQuery.find (w_doc w) StoreEmployeeAutocompleteByService.sel_hidden_input [widget] = input →
  ajax_of w input = Some (MkAjax url (DFunction (stacked k old input))) →
  ∃ wn, open_times n widget w = Return tt wn
        ∧ same_but_data w wn
        ∧ ajax_of wn input = Some (MkAjax url (DFunction (stacked (n + k) old input))).
Proof.
  induction n as [|n IH]; intros k w Hfind Haj.
  - exists w. split; [done|]. split; [by destruct w|done].
  - destruct (ajax_of_nonempty _ _ _ Haj) as (e & rest & Hin).
    assert (StoreEmployeeAutocompleteByService.on_opening widget w
            = StoreEmployeeAutocompleteByService.patchSelect2Ajax input w) as Hopen.
    { apply on_opening_patches; [done | by rewrite Hin]. }
    rewrite Hin in Haj, Hopen. rewrite (patchSelect2Ajax_Some _ _ _ _ Haj) in Hopen.
    simpl in Hopen. rewrite <- Hin in Hopen.
    match type of Hopen with _ = Return tt ?w1 =>
      destruct (IH (S k) w1) as (wn & Hrun & Hsame & Hajn) end.
    + done.
    + rewrite Hin. unfold ajax_of, settings_of. simpl. rewrite lookup_insert_eq.
      simpl. by rewrite <- Hin.
    + exists wn. split; [|split].
      * simpl. unfold bind. rewrite Hopen. exact Hrun.
      * rewrite Hsame. by destruct w.
      * rewrite Hajn. by rewrite Nat.add_succ_r.
Qed.

(** X9: however often a widget of
    [store_employee_autocomplete_by_service.js] is opened, the function
    left in [ajax.data] is a stack of wrappers, and a request runs as if
    one wrapper had been installed around the original value. *)
Theorem reopened_widget_requests_as_one n w widget input aj e :
  JQuery.find (w_doc w) StoreEmployeeAutocompleteByService.sel_hidden_input [widget] = input →
  head input = Some e →
  ajax_of w input = Some aj →
  ∃ wn, open_times (S n) widget w = Return tt wn
        ∧ same_but_data w wn
        ∧ ajax_of wn input = Some (MkAjax (ajax_url aj) (DFunction (stacked n (ajax_data aj) input)))
        ∧ ∀ params,
            request_params e params wn
            = as_request (call_fn (AugmentedByEditLink (ajax_data aj) input) params wn).
Proof.
  intros Hfind He Haj.
  destruct input as [|e' rest]; [done|]. injection He as ->.
  assert (StoreEmployeeAutocompleteByService.on_opening widget w
          = StoreEmployeeAutocompleteByService.patchSelect2Ajax (e :: rest) w) as Hopen.
  { by apply on_opening_patches. }
  rewrite (patchSelect2Ajax_Some _ _ _ _ Haj) in Hopen.
  match type of Hopen with _ = Return tt ?w1 =>
    destruct (open_times_stacks widget (e :: rest) (ajax_url aj) (ajax_data aj) n 0 w1)
      as (wn & Hrun & Hsame & Hajn) end.
  - done.
  - unfold ajax_of, settings_of. simpl. by rewrite lookup_insert_eq.
  - exists wn. rewrite Nat.add_0_r in Hajn. split; [|split; [|split]].
    + simpl. unfold bind. rewrite Hopen. exact Hrun.
    + rewrite Hsame. by destruct w.
    + done.
    + intros params.
      rewrite (request_params_fn e params wn _ _ Hajn eq_refl).
      by rewrite stacked_as_one.
Qed.

Lemma reopened_widget_requests_as_one_witness :
  ∃ wn,
    open_times 3 Sample.widget (Sample.w_link (DFunction (Host Sample.django_data)))
    = Return tt wn
    ∧ same_but_data (Sample.w_link (DFunction (Host Sample.django_data))) wn
    ∧ ajax_of wn [Sample.input]
      = Some (MkAjax "/autocomplete/"
                (DFunction (stacked 2 (DFunction (Host Sample.django_data)) [Sample.input])))
    ∧ ∀ params,
        request_params Sample.input params wn
        = as_request (call_fn (AugmentedByEditLink (DFunction (Host Sample.django_data))
                                                   [Sample.input]) params wn).
Proof.
  apply (reopened_widget_requests_as_one 2 _ Sample.widget [Sample.input]
           (MkAjax "/autocomplete/" (DFunction (Host Sample.django_data))) Sample.input);
    vm_compute; reflexivity.
Defined.

Lemma request_params_Some e params w l w1 :
  request_params e params w = Return (Some l) w1 →
  ∃ f, call_fn f params w = Return l w1.
Proof.
  unfold request_params, bind, gets.
  destruct (d_select2 (JQuery.data_of (w_data w) [e])) as [[[[[[[[url data]|]]|]]|]]|];
    simpl; try done.
  destruct data as [| | |f]; simpl; try done.
  destruct (call_fn f params w) as [l' w'|] eqn:E; [|done].
  intros [= <- <-]. eauto.
Qed.

(** X10: a request that returns an object changes the heap and the count
    of host calls only; it calls at most one host function, leaves every
    other object that existed as it was, and changes no property of the
    returned object but [store_id]. *)
Theorem request_writes_store_id_only e params w l w1 :
  request_params e params w = Return (Some l) w1 →
  same_page w w1
  ∧ w_host_calls w1 ≤ S (w_host_calls w)
  ∧ (∀ l', l' ≠ l → l' < length (w_heap w) → obj_at w1 l' = obj_at w l')
  ∧ (∀ key, key ≠ "store_id" → l < length (w_heap w) → prop_at w1 l key = prop_at w l key).
Proof.
  intros H. apply request_params_Some in H as [f Hf].
  split; [by eapply call_fn_Return_same_page|].
  split.
  { pose proof (host_called_at_most_once f params w) as Hh. by rewrite Hf in Hh. }
  apply call_fn_shape in Hf as (t & st & _ & _ & -> & ->).
  unfold obj_at, prop_at, obj_at. simpl. destruct t as [o|l0]; simpl.
  - split.
    + intros l' Hne Hlt. rewrite lookup_stamp_at_ne by done. by apply lookup_app_l.
    + intros key _ Hlt. lia.
  - split.
    + intros l' Hne Hlt. by rewrite lookup_stamp_at_ne.
    + intros key Hkey _. rewrite lookup_stamp_at.
      destruct (w_heap w !! l0) as [o|]; simpl; [|done].
      destruct st as [v|]; simpl; [|done]. by rewrite lookup_insert_ne.
Qed.

Lemma request_writes_store_id_only_witness :
  prop_at (final (Sample.by_service (Sample.w_link DUndefined))) 0 "term"
  = prop_at (final (StoreEmployeeAutocompleteByService.patchSelect2Ajax [Sample.input]
                      (Sample.w_link DUndefined))) 0 "term".
Proof.
  apply (request_writes_store_id_only Sample.input 0
           (final (StoreEmployeeAutocompleteByService.patchSelect2Ajax [Sample.input]
                     (Sample.w_link DUndefined)))
           0 (final (Sample.by_service (Sample.w_link DUndefined)))).
  - vm_compute. reflexivity.
  - discriminate.
  - vm_compute. lia.
Defined.

(* ===================================================================== *)
(** * Patching the employee selects *)
(* ===================================================================== *)

Lemma open_times_employee_settled jQ el w :
  StoreChangelistFilters.on_opening jQ el w = Return tt w →
  ∀ n, open_times_employee jQ n el w = Return tt w.
Proof.
  intros H n. induction n as [|n IH]; [done|].
  simpl. unfold bind. by rewrite H.
Qed.

(** X11: in [store_changelist_filters.js] the first opening of a select
    decides: any number of further openings leaves the page as the first
    one left it. *)
Theorem employee_select_patched_once jQ el w w1 :
  StoreChangelistFilters.on_opening jQ el w = Return tt w1 →
  ∀ n, open_times_employee jQ (S n) el w = Return tt w1.
Proof.
  intros H n. simpl. unfold bind. rewrite H.
  apply open_times_employee_settled.
  by apply (patchEmployeeSelect2_idempotent jQ el w w1).
Qed.

Lemma employee_select_patched_once_witness :
  open_times_employee DollarJQuery 3 Sample.select
    (Sample.w_full (DFunction (Host Sample.django_data)))
  = Return tt (final (StoreChangelistFilters.on_opening DollarJQuery Sample.select
                        (Sample.w_full (DFunction (Host Sample.django_data))))).
Proof.
  apply employee_select_patched_once. vm_compute. reflexivity.
Defined.

Lemma data_of_lookup w w' el :
  w_data w' !! el = w_data w !! el →
  ajax_of w' [el] = ajax_of w [el] ∧ marker_of w' [el] = marker_of w [el].
Proof.
  intros H. unfold ajax_of, settings_of, marker_of. simpl. by rewrite H.
Qed.

Lemma patchEmployeeSelect2_settled_lookup jQ el w w' :
  StoreChangelistFilters.patchEmployeeSelect2 jQ el w = Return tt w →
  w_data w' !! el = w_data w !! el →
  StoreChangelistFilters.patchEmployeeSelect2 jQ el w' = Return tt w'.
Proof.
  intros H Heq.
  assert (JQuery.data_of (w_data w') [el] = JQuery.data_of (w_data w) [el]) as Hd
    by (simpl; by rewrite Heq).
  destruct jQ; [done|done|].
  destruct (truthy (marker_of w [el])) eqn:Hmw.
  - unfold StoreChangelistFilters.patchEmployeeSelect2, bind, gets.
    cbn [lift not_dollar ret]. unfold marker_of in Hmw. by rewrite Hd, Hmw.
  - destruct (ajax_of w [el]) as [aj|] eqn:Hajw.
    + rewrite (patchEmployeeSelect2_Some _ _ _ Hajw Hmw) in H.
      injection H as H. apply (f_equal (fun x => w_data x !! el)) in H.
      simpl in H. rewrite lookup_insert_eq in H.
      unfold marker_of in Hmw. simpl in Hmw. rewrite <- H in Hmw. done.
    + revert H. unfold StoreChangelistFilters.patchEmployeeSelect2, bind, gets.
      cbn [lift not_dollar ret]. unfold marker_of in Hmw. rewrite Hd, Hmw.
      unfold ajax_of, settings_of in Hajw.
      destruct (d_select2 (JQuery.data_of (w_data w) [el])) as [[[[[[[aj'|]]|]]|]]|];
        simpl in *; done.
Qed.

Lemma forEach_patch_settled l w :
  (∀ el, el ∈ l → StoreChangelistFilters.patchEmployeeSelect2 DollarJQuery el w = Return tt w) →
  StoreChangelistFilters.forEach_patch DollarJQuery l w = Return tt w.
Proof.
  induction l as [|el l IH]; intros H; [done|].
  simpl. unfold bind. rewrite (H el) by left. apply IH. intros el' Hel. apply H. by right.
Qed.

(** What one run of the loop of [initEmployeeAutocompletePatching] has
    done to the data of one element. *)
Lemma forEach_patch_spec l : ∀ w w1,
  StoreChangelistFilters.forEach_patch DollarJQuery l w = Return tt w1 →
  same_but_data w w1
  ∧ ∀ el,
      (el ∉ l → w_data w1 !! el = w_data w !! el)
      ∧ (el ∈ l → StoreChangelistFilters.patchEmployeeSelect2 DollarJQuery el w1 = Return tt w1)
      ∧ (el ∈ l → ∀ aj, ajax_of w [el] = Some aj → truthy (marker_of w [el]) = false →
           w_data w1 !! el = Some (patched_employee aj el))
      ∧ (w_data w1 !! el = w_data w !! el
         ∨ ∃ aj, ajax_of w [el] = Some aj ∧ truthy (marker_of w [el]) = false
                 ∧ w_data w1 !! el = Some (patched_employee aj el)).
Proof.
  induction l as [|el0 rest IH]; intros w w1 H.
  - injection H as <-. split; [by destruct w|]. intros el.
    split; [done|]. split; [by intros ?%elem_of_nil|]. split; [by intros ?%elem_of_nil|].
    by left.
  - simpl in H. apply bind_Return in H as ([] & wa & Hpatch & Hrest).
    destruct (IH _ _ Hrest) as [Hsame IHel].
    assert (same_but_data w wa
            ∧ (∀ e, e ≠ el0 → w_data wa !! e = w_data w !! e)
            ∧ (wa = w
               ∨ truthy (marker_of w [el0]) = false ∧ marker_of wa [el0] = PBool true
                 ∧ ∃ aj, ajax_of w [el0] = Some aj)) as (Hsame0 & Hframe & Hcase).
    { destruct (patchEmployeeSelect2_Return _ _ _ _ Hpatch) as [->|(_ & Hm & aj & Haj & ->)].
      - split; [by destruct w|]. split; [done|]. by left.
      - split; [reflexivity|]. split.
        + intros e He. simpl. apply lookup_insert_ne. congruence.
        + right. split; [done|]. split; [|by exists aj].
          unfold marker_of. simpl. by rewrite lookup_insert_eq. }
    split; [rewrite Hsame, Hsame0; by destruct w|].
    assert (∀ el, w_data w1 !! el = w_data w !! el
                  ∨ ∃ aj, ajax_of w [el] = Some aj ∧ truthy (marker_of w [el]) = false
                          ∧ w_data w1 !! el = Some (patched_employee aj el)) as Hd.
    { intros el. destruct (IHel el) as (_ & _ & _ & Hda).
      destruct (decide (el = el0)) as [->|Hne].
      - destruct Hcase as [->|(Hm & Hm1 & aj & Haj)]; [done|].
        right. exists aj. split; [done|]. split; [done|].
        rewrite (patchEmployeeSelect2_Some _ _ _ Haj Hm) in Hpatch.
        injection Hpatch as <-.
        destruct Hda as [->|(aj' & _ & Hm' & _)].
        + simpl. by rewrite lookup_insert_eq.
        + by rewrite Hm1 in Hm'.
      - destruct (data_of_lookup _ _ _ (Hframe el Hne)) as [Haj Hm].
        rewrite <- (Hframe el Hne), <- Haj, <- Hm. exact Hda. }
    intros el. destruct (IHel el) as (Ha & Hb & Hc & _).
    split; [|split; [|split; [|apply Hd]]].
    + intros Hnin. apply not_elem_of_cons in Hnin as [Hne Hnin].
      rewrite (Ha Hnin). by apply Hframe.
    + intros Hin. destruct (decide (el ∈ rest)) as [Hr|Hr]; [by apply Hb|].
      apply elem_of_cons in Hin as [->|Hin]; [|done].
      apply (patchEmployeeSelect2_settled_lookup _ _ wa); [|by apply Ha].
      by apply (patchEmployeeSelect2_idempotent _ _ w).
    + intros Hin aj Haj Hm.
      destruct (Hd el) as [Heq|(aj' & Haj' & _ & Hp)].
      * destruct (decide (el = el0)) as [->|Hne].
        -- rewrite (patchEmployeeSelect2_Some _ _ _ Haj Hm) in Hpatch.
           injection Hpatch as <-.
           destruct (IHel el0) as (_ & _ & _ & [Hsame1|(aj' & _ & Hm' & _)]).
           ++ rewrite Hsame1. simpl. by rewrite lookup_insert_eq.
           ++ unfold marker_of in Hm'. simpl in Hm'. by rewrite lookup_insert_eq in Hm'.
        -- apply elem_of_cons in Hin as [->|Hin]; [done|].
           destruct (data_of_lookup _ _ _ (Hframe el Hne)) as [Haj0 Hm0].
           apply Hc; [done | by rewrite Haj0 | by rewrite Hm0].
      * rewrite Haj in Haj'. by injection Haj' as <-.
Qed.

(** X12: a run of [initEmployeeAutocompletePatching] that returns leaves
    the document as it is and adds one delegated listener; the data of
    elements that are not employee selects is kept; every employee select
    that had an [ajax] configuration and no marker now holds the wrapper
    around its function; on every employee select a further patch changes
    nothing; and a second run only adds the listener once more. *)
Theorem init_patches_listed_selects w w1 :
  StoreChangelistFilters.initEmployeeAutocompletePatching DollarJQuery w = Return tt w1 →
  w_doc w1 = w_doc w
  ∧ w_doc_listeners w1 = w_doc_listeners w ++ [("select2:opening", CbPatchOnOpeningEmployee)]
  ∧ (∀ el, el ∉ querySelectorAll (w_doc w) None StoreChangelistFilters.sel_employee_select →
       w_data w1 !! el = w_data w !! el)
  ∧ (∀ el aj, el ∈ querySelectorAll (w_doc w) None StoreChangelistFilters.sel_employee_select →
       ajax_of w [el] = Some aj → truthy (marker_of w [el]) = false →
       w_data w1 !! el = Some (patched_employee aj el))
  ∧ (∀ el, el ∈ querySelectorAll (w_doc w) None StoreChangelistFilters.sel_employee_select →
       StoreChangelistFilters.patchEmployeeSelect2 DollarJQuery el w1 = Return tt w1)
  ∧ StoreChangelistFilters.initEmployeeAutocompletePatching DollarJQuery w1
    = Return tt (add_doc_listener "select2:opening" CbPatchOnOpeningEmployee w1).
Proof.
  unfold StoreChangelistFilters.initEmployeeAutocompletePatching, bind, gets, modify.
  cbn [lift not_dollar ret].
  destruct (StoreChangelistFilters.forEach_patch DollarJQuery
              (querySelectorAll (w_doc w) None StoreChangelistFilters.sel_employee_select) w)
    as [[] wa|] eqn:Hrun; [|done].
  intros [= <-].
  destruct (forEach_patch_spec _ _ _ Hrun) as [Hsame Hel].
  assert (w_doc wa = w_doc w) as Hdoc by (by rewrite Hsame).
  assert (∀ el, el ∈ querySelectorAll (w_doc w) None StoreChangelistFilters.sel_employee_select →
            StoreChangelistFilters.patchEmployeeSelect2 DollarJQuery el
              (add_doc_listener "select2:opening" CbPatchOnOpeningEmployee wa)
            = Return tt (add_doc_listener "select2:opening" CbPatchOnOpeningEmployee wa))
    as Hsettled.
  { intros el Hin. apply (patchEmployeeSelect2_settled_lookup _ _ wa); [|done].
    by apply Hel. }
  split; [done|]. split; [by rewrite Hsame|].
  split; [intros el Hin; by apply Hel|].
  split; [intros el aj Hin Haj Hm; by apply (Hel el)|].
  split; [done|].
  change (w_doc (add_doc_listener "select2:opening" CbPatchOnOpeningEmployee wa))
    with (w_doc wa).
  rewrite Hdoc. by rewrite (forEach_patch_settled _ _ Hsettled).
Qed.

Lemma init_patches_listed_selects_witness :
  w_data (final (StoreChangelistFilters.initEmployeeAutocompletePatching DollarJQuery
                   (Sample.w_full (DFunction (Host Sample.django_data))))) !! Sample.select
  = Some (patched_employee (MkAjax "/autocomplete/" (DFunction (Host Sample.django_data)))
                           Sample.select).
Proof.
  pose proof (init_patches_listed_selects
                (Sample.w_full (DFunction (Host Sample.django_data)))
                (final (StoreChangelistFilters.initEmployeeAutocompletePatching DollarJQuery
                          (Sample.w_full (DFunction (Host Sample.django_data)))))
                ltac:(vm_compute; reflexivity)) as (_ & _ & _ & H & _).
  apply H.
  - vm_compute. left.
  - vm_compute. reflexivity.
  - reflexivity.
Defined.

(* ===================================================================== *)
(** * The query string, read back *)
(* ===================================================================== *)

Lemma sp_delete_cons a k v (l : URLSearchParams) :
  sp_delete a ((k, v) :: l) = if decide (k = a) then sp_delete a l else (k, v) :: sp_delete a l.
Proof.
  unfold sp_delete. rewrite filter_cons. simpl.
  destruct (decide (k ≠ a)), (decide (k = a)); done.
Qed.

Lemma named_cons a k v (l : URLSearchParams) :
  named a ((k, v) :: l) = if decide (k = a) then (k, v) :: named a l else named a l.
Proof. unfold named. rewrite filter_cons. simpl. by destruct (decide (k = a)). Qed.

Lemma sp_delete_id name (l : URLSearchParams) : name ∉ names l → sp_delete name l = l.
Proof.
  induction l as [|[k v] l IH]; [done|]. simpl.
  intros Hnotin. apply not_elem_of_cons in Hnotin as [Hne Hl].
  rewrite sp_delete_cons. destruct (decide (k = name)); [congruence|]. by rewrite IH.
Qed.

Lemma sp_delete_idem name (l : URLSearchParams) :
  sp_delete name (sp_delete name l) = sp_delete name l.
Proof. apply sp_delete_id, sp_delete_absent. Qed.

Lemma sp_delete_comm a b (l : URLSearchParams) :
  sp_delete a (sp_delete b l) = sp_delete b (sp_delete a l).
Proof.
  induction l as [|[k v] l IH]; [done|].
  rewrite !sp_delete_cons.
  destruct (decide (k = b)), (decide (k = a)); rewrite ?sp_delete_cons;
    repeat case_decide; try congruence.
Qed.

Lemma sp_delete_set a v (l : URLSearchParams) :
  sp_delete a (sp_set a v l) = sp_delete a l.
Proof.
  induction l as [|[k v0] l IH]; simpl.
  - rewrite sp_delete_cons. by rewrite decide_True.
  - destruct (decide (k = a)) as [->|Hne].
    + rewrite !sp_delete_cons, !decide_True by done. apply sp_delete_idem.
    + rewrite !sp_delete_cons, !decide_False by done. by rewrite IH.
Qed.

Lemma sp_delete_set_ne a b v (l : URLSearchParams) :
  a ≠ b → sp_delete a (sp_set b v l) = sp_set b v (sp_delete a l).
Proof.
  intros Hab. induction l as [|[k v0] l IH]; simpl.
  - rewrite sp_delete_cons. by rewrite decide_False by congruence.
  - destruct (decide (k = b)) as [->|Hne].
    + rewrite !sp_delete_cons, !decide_False by congruence. simpl.
      rewrite decide_True by done. by rewrite sp_delete_comm.
    + rewrite !sp_delete_cons. destruct (decide (k = a)); [done|].
      simpl. rewrite decide_False by done. by rewrite IH.
Qed.

Lemma sp_set_idem a v (l : URLSearchParams) : sp_set a v (sp_set a v l) = sp_set a v l.
Proof.
  induction l as [|[k v0] l IH]; simpl.
  - rewrite decide_True by done. done.
  - destruct (decide (k = a)) as [->|Hne]; simpl.
    + rewrite decide_True by done. by rewrite sp_delete_idem.
    + rewrite decide_False by done. by rewrite IH.
Qed.

Lemma getCurrent_updated (url url' : URL) (param value : string) :
  searchParams url' = StoreChangelistFilters.updated_params param value url →
  StoreChangelistFilters.getCurrent param url' = value.
Proof.
  intros H. unfold StoreChangelistFilters.getCurrent. rewrite H.
  unfold StoreChangelistFilters.updated_params.
  destruct value as [|c value]; simpl.
  - by rewrite sp_get_absent by apply sp_delete_absent.
  - by rewrite sp_get_set.
Qed.

(** X13: on the page [updateQuery(param, value)] navigates to,
    [getCurrent(param)] is [value], and [updateQuery] with the same
    arguments would lead to the same query parameters. *)
Theorem getCurrent_after_update (url url' : URL) (param value : string) :
  searchParams url' = StoreChangelistFilters.updated_params param value url →
  StoreChangelistFilters.getCurrent param url' = value
  ∧ StoreChangelistFilters.updated_params param value url' = searchParams url'.
Proof.
  intros H. split; [by eapply getCurrent_updated|].
  unfold StoreChangelistFilters.updated_params. rewrite H.
  unfold StoreChangelistFilters.updated_params.
  destruct value as [|c value]; simpl.
  - rewrite (sp_delete_id "p") by apply sp_delete_names, sp_delete_absent.
    apply sp_delete_idem.
  - destruct (decide (param = "p")) as [->|Hne].
    + by rewrite sp_delete_set, sp_delete_idem.
    + rewrite sp_delete_set_ne by congruence. by rewrite sp_delete_idem, sp_set_idem.
Qed.

Lemma getCurrent_after_update_witness :
  StoreChangelistFilters.getCurrent "service"
    (MkURL "/admin/app/store/"
       (StoreChangelistFilters.updated_params "service" "merch_only"
          (w_url (Sample.w_link DUndefined))) "")
  = "merch_only".
Proof.
  apply (getCurrent_after_update (w_url (Sample.w_link DUndefined))). reflexivity.
Defined.

Lemma named_nil_absent name (l : URLSearchParams) : named name l = [] → name ∉ names l.
Proof.
  induction l as [|[k v] l IH]; simpl; [intros _; apply not_elem_of_nil|].
  rewrite named_cons. destruct (decide (k = name)); [done|].
  intros H. apply not_elem_of_cons. split; [congruence | by apply IH].
Qed.

Lemma sp_get_named name (l : URLSearchParams) : sp_get name l = snd <$> head (named name l).
Proof.
  induction l as [|[k v] l IH]; [done|]. simpl. rewrite named_cons.
  by destruct (decide (k = name)).
Qed.

Lemma sp_set_same name v (l : URLSearchParams) :
  named name l = [(name, v)] → sp_set name v l = l.
Proof.
  induction l as [|[k v0] l IH]; [done|]. simpl. rewrite named_cons.
  destruct (decide (k = name)) as [->|Hne].
  - intros [= -> Hrest]. by rewrite sp_delete_id by by apply named_nil_absent.
  - intros H. by rewrite IH.
Qed.

Lemma named_sp_delete a b (l : URLSearchParams) :
  a ≠ b → named a (sp_delete b l) = named a l.
Proof.
  intros Hab. induction l as [|[k v] l IH]; [done|].
  rewrite sp_delete_cons, named_cons. destruct (decide (k = b)) as [->|Hkb].
  - by rewrite decide_False by congruence.
  - rewrite named_cons. by rewrite IH.
Qed.

(** X14: when [param] is not ["p"] and occurs at most once, with a
    non-empty value, [updateQuery(param, getCurrent(param))] keeps the
    query parameters as they are, except that ["p"] is removed. *)
Theorem reselecting_current_keeps_query (url : URL) (param : string) :
  param ≠ "p" →
  named param (searchParams url) = []
  ∨ (∃ v, v ≠ "" ∧ named param (searchParams url) = [(param, v)]) →
  StoreChangelistFilters.updated_params param (StoreChangelistFilters.getCurrent param url) url
  = sp_delete "p" (searchParams url).
Proof.
  intros Hp H. unfold StoreChangelistFilters.getCurrent, StoreChangelistFilters.updated_params.
  rewrite sp_get_named. destruct H as [H|(v & Hv & H)]; rewrite H; simpl.
  - apply sp_delete_id, named_nil_absent. by rewrite named_sp_delete.
  - destruct v as [|c v]; [done|]. simpl.
    apply sp_set_same. by rewrite named_sp_delete.
Qed.

Lemma reselecting_current_keeps_query_witness :
  StoreChangelistFilters.updated_params "service"
    (StoreChangelistFilters.getCurrent "service" (w_url (Sample.w_link DUndefined)))
    (w_url (Sample.w_link DUndefined))
  = sp_delete "p" (searchParams (w_url (Sample.w_link DUndefined))).
Proof.
  apply reselecting_current_keeps_query; [discriminate|].
  right. exists "both". split; [discriminate|]. vm_compute. reflexivity.
Defined.

(* ===================================================================== *)
(** * Splitting on white space *)
(* ===================================================================== *)

Section Split.

Variable seps : list string.
Hypothesis seps_encodings : Forall (fun c => is_encoding c = true) seps.

Lemma starts_with_continuation t : ∀ v r,
  string_forall is_continuation t = true → at_boundary r = true →
  Str.starts_with t (v +:+ r) = Str.starts_with t v.
Proof.
  induction t as [|x t IH]; intros v r Ht Hr; [done|].
  simpl in Ht. apply andb_true_iff in Ht as [Hx Ht].
  destruct v as [|b v].
  - change ("" +:+ r) with r. destruct r as [|y r]; [done|]. simpl in *.
    destruct (decide (x = y)) as [->|]; [|done]. by rewrite Hx in Hr.
  - rewrite append_cons. simpl. destruct (decide (x = b)); [by apply IH|done].
Qed.

Lemma starts_with_local c v r :
  is_encoding c = true → Str.is_empty v = false → at_boundary r = true →
  Str.starts_with c (v +:+ r) = Str.starts_with c v.
Proof.
  intros Hc Hv Hr. destruct c as [|a t]; [done|]. destruct v as [|b v]; [done|].
  simpl in Hc. apply andb_true_iff in Hc as [_ Ht].
  rewrite append_cons. simpl. destruct (decide (a = b)); [|done].
  by apply starts_with_continuation.
Qed.

(** Whether a separator starts at a byte does not depend on what follows
    the next character boundary. *)
Lemma sep_len_local v r :
  Str.is_empty v = false → at_boundary r = true →
  Str.sep_len seps (v +:+ r) = Str.sep_len seps v.
Proof.
  intros Hv Hr. unfold Str.sep_len.
  pose proof seps_encodings as H.
  induction H as [|c l Hc Hl IH]; [done|]. simpl.
  rewrite (starts_with_local c v r Hc Hv Hr).
  destruct (Str.starts_with c v); [done|]. exact (IH Hl).
Qed.

Lemma starts_with_length c s : Str.starts_with c s = true → String.length c ≤ String.length s.
Proof.
  revert s. induction c as [|a c IH]; intros s; simpl; [lia|].
  destruct s as [|b s]; [done|]. destruct (decide (a = b)); [|done].
  intros H. apply IH in H. simpl. lia.
Qed.

Lemma sep_len_length s : Str.sep_len seps s ≤ String.length s.
Proof.
  unfold Str.sep_len. destruct (find _ seps) as [c|] eqn:E; [|lia].
  apply find_some in E as [_ E]. by apply starts_with_length.
Qed.

Lemma sep_len_boundary s : 0 < Str.sep_len seps s → at_boundary s = true.
Proof.
  unfold Str.sep_len. destruct (find _ seps) as [c|] eqn:E; [|lia]. intros _.
  apply find_some in E as [Hin E].
  rewrite Forall_forall in seps_encodings.
  apply list_elem_of_In, seps_encodings in Hin.
  destruct c as [|a t]; [done|]. destruct s as [|b s]; [done|].
  simpl in *. destruct (decide (a = b)) as [->|]; [|done].
  by apply andb_true_iff in Hin as [-> _].
Qed.

Lemma split_go_sep cur r :
  0 < Str.sep_len seps r →
  Str.split_go seps 0 cur r = Str.flush cur ++ Str.split_go seps 0 "" r.
Proof.
  intros H. destruct r as [|a r].
  { pose proof (sep_len_length "") as Hlen. simpl in Hlen. lia. }
  simpl.
  destruct (Str.sep_len seps (String a r)); [lia|]. done.
Qed.

(** A separator ends the word read before it. *)
Lemma split_go_gap r : ∀ s skip cur,
  skip ≤ String.length s → 0 < Str.sep_len seps r →
  Str.split_go seps skip cur (s +:+ r)
  = Str.split_go seps skip cur s ++ Str.split_go seps 0 "" r.
Proof.
  induction s as [|a s IH]; intros skip cur Hskip Hr.
  - simpl in Hskip. replace skip with 0 by lia. by apply split_go_sep.
  - rewrite append_cons. simpl. destruct skip as [|k].
    + rewrite <- append_cons.
      rewrite (sep_len_local (String a s) r) by (done || by apply sep_len_boundary).
      pose proof (sep_len_length (String a s)) as Hlen.
      destruct (Str.sep_len seps (String a s)) as [|k].
      * apply IH; [lia|done].
      * rewrite <- app_assoc. f_equal. apply IH; [simpl in Hlen; lia|done].
    + apply IH; [simpl in Hskip; lia|done].
Qed.

Lemma split_go_token u : ∀ cur,
  no_sep seps u "" = true → Str.split_go seps 0 cur u = Str.flush (cur +:+ u).
Proof.
  induction u as [|a u IH]; intros cur Hu.
  - simpl. by rewrite append_nil_r.
  - change (Nat.eqb (Str.sep_len seps (String a u +:+ "")) 0 && no_sep seps u "" = true) in Hu.
    apply andb_true_iff in Hu as [Ha Hu].
    rewrite append_nil_r in Ha. apply Nat.eqb_eq in Ha.
    cbn [Str.split_go]. rewrite Ha.
    rewrite IH by done. by rewrite append_assoc.
Qed.

Lemma split_token w : is_token seps w = true → Str.split seps w = [w].
Proof.
  unfold is_token, Str.split. intros H. apply andb_true_iff in H as [Hne Hw].
  rewrite split_go_token by done. by destruct w.
Qed.

Lemma no_sep_push cur a s :
  no_sep seps cur (String a s) = true → Str.sep_len seps (String a s) = 0 →
  no_sep seps (cur +:+ String a "") s = true.
Proof.
  intros Hcur Ha. induction cur as [|b cur IH].
  - change (Nat.eqb (Str.sep_len seps (String a s)) 0 && true = true).
    by rewrite Ha.
  - change (Nat.eqb (Str.sep_len seps (String b cur +:+ String a s)) 0
            && no_sep seps cur (String a s) = true) in Hcur.
    apply andb_true_iff in Hcur as [Hb Hcur].
    change (Nat.eqb (Str.sep_len seps ((String b cur +:+ String a "") +:+ s)) 0
            && no_sep seps (cur +:+ String a "") s = true).
    rewrite append_assoc. change (String a "" +:+ s) with (String a s).
    rewrite Hb. by apply IH.
Qed.

Lemma no_sep_end cur r :
  at_boundary r = true → no_sep seps cur r = true → no_sep seps cur "" = true.
Proof.
  intros Hr. induction cur as [|b cur IH]; [done|].
  intros H.
  change (Nat.eqb (Str.sep_len seps (String b cur +:+ r)) 0 && no_sep seps cur r = true) in H.
  apply andb_true_iff in H as [Hb Hcur].
  change (Nat.eqb (Str.sep_len seps (String b cur +:+ "")) 0 && no_sep seps cur "" = true).
  rewrite append_nil_r.
  rewrite (sep_len_local (String b cur) r) in Hb by done.
  rewrite Hb. by apply IH.
Qed.

Lemma flush_token cur r :
  at_boundary r = true → no_sep seps cur r = true →
  Forall (fun w => is_token seps w = true) (Str.flush cur).
Proof.
  intros Hr Hcur. unfold Str.flush. destruct (Str.is_empty cur) eqn:E; [done|].
  apply Forall_singleton. unfold is_token. rewrite E. simpl. by eapply no_sep_end.
Qed.

(** What [split_go] gives out are words. *)
Lemma split_go_tokens s : ∀ skip cur,
  no_sep seps cur (if skip is 0 then s else "") = true →
  (0 < skip → cur = "") →
  Forall (fun w => is_token seps w = true) (Str.split_go seps skip cur s).
Proof.
  induction s as [|a s IH]; intros skip cur Hcur Hskip; simpl.
  - apply (flush_token cur ""); [done|]. by destruct skip.
  - destruct skip as [|k].
    + destruct (Str.sep_len seps (String a s)) as [|k] eqn:Ha.
      * apply IH; [|lia]. by apply no_sep_push.
      * apply Forall_app. split.
        -- apply (flush_token cur (String a s)); [|done].
           apply sep_len_boundary. lia.
        -- apply IH; [by destruct k | done].
    + rewrite (Hskip ltac:(lia)). apply IH; [by destruct k | done].
Qed.

Lemma split_tokens s : Forall (fun w => is_token seps w = true) (Str.split seps s).
Proof. apply split_go_tokens; [done | lia]. Qed.

Hypothesis seps_space : ∀ r, Str.sep_len seps (String " " r) = 1.

Lemma split_space r : Str.split seps (String " " r) = Str.split seps r.
Proof. unfold Str.split. simpl. by rewrite seps_space. Qed.

(** Joining words with spaces and splitting again gives the words. *)
Lemma split_join l :
  Forall (fun w => is_token seps w = true) l → Str.split seps (Str.join " " l) = l.
Proof.
  induction 1 as [|x l Hx Hl IH]; [done|].
  destruct l as [|y l]; [by apply split_token|].
  change (Str.join " " (x :: y :: l)) with (x +:+ String " " (Str.join " " (y :: l))).
  unfold Str.split. rewrite split_go_gap.
  - fold (Str.split seps x). fold (Str.split seps (String " " (Str.join " " (y :: l)))).
    by rewrite split_token, split_space, IH.
  - lia.
  - rewrite seps_space. lia.
Qed.

End Split.

Lemma js_space_encodings : Forall (fun c => is_encoding c = true) Str.js_space.
Proof. by repeat constructor. Qed.

Lemma html_space_encodings : Forall (fun c => is_encoding c = true) Str.html_space.
Proof. by repeat constructor. Qed.

Lemma js_space_space r : Str.sep_len Str.js_space (String " " r) = 1.
Proof. reflexivity. Qed.

Lemma html_space_space r : Str.sep_len Str.html_space (String " " r) = 1.
Proof. reflexivity. Qed.

(** Each of the white-space characters is passed over as a whole. *)
Lemma split_go_js_space c cur r :
  c ∈ Str.js_space →
  0 < Str.sep_len Str.js_space (c +:+ r)
  ∧ Str.split_go Str.js_space 0 cur (c +:+ r)
    = Str.flush cur ++ Str.split_go Str.js_space 0 "" r.
Proof.
  unfold Str.js_space. intros H.
  repeat (apply elem_of_cons in H as [->|H]; [split; [cbv; lia|reflexivity]|]).
  by apply elem_of_nil in H.
Qed.

Lemma split_run_l ws s :
  run_of Str.js_space ws → Str.split Str.js_space (ws +:+ s) = Str.split Str.js_space s.
Proof.
  induction 1 as [|c ws Hc Hws IH]; [done|].
  rewrite append_assoc. unfold Str.split.
  destruct (split_go_js_space c "" (ws +:+ s) Hc) as [_ ->]. exact IH.
Qed.

Lemma split_run ws : run_of Str.js_space ws → Str.split Str.js_space ws = [].
Proof. intros H. rewrite <- (append_nil_r ws). by rewrite split_run_l. Qed.

Lemma run_sep_len ws t :
  run_of Str.js_space ws → Str.is_empty ws = false →
  0 < Str.sep_len Str.js_space (ws +:+ t).
Proof.
  intros [|c s Hc Hs] Hne; [done|]. rewrite append_assoc.
  by destruct (split_go_js_space c "" (s +:+ t) Hc) as [? _].
Qed.

Lemma split_run_mid s ws t :
  run_of Str.js_space ws → Str.is_empty ws = false →
  Str.split Str.js_space (s +:+ (ws +:+ t))
  = Str.split Str.js_space s ++ Str.split Str.js_space t.
Proof.
  intros Hws Hne. unfold Str.split.
  rewrite (split_go_gap _ js_space_encodings); [|lia|by apply run_sep_len].
  f_equal. by apply split_run_l.
Qed.

Lemma run_of_space : run_of Str.js_space " ".
Proof.
  apply (run_cons _ " " ""); [|constructor].
  unfold Str.js_space. rewrite !elem_of_cons. tauto.
Qed.

(** X15: [norm] is idempotent, ignores white space at both ends, and
    does not distinguish a run of white space from one space; white space
    being any of the characters of [Str.js_space], the no-break space and
    the other spaces outside ASCII among them. *)
Theorem norm_white_space (s : string) :
  StoreChangelistHeaderFilters.norm (StoreChangelistHeaderFilters.norm s)
  = StoreChangelistHeaderFilters.norm s
  ∧ (∀ ws, run_of Str.js_space ws →
       StoreChangelistHeaderFilters.norm (ws +:+ s) = StoreChangelistHeaderFilters.norm s
       ∧ StoreChangelistHeaderFilters.norm (s +:+ ws) = StoreChangelistHeaderFilters.norm s)
  ∧ (∀ ws t, run_of Str.js_space ws → Str.is_empty ws = false →
       StoreChangelistHeaderFilters.norm (s +:+ (ws +:+ t))
       = StoreChangelistHeaderFilters.norm (s +:+ (" " +:+ t))).
Proof.
  unfold StoreChangelistHeaderFilters.norm. split; [|split].
  - f_equal. apply (split_join _ js_space_encodings js_space_space), split_tokens.
    apply js_space_encodings.
  - intros ws Hws. split; [by rewrite split_run_l|].
    destruct ws as [|c ws]; [by rewrite append_nil_r|].
    rewrite <- (append_nil_r (String c ws)), split_run_mid by done.
    simpl. by rewrite app_nil_r.
  - intros ws t Hws Hne. rewrite !split_run_mid; done || apply run_of_space.
Qed.

Lemma norm_white_space_witness :
  StoreChangelistHeaderFilters.norm
    ("Все" +:+ ((String "194" (String "160" "") +:+ String "010" "") +:+ "магазины"))
  = StoreChangelistHeaderFilters.norm ("Все" +:+ (" " +:+ "магазины")).
Proof.
  apply (norm_white_space "Все"); [|done].
  apply run_cons; [|rewrite <- (append_nil_r (String "010" "")); apply run_cons; [|constructor]];
    unfold Str.js_space; rewrite !elem_of_cons; tauto.
Defined.

(* ===================================================================== *)
(** * Where a node is inserted *)
(* ===================================================================== *)

Lemma shift_path_inj pp i : Inj (=) (=) (shift_path pp i).
Proof.
  induction pp as [|a pp IH]; intros p q H.
  - destruct p as [|j r], q as [|j' r']; simpl in H; repeat case_decide; simplify_eq; try done; lia.
  - destruct p as [|b p], q as [|c q]; simpl in H; repeat case_decide; simplify_eq; try done.
    all: f_equal; by apply IH.
Qed.

(** The element that was at [p] is at [shift_path pp i p] once a node has
    become child number [i] of the element at [pp]; the ancestors of the
    new node, whose content has changed, apart. *)
Lemma get_shift_path new i : ∀ pp d p n,
  get d p = Some n → ¬ p `prefix_of` pp →
  get (insert_child d pp i new) (shift_path pp i p) = Some n.
Proof.
  induction pp as [|a pp IH]; intros d p n Hget Hpre.
  - destruct p as [|j r]; [by destruct Hpre; apply prefix_nil|].
    destruct d as [s|t at' ps ls ks]; [done|]. simpl in *.
    destruct (ks !! j) as [k|] eqn:Hk; [|done].
    pose proof (lookup_lt_Some _ _ _ Hk) as Hlt.
    case_decide as Hij; simpl.
    + rewrite lookup_app_r by (rewrite length_take; lia). rewrite length_take.
      replace (S j - i `min` length ks) with (S (j - i)) by lia. simpl.
      rewrite lookup_drop. replace (i + (j - i)) with j by lia. by rewrite Hk.
    + rewrite lookup_app_l by (rewrite length_take; lia).
      rewrite lookup_take_lt by lia. by rewrite Hk.
  - destruct p as [|b p]; [by destruct Hpre; apply prefix_nil|].
    destruct d as [s|t at' ps ls ks]; [done|]. simpl in *.
    destruct (ks !! b) as [k|] eqn:Hk; [|done].
    case_decide as Hab; simpl.
    + subst b. rewrite list_lookup_alter_eq, Hk. simpl. apply IH; [done|].
      intros Hp. apply Hpre. by apply prefix_cons.
    + rewrite list_lookup_alter_ne by done. by rewrite Hk.
Qed.

(** What jQuery holds for an element is found under its new path. *)
Lemma lookup_relocate pp i w p :
  w_data (relocate (shift_path pp i) w) !! shift_path pp i p
  = relocate_data (shift_path pp i) <$> w_data w !! p.
Proof.
  pose proof (shift_path_inj pp i) as Hinj.
  unfold relocate. simpl. by rewrite lookup_kmap, lookup_fmap.
Qed.

(** On the sample changelist: a select patched before the panel is
    mounted keeps its row.  Once the panel stands after the toolbar the
    select is one place further down, its data is found there and nowhere
    else, and its request carries the id of its row. *)
Lemma patched_select_follows_panel :
  get (w_doc w_admin_with_widget) [1; 0; 2; 1; 1; 0]
  = get (w_doc (final (patch_mount_request w_admin_with_widget))) [1; 0; 3; 1; 1; 0]
  ∧ dom (w_data (final (patch_mount_request w_admin_with_widget)))
    = ({[ [1; 0; 3; 1; 1; 0] ]} : gset path)
  ∧ returned (patch_mount_request w_admin_with_widget) = Some (Some 1)
  ∧ obj_at (final (patch_mount_request w_admin_with_widget)) 1
    = Some {[ "store_id" := PStr "123" ]}.
Proof. by vm_compute. Qed.


Lemma get_insert_child_parent idx new : ∀ pp d t a ps ls ks,
  get d pp = Some (Elem t a ps ls ks) →
  get (insert_child d pp idx new) pp
  = Some (Elem t a ps ls (take idx ks ++ new :: drop idx ks)).
Proof.
  induction pp as [|j pp IH]; intros d t a ps ls ks Hget; simpl in *.
  - by injection Hget as ->.
  - destruct d as [s|t' a' ps' ls' ks']; simpl in *; [done|].
    destruct (ks' !! j) as [k|] eqn:Hk; [|done].
    rewrite list_lookup_alter_eq, Hk. simpl. by apply IH.
Qed.

Lemma get_child d pp j : get d (pp ++ [j]) = get d pp ≫= (fun n => children_of n !! j).
Proof.
  rewrite get_app. destruct (get d pp) as [n|]; [|done]. simpl.
  by destruct (children_of n !! j).
Qed.

(** The children of the parent after the insertion, one by one. *)
Lemma get_insert_child_sibling idx new pp d parent j :
  get d pp = Some parent → is_elem parent = true → idx ≤ length (children_of parent) →
  get (insert_child d pp idx new) (pp ++ [j])
  = if decide (j < idx) then get d (pp ++ [j])
    else if decide (j = idx) then Some new
    else get d (pp ++ [j - 1]).
Proof.
  intros Hget Hel Hidx. destruct parent as [s|t a ps ls ks]; [done|]. simpl in Hidx.
  rewrite !get_child, Hget, (get_insert_child_parent _ _ _ _ _ _ _ _ _ Hget). simpl.
  destruct (decide (j < idx)) as [Hlt|Hge].
  - rewrite lookup_app_l by (rewrite length_take; lia). by rewrite lookup_take_lt.
  - rewrite lookup_app_r by (rewrite length_take; lia). rewrite length_take.
    replace (idx `min` length ks) with idx by lia.
    destruct (decide (j = idx)) as [->|Hne].
    + by rewrite Nat.sub_diag.
    + destruct (j - idx) as [|m] eqn:Hm; [lia|]. simpl.
      rewrite lookup_drop. f_equal. lia.
Qed.

Lemma nextElementSibling_at d pp i parent k :
  get d pp = Some parent →
  children_of parent !! S i = Some k → is_elem k = true →
  nextElementSibling d (pp ++ [i]) = Some (pp ++ [S i]).
Proof.
  intros Hget Hk Hel. unfold nextElementSibling.
  rewrite rev_unit, rev_involutive, Hget.
  rewrite (drop_S _ _ _ Hk). by rewrite Hel.
Qed.

Lemma matches_compound_is_elem c n : matches_compound c n = true → is_elem n = true.
Proof. unfold matches_compound. by destruct (is_elem n). Qed.

(** Where [insert_panel] puts the panel. *)
Lemma insert_panel_Return su se toolbar anchor w w1 n :
  get (w_doc w) (default anchor toolbar) = Some n → is_elem n = true →
  insert_panel su se toolbar anchor w = Return tt w1 →
  ∃ pp i panel,
    default anchor toolbar = pp ++ [i]
    ∧ matches_compound (by_class "top-filters") panel = true
    ∧ nextElementSibling (w_doc w1) (pp ++ [i]) = Some (pp ++ [S i])
    ∧ match toolbar with
      | Some _ => get (w_doc w1) (pp ++ [i]) = Some n ∧ get (w_doc w1) (pp ++ [S i]) = Some panel
      | None => get (w_doc w1) (pp ++ [i]) = Some panel ∧ get (w_doc w1) (pp ++ [S i]) = Some n
      end.
Proof.
  intros Hn Hel. unfold insert_panel, bind.
  destruct (add_dropdown_Return "Статус" su
              (setAttribute "class" "top-filters" (createElement "div")) w)
    as (panel1 & wa & -> & Hdoc1 & Hc1).
  destruct (add_dropdown_Return "Услуги" se panel1 wa)
    as (panel2 & wb & -> & Hdoc2 & Hc2).
  assert (matches_compound (by_class "top-filters") panel2 = true) as Hclass
    by (by rewrite Hc2, Hc1).
  assert (w_doc wb = w_doc w) as Hdoc by congruence.
  pose proof (matches_compound_is_elem _ _ Hclass) as Hpanel.
  rewrite <- Hdoc in Hn.
  assert (∀ shift, shift ≤ 1 →
            insert_beside (default anchor toolbar) shift panel2 wb = Return tt w1 →
            ∃ pp i parent,
              default anchor toolbar = pp ++ [i]
              ∧ get (w_doc wb) pp = Some parent ∧ is_elem parent = true
              ∧ i + shift ≤ length (children_of parent)
              ∧ w_doc w1 = insert_child (w_doc wb) pp (i + shift) panel2) as Hins.
  { intros shift Hshift Hrun.
    destruct (insert_beside_Return _ shift panel2 wb n Hshift Hn)
      as [[_ Hthrow]|(pp & i & parent & Hp & Hpar & Hpel & Hidx & Hret)].
    - rewrite Hthrow in Hrun. discriminate.
    - rewrite Hret in Hrun. injection Hrun as <-. exists pp, i, parent. by repeat split. }
  destruct toolbar as [t|]; simpl in *; intros Hrun.
  - destruct (Hins 1 ltac:(lia) Hrun) as (pp & i & parent & Hp & Hpar & Hpel & Hidx & Hd).
    exists pp, i, panel2. split; [done|]. split; [done|].
    assert (get (w_doc w1) (pp ++ [i]) = Some n) as Hi.
    { rewrite Hd, (get_insert_child_sibling _ _ _ _ parent) by done.
      rewrite decide_True by lia. by rewrite <- Hp. }
    assert (get (w_doc w1) (pp ++ [S i]) = Some panel2) as HSi.
    { rewrite Hd, (get_insert_child_sibling _ _ _ _ parent) by done.
      rewrite decide_False by lia. by rewrite decide_True by lia. }
    split; [|done].
    rewrite get_child in HSi.
    destruct (get (w_doc w1) pp) as [parent'|] eqn:Hpar'; [|done].
    by eapply nextElementSibling_at.
  - destruct (Hins 0 ltac:(lia) Hrun) as (pp & i & parent & Hp & Hpar & Hpel & Hidx & Hd).
    exists pp, i, panel2. split; [done|]. split; [done|].
    assert (get (w_doc w1) (pp ++ [i]) = Some panel2) as Hi.
    { rewrite Hd, (get_insert_child_sibling _ _ _ _ parent) by done.
      rewrite decide_False by lia. by rewrite decide_True by lia. }
    assert (get (w_doc w1) (pp ++ [S i]) = Some n) as HSi.
    { rewrite Hd, (get_insert_child_sibling _ _ _ _ parent) by done.
      rewrite decide_False by lia. rewrite decide_False by lia.
      replace (S i - 1) with i by lia. by rewrite <- Hp. }
    split; [|done].
    rewrite get_child in HSi.
    destruct (get (w_doc w1) pp) as [parent'|] eqn:Hpar'; [|done].
    by eapply nextElementSibling_at.
Qed.

(** X16: when [mountTopFilters] returns, either the page is as it was,
    or the panel [.top-filters] has been inserted: directly after
    [#toolbar], which stays where it was, when the document has one;
    otherwise directly before [#changelist .actions] or [#changelist],
    which becomes its next element sibling. *)
Theorem top_filters_panel_placement w w1 :
  mountTopFilters w = Return tt w1 →
  w1 = w
  ∨ ∃ pp i panel n,
      matches_compound (by_class "top-filters") panel = true
      ∧ get (w_doc w) (pp ++ [i]) = Some n
      ∧ nextElementSibling (w_doc w1) (pp ++ [i]) = Some (pp ++ [S i])
      ∧ match qs (w_doc w) (only (by_id "toolbar")) None with
        | Some t =>
            t = pp ++ [i]
            ∧ get (w_doc w1) (pp ++ [i]) = Some n
            ∧ get (w_doc w1) (pp ++ [S i]) = Some panel
        | None =>
            fallback_anchor (w_doc w) = Some (pp ++ [i])
            ∧ get (w_doc w1) (pp ++ [i]) = Some panel
            ∧ get (w_doc w1) (pp ++ [S i]) = Some n
        end.
Proof.
  unfold mountTopFilters, bind, gets. simpl.
  destruct (qs (w_doc w) (only (by_id "changelist-filter")) None) as [filterRoot|];
    [|intros [= <-]; by left].
  destruct (qs (w_doc w) (only (by_id "toolbar")) None) as [t|] eqn:Htool.
  - destruct (qs (w_doc w) (only (by_class "top-filters")) None);
      [intros [= <-]; by left|].
    apply querySelector_doc_elem in Htool as [Hin _].
    apply elem_of_elems in Hin as (n & Hn & Hel).
    assert (∀ su se, insert_panel su se (Some t) t w = Return tt w1 →
              ∃ pp i panel n0,
                matches_compound (by_class "top-filters") panel = true
                ∧ get (w_doc w) (pp ++ [i]) = Some n0
                ∧ nextElementSibling (w_doc w1) (pp ++ [i]) = Some (pp ++ [S i])
                ∧ t = pp ++ [i]
                ∧ get (w_doc w1) (pp ++ [i]) = Some n0
                ∧ get (w_doc w1) (pp ++ [S i]) = Some panel) as Hpanel.
    { intros su se Hrun.
      destruct (insert_panel_Return su se (Some t) t w w1 n Hn Hel Hrun)
        as (pp & i & panel & Hp & Hc & Hnext & Hi & HSi).
      simpl in Hp. subst. exists pp, i, panel, n. by repeat split. }
    destruct (findUlForFilterTitle (w_doc w) filterRoot "Статус");
      [intros Hrun; right; by eapply Hpanel|].
    destruct (findUlForFilterTitle (w_doc w) filterRoot "Услуги");
      [intros Hrun; right; by eapply Hpanel | intros [= <-]; by left].
  - fold (fallback_anchor (w_doc w)).
    destruct (fallback_anchor (w_doc w)) as [anchor|] eqn:Hanchor;
      [|intros [= <-]; by left].
    destruct (qs (w_doc w) (only (by_class "top-filters")) None);
      [intros [= <-]; by left|].
    assert (anchor ∈ elems (w_doc w)) as Hin.
    { unfold fallback_anchor in Hanchor.
      destruct (qs (w_doc w) sel_actions None) as [a|] eqn:Ha.
      - injection Hanchor as <-. by apply querySelector_doc_elem in Ha as [? _].
      - by apply querySelector_doc_elem in Hanchor as [? _]. }
    apply elem_of_elems in Hin as (n & Hn & Hel).
    assert (∀ su se, insert_panel su se None anchor w = Return tt w1 →
              ∃ pp i panel n0,
                matches_compound (by_class "top-filters") panel = true
                ∧ get (w_doc w) (pp ++ [i]) = Some n0
                ∧ nextElementSibling (w_doc w1) (pp ++ [i]) = Some (pp ++ [S i])
                ∧ Some anchor = Some (pp ++ [i])
                ∧ get (w_doc w1) (pp ++ [i]) = Some panel
                ∧ get (w_doc w1) (pp ++ [S i]) = Some n0) as Hpanel.
    { intros su se Hrun.
      destruct (insert_panel_Return su se None anchor w w1 n Hn Hel Hrun)
        as (pp & i & panel & Hp & Hc & Hnext & Hi & HSi).
      simpl in Hp. subst. exists pp, i, panel, n. by repeat split. }
    destruct (findUlForFilterTitle (w_doc w) filterRoot "Статус");
      [intros Hrun; right; by eapply Hpanel|].
    destruct (findUlForFilterTitle (w_doc w) filterRoot "Услуги");
      [intros Hrun; right; by eapply Hpanel | intros [= <-]; by left].
Qed.

Lemma top_filters_panel_placement_witness :
  final (mountTopFilters Sample.w_admin) = Sample.w_admin
  ∨ ∃ pp i panel,
      nextElementSibling (w_doc (final (mountTopFilters Sample.w_admin))) (pp ++ [i])
      = Some (pp ++ [S i])
      ∧ get (w_doc (final (mountTopFilters Sample.w_admin))) (pp ++ [S i]) = Some panel
      ∧ qs (w_doc Sample.w_admin) (only (by_id "toolbar")) None = Some (pp ++ [i]).
Proof.
  destruct (top_filters_panel_placement Sample.w_admin (final (mountTopFilters Sample.w_admin))
              ltac:(vm_compute; reflexivity))
    as [H|(pp & i & panel & n & _ & _ & Hnext & H)]; [by left|].
  right. exists pp, i, panel.
  change (qs (w_doc Sample.w_admin) (only (by_id "toolbar")) None) with (Some [1; 0; 0]) in *.
  destruct H as (-> & _ & Hpanel). by rewrite Hnext, Hpanel.
Defined.

(** X17: [mountTopFilters] throws only a [HierarchyRequestError], and
    only when the element it inserts the panel beside is the root element
    of the document. *)
Theorem mountTopFilters_throws w e w' :
  mountTopFilters w = Throw e w' →
  e = HierarchyRequestError
  ∧ match qs (w_doc w) (only (by_id "toolbar")) None with
    | Some t => t = []
    | None => fallback_anchor (w_doc w) = Some []
    end.
Proof.
  assert (∀ su se toolbar anchor,
            insert_panel su se toolbar anchor w = Throw e w' →
            e = HierarchyRequestError ∧ default anchor toolbar = []) as Hpanel.
  { intros su se toolbar anchor. unfold insert_panel, bind.
    destruct (add_dropdown_Return "Статус" su
                (setAttribute "class" "top-filters" (createElement "div")) w)
      as (panel1 & wa & -> & _ & _).
    destruct (add_dropdown_Return "Услуги" se panel1 wa) as (panel2 & wb & -> & _ & _).
    assert (∀ p shift, insert_beside p shift panel2 wb = Throw e w' →
              e = HierarchyRequestError ∧ p = []) as Hins.
    { intros p shift. unfold insert_beside. destruct (rev p) as [|i rp] eqn:Hrev; [|done].
      intros [= <- _]. split; [done|].
      apply (f_equal (@rev nat)) in Hrev. by rewrite rev_involutive in Hrev. }
    destruct toolbar; apply Hins. }
  unfold mountTopFilters, bind, gets. simpl.
  destruct (qs (w_doc w) (only (by_id "changelist-filter")) None) as [filterRoot|]; [|done].
  destruct (qs (w_doc w) (only (by_id "toolbar")) None) as [t|].
  - destruct (qs (w_doc w) (only (by_class "top-filters")) None); [done|].
    destruct (findUlForFilterTitle (w_doc w) filterRoot "Статус");
      [intros H; by apply Hpanel in H|].
    destruct (findUlForFilterTitle (w_doc w) filterRoot "Услуги");
      [intros H; by apply Hpanel in H | done].
  - fold (fallback_anchor (w_doc w)).
    destruct (fallback_anchor (w_doc w)) as [anchor|]; [|done].
    destruct (qs (w_doc w) (only (by_class "top-filters")) None); [done|].
    destruct (findUlForFilterTitle (w_doc w) filterRoot "Статус");
      [intros H; apply Hpanel in H as [-> H]; simpl in H; by subst|].
    destruct (findUlForFilterTitle (w_doc w) filterRoot "Услуги");
      [intros H; apply Hpanel in H as [-> H]; simpl in H; by subst | done].
Qed.

Lemma mountTopFilters_throws_witness :
  HierarchyRequestError = HierarchyRequestError
  ∧ match qs (w_doc (Sample.world_with toolbar_root_page ∅)) (only (by_id "toolbar")) None with
    | Some t => t = []
    | None => fallback_anchor (w_doc (Sample.world_with toolbar_root_page ∅)) = Some []
    end.
Proof.
  apply (mountTopFilters_throws (Sample.world_with toolbar_root_page ∅) HierarchyRequestError
           (final (mountTopFilters (Sample.world_with toolbar_root_page ∅)))).
  vm_compute. reflexivity.
Defined.

(* ===================================================================== *)
(** * The select of the services column and the datalist *)
(* ===================================================================== *)

Lemma qsa_kids_nil c l : ∀ j i k,
  qsa_kids c j l = [] → l !! i = Some k → doc_qsa k (only c) = [].
Proof.
  induction l as [|k0 l IH]; intros j i k H Hk; [done|]. simpl in H.
  apply app_eq_nil in H as [H0 Hl]. destruct i as [|i]; simpl in Hk.
  - injection Hk as <-. by destruct (doc_qsa k0 (only c)).
  - by eapply IH.
Qed.

Lemma qsa_kids_alter_only c (f : node → node) : ∀ i l j k,
  qsa_kids c j l = [] → l !! i = Some k →
  qsa_kids c j (alter f i l) = map (cons (j + i)) (doc_qsa (f k) (only c)).
Proof.
  induction i as [|i IH]; intros [|k0 l] j k H Hk; simpl in *; try done.
  - injection Hk as ->. apply app_eq_nil in H as [_ ->].
    by rewrite app_nil_r, Nat.add_0_r.
  - apply app_eq_nil in H as [-> H]. simpl.
    replace (j + S i) with (S j + i) by lia. exact (IH l (S j) k H Hk).
Qed.

(** When nothing in the document matches a one-compound selector, the
    matches after a subtree has been appended are those inside it. *)
Lemma doc_qsa_insert_last_only c new : ∀ p d n,
  doc_qsa d (only c) = [] → get d p = Some n → is_elem n = true →
  doc_qsa (insert_child d p (length (children_of n)) new) (only c)
  = map (app (p ++ [length (children_of n)])) (doc_qsa new (only c)).
Proof.
  induction p as [|j p IH]; intros d n Hnone Hget Hel.
  - simpl in Hget. injection Hget as ->.
    destruct n as [s|t a ps ls ks]; [done|]. simpl insert_child. simpl children_of.
    rewrite take_ge, drop_ge by done.
    rewrite doc_qsa_only_Elem in *.
    rewrite (matches_compound_children c t a ps ls (ks ++ [new]) ks).
    apply app_eq_nil in Hnone as [-> Hkids].
    rewrite qsa_kids_app, Hkids. simpl. by rewrite app_nil_r.
  - destruct d as [s|t a ps ls ks]; [done|]. simpl in Hget.
    destruct (ks !! j) as [k|] eqn:Hk; [|done].
    simpl insert_child. rewrite doc_qsa_only_Elem in *.
    rewrite (matches_compound_children c t a ps ls _ ks).
    apply app_eq_nil in Hnone as [-> Hkids]. simpl.
    rewrite (qsa_kids_alter_only c _ j ks 0 k Hkids Hk). simpl.
    rewrite (IH k n (qsa_kids_nil _ _ _ _ _ Hkids Hk) Hget Hel).
    by rewrite map_map.
Qed.

Lemma make_datalist_values :
  child_values SourceSuggestions.make_datalist = SourceSuggestions.options.
Proof. reflexivity. Qed.

Lemma make_datalist_id :
  doc_qsa SourceSuggestions.make_datalist (only (by_id "source_suggestions")) = [[]].
Proof. vm_compute. reflexivity. Qed.

(** X18: when the document has no element with the id
    [source_suggestions], has an input bound to that list and has a body,
    the listener appends the datalist as the last child of the body:
    [getElementById] then finds it there, it offers the nine sources in
    their order, the other children of the body are kept and the input is
    found as before. *)
Theorem source_suggestions_mounted w b :
  SourceSuggestions.getElementById (w_doc w) "source_suggestions" = None →
  is_Some (querySelector (w_doc w) None SourceSuggestions.sel_input) →
  SourceSuggestions.body (w_doc w) = Some b →
  ∃ w1 n,
    SourceSuggestions.on_ready w = Return tt w1
    ∧ get (w_doc w) b = Some n
    ∧ SourceSuggestions.getElementById (w_doc w1) "source_suggestions"
      = Some (b ++ [length (children_of n)])
    ∧ get (w_doc w1) (b ++ [length (children_of n)]) = Some SourceSuggestions.make_datalist
    ∧ child_values SourceSuggestions.make_datalist = SourceSuggestions.options
    ∧ (∀ j, j < length (children_of n) → get (w_doc w1) (b ++ [j]) = get (w_doc w) (b ++ [j]))
    ∧ querySelector (w_doc w1) None SourceSuggestions.sel_input
      = querySelector (w_doc w) None SourceSuggestions.sel_input.
Proof.
  intros Hid [i Hinput] Hbody.
  destruct (body_get _ _ Hbody) as (n & Hn & Hel).
  eexists _, n. split.
  { unfold SourceSuggestions.on_ready, bind, gets. simpl.
    rewrite Hid, Hinput, Hbody. reflexivity. }
  simpl. unfold append_at. rewrite Hn. split; [done|]. split; [|split; [|split; [|split]]].
  - unfold SourceSuggestions.getElementById, querySelector, querySelectorAll in *.
    rewrite doc_qsa_insert_last_only; [| |done|done].
    + rewrite make_datalist_id. simpl. by rewrite app_nil_r.
    + by destruct (doc_qsa (w_doc w) (only (by_id "source_suggestions"))).
  - by apply (get_insert_child _ _ _ _ n).
  - reflexivity.
  - intros j Hj. rewrite (get_insert_child_sibling _ _ _ _ n) by done.
    by rewrite decide_True.
  - unfold querySelector, querySelectorAll, SourceSuggestions.sel_input.
    rewrite (doc_qsa_insert_last _ SourceSuggestions.make_datalist); [done| |done].
    vm_compute. reflexivity.
Qed.

Lemma source_suggestions_mounted_witness :
  ∃ w1 n,
    SourceSuggestions.on_ready Sample.w_admin = Return tt w1
    ∧ get (w_doc Sample.w_admin) [1] = Some n
    ∧ SourceSuggestions.getElementById (w_doc w1) "source_suggestions"
      = Some ([1] ++ [length (children_of n)])
    ∧ get (w_doc w1) ([1] ++ [length (children_of n)]) = Some SourceSuggestions.make_datalist
    ∧ child_values SourceSuggestions.make_datalist = SourceSuggestions.options
    ∧ (∀ j, j < length (children_of n) →
         get (w_doc w1) ([1] ++ [j]) = get (w_doc Sample.w_admin) ([1] ++ [j]))
    ∧ querySelector (w_doc w1) None SourceSuggestions.sel_input
      = querySelector (w_doc Sample.w_admin) None SourceSuggestions.sel_input.
Proof.
  apply source_suggestions_mounted.
  - vm_compute. reflexivity.
  - vm_compute. by eexists.
  - vm_compute. reflexivity.
Defined.

Lemma make_wrap_other current :
  current ∉ (StoreChangelistFilters.options).*1 →
  StoreChangelistFilters.make_wrap current = StoreChangelistFilters.make_wrap "-".
Proof.
  intros Hcur.
  assert (∀ vl, vl ∈ StoreChangelistFilters.options →
            StoreChangelistFilters.make_option current vl
            = StoreChangelistFilters.make_option "-" vl) as Hopt.
  { intros vl Hvl. unfold StoreChangelistFilters.make_option.
    rewrite (bool_decide_eq_false_2 (vl.1 = current)).
    - unfold StoreChangelistFilters.options in Hvl. rewrite !elem_of_cons in Hvl.
      destruct Hvl as [->|[->|[->|[->|Hvl]]]]; [done..|by apply elem_of_nil in Hvl].
    - intros <-. apply Hcur. by apply list_elem_of_fmap_2. }
  unfold StoreChangelistFilters.make_wrap. do 2 f_equal.
  unfold StoreChangelistFilters.options in *. cbn [foldl].
  rewrite !Hopt; [done|rewrite !elem_of_cons; tauto..].
Qed.

(** The select [make_wrap] builds: one option is selected, the one of the
    current value, or the first one when no option has that value. *)
Lemma make_wrap_select_node current :
  ∃ sel, get (StoreChangelistFilters.make_wrap current) [0] = Some sel
         ∧ tag_of sel = Some "select"
         ∧ child_values sel = (StoreChangelistFilters.options).*1
         ∧ selected_values sel
           = [ if bool_decide (current ∈ (StoreChangelistFilters.options).*1)
               then current else "" ]
         ∧ listeners_of sel = [("change", OnChangeUpdateQuery)].
Proof.
  case_bool_decide as Hcur.
  - unfold StoreChangelistFilters.options in Hcur. simpl in Hcur. rewrite !elem_of_cons in Hcur.
    destruct Hcur as [->|[->|[->|[->|Hcur]]]]; [| | | |by apply elem_of_nil in Hcur];
      (eexists; split; [by vm_compute|]; by vm_compute).
  - rewrite (make_wrap_other current Hcur).
    eexists; split; [by vm_compute|]; by vm_compute.
Qed.

(** X19: when the header cell of the services column holds no
    [.service-filter-select], [injectServiceFilter] appends a [div] with a
    select as the last child of the cell, keeping the children it had: the
    select offers the four values in their order, exactly one option is
    selected, the one whose value is the current [service] parameter or,
    when no option has that value, the first one, and the select carries
    the [change] listener. *)
Theorem service_filter_select_shows_current w th :
  querySelector (w_doc w) None StoreChangelistFilters.sel_th_services = Some th →
  querySelector (w_doc w) (Some th) StoreChangelistFilters.sel_service_filter = None →
  ∃ w1 n sel,
    StoreChangelistFilters.injectServiceFilter w = Return tt w1
    ∧ get (w_doc w) th = Some n
    ∧ get (w_doc w1) (th ++ [length (children_of n); 0]) = Some sel
    ∧ tag_of sel = Some "select"
    ∧ child_values sel = ["" ; "cleaning_only"; "merch_only"; "both"]
    ∧ selected_values sel
      = [ if bool_decide (StoreChangelistFilters.getCurrent "service" (w_url w)
                          ∈ ["" ; "cleaning_only"; "merch_only"; "both"])
          then StoreChangelistFilters.getCurrent "service" (w_url w) else "" ]
    ∧ listeners_of sel = [("change", OnChangeUpdateQuery)]
    ∧ (∀ j, j < length (children_of n) → get (w_doc w1) (th ++ [j]) = get (w_doc w) (th ++ [j])).
Proof.
  intros Hth Hnone.
  pose proof Hth as Hin. apply querySelector_doc_elem in Hin as [Hin _].
  apply elem_of_elems in Hin as (n & Hn & Hel).
  destruct (make_wrap_select_node (StoreChangelistFilters.getCurrent "service" (w_url w)))
    as (sel & Hsel & Htag & Hvals & Hselected & Hls).
  eexists _, n, sel. split.
  { unfold StoreChangelistFilters.injectServiceFilter, bind, gets. simpl.
    rewrite Hth, Hnone. reflexivity. }
  split; [done|]. simpl. split; [|repeat split; try done].
  - change [length (children_of n); 0] with ([length (children_of n)] ++ [0]).
    rewrite app_assoc, get_app.
    by rewrite (get_append_at _ _ _ n Hn Hel).
  - intros j Hj. unfold append_at. rewrite Hn.
    rewrite (get_insert_child_sibling _ _ _ _ n) by done. by rewrite decide_True.
Qed.

Lemma service_filter_select_shows_current_witness :
  ∃ w1 n sel,
    StoreChangelistFilters.injectServiceFilter Sample.w_admin = Return tt w1
    ∧ get (w_doc Sample.w_admin) [1; 0; 2; 0; 0; 0] = Some n
    ∧ get (w_doc w1) ([1; 0; 2; 0; 0; 0] ++ [length (children_of n); 0]) = Some sel
    ∧ tag_of sel = Some "select"
    ∧ child_values sel = ["" ; "cleaning_only"; "merch_only"; "both"]
    ∧ selected_values sel
      = [ if bool_decide (StoreChangelistFilters.getCurrent "service" (w_url Sample.w_admin)
                          ∈ ["" ; "cleaning_only"; "merch_only"; "both"])
          then StoreChangelistFilters.getCurrent "service" (w_url Sample.w_admin) else "" ]
    ∧ listeners_of sel = [("change", OnChangeUpdateQuery)]
    ∧ (∀ j, j < length (children_of n) →
         get (w_doc w1) ([1; 0; 2; 0; 0; 0] ++ [j])
         = get (w_doc Sample.w_admin) ([1; 0; 2; 0; 0; 0] ++ [j])).
Proof.
  apply service_filter_select_shows_current; vm_compute; reflexivity.
Defined.

(** X20: choosing the value [v] in the select navigates to the page with
    the query parameters of [updateQuery("service", v)], and on a page with
    those parameters [injectServiceFilter] builds a select whose selected
    option is [v]. *)
Theorem selected_option_survives_reload w w' th v :
  v ∈ (StoreChangelistFilters.options).*1 →
  searchParams (w_url w') = StoreChangelistFilters.updated_params "service" v (w_url w) →
  querySelector (w_doc w') None StoreChangelistFilters.sel_th_services = Some th →
  querySelector (w_doc w') (Some th) StoreChangelistFilters.sel_service_filter = None →
  ∃ w1 n sel,
    StoreChangelistFilters.on_change v w
    = Return tt (add_navigation
                   (pathname (w_url w) +:+ ("?" +:+ sp_toString (searchParams (w_url w')))) w)
    ∧ StoreChangelistFilters.injectServiceFilter w' = Return tt w1
    ∧ get (w_doc w') th = Some n
    ∧ get (w_doc w1) (th ++ [length (children_of n); 0]) = Some sel
    ∧ selected_values sel = [v].
Proof.
  intros Hv Hurl Hth Hnone.
  pose proof Hth as Hin. apply querySelector_doc_elem in Hin as [Hin _].
  apply elem_of_elems in Hin as (n & Hn & Hel).
  destruct (make_wrap_select_node (StoreChangelistFilters.getCurrent "service" (w_url w')))
    as (sel & Hsel & _ & _ & Hselected & _).
  eexists _, n, sel. split; [|split; [|split; [done|split]]].
  - unfold StoreChangelistFilters.on_change, StoreChangelistFilters.updateQuery, bind, gets,
      modify. by rewrite Hurl.
  - unfold StoreChangelistFilters.injectServiceFilter, bind, gets. simpl.
    rewrite Hth, Hnone. reflexivity.
  - simpl. change [length (children_of n); 0] with ([length (children_of n)] ++ [0]).
    rewrite app_assoc, get_app.
    by rewrite (get_append_at _ _ _ n Hn Hel).
  - rewrite Hselected, (getCurrent_updated _ _ _ _ Hurl).
    simpl in Hv. rewrite !elem_of_cons in Hv.
    destruct Hv as [->|[->|[->|[->|Hv]]]]; [by vm_compute..|by apply elem_of_nil in Hv].
Qed.

Lemma selected_option_survives_reload_witness :
  ∃ w1 n sel,
    StoreChangelistFilters.on_change "merch_only" Sample.w_admin
    = Return tt (add_navigation
                   (pathname (w_url Sample.w_admin)
                    +:+ ("?" +:+ sp_toString (searchParams (w_url (w_admin_after "merch_only")))))
                   Sample.w_admin)
    ∧ StoreChangelistFilters.injectServiceFilter (w_admin_after "merch_only") = Return tt w1
    ∧ get (w_doc (w_admin_after "merch_only")) [1; 0; 2; 0; 0; 0] = Some n
    ∧ get (w_doc w1) ([1; 0; 2; 0; 0; 0] ++ [length (children_of n); 0]) = Some sel
    ∧ selected_values sel = ["merch_only"].
Proof.
  apply selected_option_survives_reload.
  - simpl. rewrite !elem_of_cons. tauto.
  - reflexivity.
  - vm_compute. reflexivity.
  - vm_compute. reflexivity.
Defined.

(* ===================================================================== *)
(** * The lists of the sidebar *)
(* ===================================================================== *)

Lemma matches_ul d u :
  matches d sel_ul u = true → ∃ n, get d u = Some n ∧ tag_of n = Some "ul".
Proof.
  unfold sel_ul. rewrite matches_only. destruct (get d u) as [n|]; [|done].
  unfold matches_compound. simpl. rewrite !andb_true_r. intros H.
  apply andb_true_iff in H as [_ Htag]. apply bool_decide_eq_true in Htag. eauto.
Qed.

Lemma querySelector_ul d root u :
  querySelector d (Some root) sel_ul = Some u →
  ∃ n, get d u = Some n ∧ tag_of n = Some "ul".
Proof.
  unfold querySelector, querySelectorAll, elem_qsa, doc_qsa. intros H.
  apply head_Some_elem_of in H. apply list_elem_of_filter in H as [_ H].
  apply list_elem_of_filter in H as [H _]. by apply matches_ul.
Qed.

Lemma ul_inside_ul d (parent : option path) el u :
  match parent ≫= (fun pa => querySelector d (Some pa) sel_ul) with
  | Some u0 => Some u0
  | None => querySelector d (Some el) sel_ul
  end = Some u →
  ∃ n, get d u = Some n ∧ tag_of n = Some "ul".
Proof.
  destruct parent as [pa|]; simpl; [|apply querySelector_ul].
  destruct (querySelector d (Some pa) sel_ul) as [u0|] eqn:E; [|apply querySelector_ul].
  intros [= <-]. by eapply querySelector_ul.
Qed.

Lemma ul_near_ul d el u :
  ul_near d el = Some u → ∃ n, get d u = Some n ∧ tag_of n = Some "ul".
Proof.
  unfold ul_near.
  destruct (nextElementSibling d el) as [sib|]; [|apply ul_inside_ul].
  case_bool_decide as Hsib; [|apply ul_inside_ul].
  intros [= <-]. destruct (get d sib) as [n|]; [|done]. simpl in Hsib. eauto.
Qed.

Lemma first_ul_Some d l u :
  first_ul d l = Some u → ∃ el, el ∈ l ∧ ul_near d el = Some u.
Proof.
  induction l as [|el l IH]; [done|]. simpl.
  destruct (ul_near d el) as [u'|] eqn:Hnear.
  - intros [= <-]. exists el. split; [left|done].
  - intros H. destruct (IH H) as (el' & Hin & Hel'). exists el'. split; [by right|done].
Qed.

(** X21: what [findUlForFilterTitle] returns is a [ul] element, found
    from an element inside [root] whose normalised text is the title. *)
Theorem findUlForFilterTitle_finds_list d root title u :
  findUlForFilterTitle d root title = Some u →
  (∃ n, get d u = Some n ∧ tag_of n = Some "ul")
  ∧ ∃ el n, is_proper_prefix root el = true
            ∧ get d el = Some n ∧ is_elem n = true
            ∧ norm (textContent n) = title
            ∧ ul_near d el = Some u.
Proof.
  unfold findUlForFilterTitle. intros H.
  apply first_ul_Some in H as (el & Hin & Hnear).
  split; [by eapply ul_near_ul|].
  apply list_elem_of_filter in Hin as [Htext Hin].
  unfold qsa, querySelectorAll, elem_qsa, doc_qsa in Hin.
  apply list_elem_of_filter in Hin as [Hpre Hin].
  apply list_elem_of_filter in Hin as [_ Hin].
  apply elem_of_elems in Hin as (n & Hn & Hel).
  exists el, n. unfold text_at in Htext. rewrite Hn in Htext. by repeat split.
Qed.

Lemma findUlForFilterTitle_finds_list_witness :
  ∃ n, get Sample.admin_page [1; 0; 1; 2] = Some n ∧ tag_of n = Some "ul".
Proof.
  apply (findUlForFilterTitle_finds_list Sample.admin_page [1; 0; 1] "Статус").
  vm_compute. reflexivity.
Defined.

Lemma assoc_set_eq name v l : assoc name (assoc_set name v l) = Some v.
Proof.
  induction l as [|[k w] l IH]; simpl.
  - by rewrite decide_True.
  - destruct (decide (k = name)) as [->|Hne]; simpl.
    + by rewrite decide_True.
    + by rewrite decide_False.
Qed.

Lemma assoc_set_ne name k v l : name ≠ k → assoc name (assoc_set k v l) = assoc name l.
Proof.
  intros Hne. induction l as [|[k' w] l IH]; simpl.
  - by rewrite decide_False by congruence.
  - destruct (decide (k' = k)) as [->|Hk]; simpl.
    + by rewrite !decide_False by congruence.
    + destruct (decide (k' = name)); [done|exact IH].
Qed.

Lemma textContent_cloneNode : ∀ n, textContent (cloneNode n) = textContent n.
Proof.
  fix IH 1. intros [s|t a ps ls ks]; [done|]. simpl.
  induction ks as [|k ks IHks]; [done|]. simpl. by rewrite IH, IHks.
Qed.

Lemma elem_of_ordered_set x l : ∀ seen, x ∈ ordered_set seen l ↔ x ∈ l ∧ x ∉ seen.
Proof.
  induction l as [|y l IH]; intros seen; simpl.
  - rewrite elem_of_nil. tauto.
  - case_bool_decide as Hy.
    + rewrite IH, elem_of_cons. split; [tauto|]. intros [[->|Hx] Hseen]; [done|tauto].
    + rewrite !elem_of_cons, IH, elem_of_cons.
      destruct (decide (x = y)) as [->|Hne]; tauto.
Qed.

Lemma classList_tokens n : Forall (fun w => is_token Str.html_space w = true) (classList n).
Proof.
  unfold classList. destruct (getAttribute "class" n) as [cl|]; [|done].
  apply Forall_forall. intros x Hx. apply elem_of_ordered_set in Hx as [Hx _].
  pose proof (split_tokens _ html_space_encodings cl) as Hw.
  rewrite Forall_forall in Hw. by apply Hw.
Qed.

Lemma classList_add_classes c n :
  is_elem n = true → is_token Str.html_space c = true →
  ∀ c', c' ∈ classList (classList_add c n) ↔ c' = c ∨ c' ∈ classList n.
Proof.
  intros Hel Hc c'. pose proof (classList_tokens n) as Htoks.
  destruct n as [s|t a ps ls ks]; [done|].
  unfold classList_add. set (toks := classList (Elem t a ps ls ks)) in *.
  unfold classList. simpl. rewrite assoc_set_eq.
  rewrite elem_of_ordered_set.
  case_bool_decide as Hc'.
  - rewrite (split_join _ html_space_encodings html_space_space) by done.
    split; [tauto|]. intros [->|?]; (split; [done|apply not_elem_of_nil]).
  - rewrite (split_join _ html_space_encodings html_space_space)
      by (apply Forall_app; split; [done | by apply Forall_singleton]).
    rewrite elem_of_app, list_elem_of_singleton. split; [tauto|].
    intros H. split; [tauto|apply not_elem_of_nil].
Qed.

(** X22: the copy of a link put into a menu keeps the tag, the text and
    every attribute but [class] of the link, carries no listener, and has
    the classes of the link and [top-filter__item]. *)
Theorem menu_item_keeps_link d a :
  a ∈ elems d →
  ∃ link n,
    menu_item d a = Some link
    ∧ get d a = Some n
    ∧ tag_of link = tag_of n
    ∧ (∀ name, name ≠ "class" → getAttribute name link = getAttribute name n)
    ∧ textContent link = textContent n
    ∧ listeners_of link = []
    ∧ (∀ c, has_class c link = true ↔ c = "top-filter__item" ∨ has_class c n = true).
Proof.
  intros Hin. apply elem_of_elems in Hin as (n & Hn & Hel).
  unfold menu_item. rewrite Hn. eexists _, n. split; [reflexivity|]. split; [done|].
  split; [|split; [|split; [|split]]].
  - by destruct n.
  - intros name Hname. destruct n as [s|t at' ps ls ks]; [done|]. simpl.
    by apply assoc_set_ne.
  - rewrite <- (textContent_cloneNode n). by destruct (cloneNode n).
  - by destruct n.
  - intros c. unfold has_class. rewrite !bool_decide_eq_true.
    rewrite classList_add_classes; [|by destruct n|done].
    by destruct n.
Qed.

Lemma menu_item_keeps_link_witness :
  ∃ link n,
    menu_item Sample.admin_page [1; 0; 1; 2; 1; 0] = Some link
    ∧ get Sample.admin_page [1; 0; 1; 2; 1; 0] = Some n
    ∧ tag_of link = tag_of n
    ∧ (∀ name, name ≠ "class" → getAttribute name link = getAttribute name n)
    ∧ textContent link = textContent n
    ∧ listeners_of link = []
    ∧ (∀ c, has_class c link = true ↔ c = "top-filter__item" ∨ has_class c n = true).
Proof.
  apply menu_item_keeps_link. apply elem_of_elems. eexists. split; reflexivity.
Defined.

Lemma foldl_menu_items d l : ∀ t a ps ls ks,
  foldl (fun li x => match menu_item d x with
                     | Some link => appendChild link li
                     | None => li
                     end) (Elem t a ps ls ks) l
  = Elem t a ps ls (ks ++ omap (menu_item d) l).
Proof.
  induction l as [|x l IH]; intros t a ps ls ks; simpl.
  - by rewrite app_nil_r.
  - destruct (menu_item d x) as [link|]; simpl.
    + rewrite IH. by rewrite <- app_assoc.
    + apply IH.
Qed.

Lemma omap_menu_items d l :
  (∀ x, x ∈ l → x ∈ elems d) →
  Forall2 (fun x item => menu_item d x = Some item) l (omap (menu_item d) l).
Proof.
  induction l as [|x l IH]; intros Hl; simpl; [constructor|].
  assert (x ∈ elems d) as Hx by (apply Hl; left).
  apply elem_of_elems in Hx as (n & Hn & _).
  unfold menu_item at 2. rewrite Hn. constructor.
  - unfold menu_item. by rewrite Hn.
  - apply IH. intros y Hy. apply Hl. by right.
Qed.

(** X23: [makeDropdown] never throws and adds one [click] listener to
    the document; the element it returns is a [.top-filter] holding a
    button labelled with the title and the active label, with the toggle
    listener, and a hidden menu whose list holds one copy of every link of
    the [ul], in document order. *)
Theorem makeDropdown_lists_links title ul w :
  ∃ wrap btn menu items,
    makeDropdown title ul w = Return wrap (add_doc_listener "click" CbHideMenu w)
    ∧ has_class "top-filter" wrap = true
    ∧ children_of wrap = [btn; menu]
    ∧ tag_of btn = Some "button"
    ∧ textContent btn = title +:+ (": " +:+ activeLabel (w_doc w) ul)
    ∧ listeners_of btn = [("click", OnClickToggleMenu)]
    ∧ getAttribute "hidden" menu = Some ""
    ∧ children_of <$> children_of menu = [items]
    ∧ Forall2 (fun a item => menu_item (w_doc w) a = Some item)
              (qsa (w_doc w) sel_a (Some ul)) items.
Proof.
  unfold makeDropdown, bind, gets, modify, ret. simpl.
  rewrite foldl_menu_items. simpl.
  eexists _, _, _, _. split; [reflexivity|]. simpl.
  split; [by vm_compute|]. split; [reflexivity|]. split; [reflexivity|].
  split.
  { destruct (title +:+ ": " +:+ activeLabel (w_doc w) ul) as [|c s]; [done|].
    simpl. by rewrite append_nil_r. }
  split; [reflexivity|].
  split; [reflexivity|]. split; [reflexivity|].
  apply omap_menu_items. intros x Hx.
  unfold elem_qsa, doc_qsa in Hx.
  apply list_elem_of_filter in Hx as [_ Hx]. by apply list_elem_of_filter in Hx as [_ Hx].
Qed.
